(** * Granular-Synth: grain scheduler and voice-envelope engine

    A shallow embedding of the scheduling core of the synthesizer's [App]
    component: the note registry ([activeNotesRef]), the note handlers
    ([handleNoteOn], [handleNoteOff]), the lookahead loop ([scheduleGrains])
    with its per-note ADSR envelope and grain placement, and the effect that
    starts and stops the animation-frame loop.

    JavaScript numbers are modelled as rationals [Q], every finite binary64
    number being one, and the arithmetic of the source is kept operation by
    operation.  Where the outcome of a comparison hangs on the rounding of a
    sum (the cursor of the lookahead loop, which accumulates with [+=], and
    the handles of the clip editor) the sum is rounded to binary64 as
    JavaScript does ([JS.round64], [JS.add], [JS.sub]); the envelope and the
    placement are kept in exact arithmetic.  Equality of computed numbers is
    stated with [==]. *)

From Stdlib Require Import Ascii String.
From Stdlib Require Import QArith Qminmax Qabs Qround Qpower Lqa Lia List ZArith
  Bool.
Import ListNotations.
Local Open Scope Q_scope.

(** ** JavaScript primitives *)

Module JS.

(** [x < y] and [x > y] on numbers. *)
Definition ltb (x y : Q) : bool := negb (Qle_bool y x).
Definition gtb (x y : Q) : bool := ltb y x.

(** Truthiness of an optional number ([number | undefined]): [undefined]
    and [0] are both falsy. *)
Definition truthy (x : option Q) : bool :=
  match x with
  | Some v => negb (Qeq_bool v 0)
  | None => false
  end.

(** *** Binary64 arithmetic

    A JavaScript number is a binary64 float.  [round64 x] is the binary64
    number nearest to the rational [x], ties going to the even significand:
    the significand has 53 bits, so the unit in the last place of a number in
    [[2^e, 2^(e+1))] is [2^(e - 52)], and never less than [2^-1074] (the
    subnormal numbers).  Overflow to [Infinity] (beyond [2^1024]) is not
    modelled. *)

Definition pow2 (e : Z) : Q := 2 ^ e.

(** For [0 < x], the exponent [e] with [2^e <= x < 2^(e+1)]. *)
Definition floorLog2 (x : Q) : Z :=
  let e := (Z.log2 (Qnum x) - Z.log2 (Zpos (Qden x)))%Z in
  if Qle_bool (pow2 e) x then e else (e - 1)%Z.

(** Exponent of the smallest positive binary64 number. *)
Definition minExp : Z := -1074.

(** Exponent of the unit in the last place of the binary64 numbers around
    [x]. *)
Definition ulpExp (x : Q) : Z := Z.max (floorLog2 x - 52) minExp.

(** The integer nearest to [x], ties to even. *)
Definition nearestEven (x : Q) : Z :=
  let f := Qfloor x in
  match Qcompare (x - inject_Z f) (1#2) with
  | Lt => f
  | Gt => (f + 1)%Z
  | Eq => if Z.even f then f else (f + 1)%Z
  end.

(** The binary64 number nearest to [a], for [0 < a]: the nearest multiple of
    the unit in the last place. *)
Definition roundPos (a : Q) : Q :=
  inject_Z (nearestEven (a / pow2 (ulpExp a))) * pow2 (ulpExp a).

Definition round64 (x : Q) : Q :=
  match Qcompare x 0 with
  | Eq => 0
  | Gt => roundPos x
  | Lt => - roundPos (- x)
  end.

(** [x + y] and [x - y] on numbers. *)
Definition add (x y : Q) : Q := round64 (x + y).


End JS.

(** ** [Map<number, V>]: an insertion-ordered table with unique keys *)

Module JSMap.
Section Table.
Context {V : Type}.

Definition t := list (Z * V).

Fixpoint get (k : Z) (m : t) : option V :=
  match m with
  | [] => None
  | (k', v) :: r => if Z.eqb k k' then Some v else get k r
  end.

(** [set] overwrites in place when the key exists, appends otherwise. *)
Fixpoint set (k : Z) (v : V) (m : t) : t :=
  match m with
  | [] => [(k, v)]
  | (k', v') :: r =>
      if Z.eqb k k' then (k, v) :: r else (k', v') :: set k v r
  end.

Fixpoint delete (k : Z) (m : t) : t :=
  match m with
  | [] => []
  | (k', v') :: r =>
      if Z.eqb k k' then delete k r else (k', v') :: delete k r
  end.

Definition size (m : t) : nat := length m.

Definition keys (m : t) : list Z := map fst m.

(** [forEach] runs the callback on every entry, in insertion order, threading
    the program state [S] that the callback mutates.  The callbacks of this
    program delete at most the entry being visited, which does not disturb the
    traversal of the others. *)
Definition forEach {S : Type} (m : t) (f : V -> Z -> S -> S) (s : S) : S :=
  fold_left (fun acc e => f (snd e) (fst e) acc) m s.

(** Keys of a [Map] are unique. *)
Definition wf (m : t) : Prop := NoDup (keys m).

End Table.
Arguments t : clear implicits.
End JSMap.

(** ** Data model *)

Record NoteState := mkNote {
  velocity : Q;
  startTime : Q;
  releaseTime : option Q;
  isReleased : bool
}.

Record GranularParams := mkParams {
  position : Q;
  spread : Q;
  grainSize : Q;
  density : Q;
  pitch : Q;
  pitchSpread : Q;
  volume : Q;
  attack : Q;
  decay : Q;
  sustain : Q;
  release : Q;
  delayTime : Q;
  delayFeedback : Q;
  delayWet : Q;
  reverbWet : Q
}.

(** Initial value of [paramsRef]. *)
Definition defaultParams : GranularParams :=
  mkParams (1#2) (1#10) (1#10) (5#100) 1 0 (7#10)
           (1#10) (2#10) (8#10) (1#2)
           (3#10) (4#10) 0 0.

(** An entry of [notesToPlay]. *)
Record Voice := mkVoice {
  playbackRate : Q;
  gain : Q
}.

(** One started buffer source: [src.start(now, offsetSeconds, duration)] with
    its playback rate and the peak of its gain window. *)
Record Grain := mkGrain {
  scheduledStartTime : Q;
  offsetSeconds : Q;
  durationSeconds : Q;
  finalRate : Q;
  peakGain : Q
}.

(** ** The ADSR envelope of [scheduleGrains] *)

Definition epsilon : Q := 1#1000.
Definition silenceThreshold : Q := 1#1000.

Definition safeTime (data : NoteState) (now : Q) : Q :=
  let timeSinceStart := now - startTime data in
  Qmax 0 timeSinceStart.

Definition envGain (p : GranularParams) (data : NoteState) (now : Q) : Q :=
  let safeTime := safeTime data now in
  if negb (isReleased data) then
    if JS.ltb safeTime (attack p) then
      safeTime / Qmax epsilon (attack p)
    else if JS.ltb safeTime (attack p + decay p) then
      let decayProgress := (safeTime - attack p) / Qmax epsilon (decay p) in
      1 - (1 - sustain p) * decayProgress
    else sustain p
  else
    match releaseTime data with
    | Some rt =>
        if JS.truthy (Some rt) then
          let timeSinceRelease := now - rt in
          if JS.ltb timeSinceRelease (release p) then
            sustain p * (1 - timeSinceRelease / Qmax epsilon (release p))
          else 0
        else 0
    | None => 0
    end.

(** The envelope as the specification words it.  [spec_envelopeGain] follows
    the prose, not the source; it is compared with [envGain] below. *)
Definition spec_envelopeGain (p : GranularParams) (data : NoteState) (now : Q) : Q :=
  if isReleased data then
    match releaseTime data with
    | Some rt =>
        let tr := now - rt in
        if Qlt_le_dec tr (release p)
        then sustain p * (1 - tr / Qmax epsilon (release p))
        else 0
    | None => 0
    end
  else
    let t := Qmax 0 (now - startTime data) in
    if Qlt_le_dec t (attack p) then t / Qmax epsilon (attack p)
    else if Qlt_le_dec t (attack p + decay p)
         then 1 - (1 - sustain p) * (t - attack p) / Qmax epsilon (decay p)
         else sustain p.

(** The registry invariant of the data model. *)
Definition noteInv (data : NoteState) : Prop :=
  isReleased data = true <-> releaseTime data <> None.

(** ** Grain placement *)

(** [r * spread] for the draw [u = Math.random()], with
    [r = (u - 0.5) * 2]. *)
Definition randomUnit (u : Q) : Q := (u - (1#2)) * 2.

Definition randomOffset (p : GranularParams) (u : Q) : Q :=
  (u - (1#2)) * 2 * spread p.

(** The two successive [if]s after "Wrap or Clamp". *)
Definition wrap (relativeGrainPos : Q) : Q :=
  let r1 := if JS.ltb relativeGrainPos 0 then relativeGrainPos + 1
            else relativeGrainPos in
  if JS.gtb r1 1 then r1 - 1 else r1.

Definition relativeGrainPos (p : GranularParams) (u : Q) : Q :=
  wrap (position p + randomOffset p u).

Definition absolutePosPct (p : GranularParams) (clip : Q * Q) (u : Q) : Q :=
  let clipDurationPct := snd clip - fst clip in
  fst clip + relativeGrainPos p u * clipDurationPct.

Definition safeStartPct (p : GranularParams) (clip : Q * Q) (u : Q) : Q :=
  Qmax 0 (Qmin 1 (absolutePosPct p clip u)).

Definition grainOffset (p : GranularParams) (clip : Q * Q)
    (bufferDuration : Q) (u : Q) : Q :=
  let offsetSeconds := safeStartPct p clip u * bufferDuration in
  let duration := grainSize p in
  if JS.gtb (offsetSeconds + duration) bufferDuration
  then Qmax 0 (bufferDuration - duration)
  else offsetSeconds.

Definition grainRate (p : GranularParams) (voice : Voice) (u : Q) : Q :=
  let randomPitch := 1 + (u - (1#2)) * 2 * pitchSpread p in
  Qmax (1#10) (playbackRate voice * randomPitch).

(** One iteration of [notesToPlay.forEach]: [u1] and [u2] are the two draws
    of [Math.random()], in program order. *)
Definition playGrain (p : GranularParams) (clip : Q * Q) (bufferDuration : Q)
    (now : Q) (voice : Voice) (u1 u2 : Q) : Grain :=
  mkGrain now (grainOffset p clip bufferDuration u1) (grainSize p)
          (grainRate p voice u2) (volume p * gain voice).

(** The placement as the specification words it, for a draw [r] in [-1, 1]. *)
Definition spec_offsetSeconds (position spread r clipStart clipEnd
    sampleDuration grainSize : Q) : Q :=
  let relativePos := position + r * spread in
  let wrapped :=
    if Qlt_le_dec relativePos 0 then relativePos + 1
    else if Qlt_le_dec 1 relativePos then relativePos - 1
    else relativePos in
  let absolutePos := clipStart + wrapped * (clipEnd - clipStart) in
  let clamped := Qmax 0 (Qmin 1 absolutePos) in
  let offsetSeconds := clamped * sampleDuration in
  if Qlt_le_dec sampleDuration (offsetSeconds + grainSize)
  then Qmax 0 (sampleDuration - grainSize)
  else offsetSeconds.

(** ** Application state *)

(** The refs and state variables of [App] that the scheduler touches, with
    the part of the host it drives: the queue of requested animation frames,
    the next frame id and the number of [Math.random()] draws consumed. *)
Record Engine := mkEngine {
  isPlaying : bool;
  sampleRange : Q * Q;
  activeNotes : JSMap.t NoteState;
  activeNotesUI : list Z;
  params : GranularParams;
  nextGrainTime : Q;
  timerId : option positive;
  pendingFrames : list positive;
  nextFrameId : positive;
  randomDraws : nat
}.

Definition set_activeNotes (m : JSMap.t NoteState) (st : Engine) : Engine :=
  mkEngine (isPlaying st) (sampleRange st) m (activeNotesUI st) (params st)
           (nextGrainTime st) (timerId st) (pendingFrames st)
           (nextFrameId st) (randomDraws st).

Definition set_activeNotesUI (ui : list Z) (st : Engine) : Engine :=
  mkEngine (isPlaying st) (sampleRange st) (activeNotes st) ui (params st)
           (nextGrainTime st) (timerId st) (pendingFrames st)
           (nextFrameId st) (randomDraws st).

Definition set_nextGrainTime (t : Q) (st : Engine) : Engine :=
  mkEngine (isPlaying st) (sampleRange st) (activeNotes st) (activeNotesUI st)
           (params st) t (timerId st) (pendingFrames st)
           (nextFrameId st) (randomDraws st).

Definition set_timerId (id : option positive) (st : Engine) : Engine :=
  mkEngine (isPlaying st) (sampleRange st) (activeNotes st) (activeNotesUI st)
           (params st) (nextGrainTime st) id (pendingFrames st)
           (nextFrameId st) (randomDraws st).

Definition set_pendingFrames (q : list positive) (st : Engine) : Engine :=
  mkEngine (isPlaying st) (sampleRange st) (activeNotes st) (activeNotesUI st)
           (params st) (nextGrainTime st) (timerId st) q
           (nextFrameId st) (randomDraws st).

Definition set_randomDraws (n : nat) (st : Engine) : Engine :=
  mkEngine (isPlaying st) (sampleRange st) (activeNotes st) (activeNotesUI st)
           (params st) (nextGrainTime st) (timerId st) (pendingFrames st)
           (nextFrameId st) n.

(** The state of a freshly mounted component. *)
Definition initialEngine : Engine :=
  mkEngine false (0, 1) [] [] defaultParams 0 None [] 1%positive 0%nat.

(** [requestAnimationFrame(cb)]: queues a frame and returns its id. *)
Definition requestAnimationFrame (st : Engine) : positive * Engine :=
  let id := nextFrameId st in
  (id, mkEngine (isPlaying st) (sampleRange st) (activeNotes st)
         (activeNotesUI st) (params st) (nextGrainTime st) (timerId st)
         (pendingFrames st ++ [id]) (Pos.succ id) (randomDraws st)).

Definition cancelAnimationFrame (id : positive) (st : Engine) : Engine :=
  set_pendingFrames
    (filter (fun i => negb (Pos.eqb i id)) (pendingFrames st)) st.

(** ** Voice registry: [handleNoteOff] *)

(** [clock] is [None] while [audioContext] is null and [Some t] when the
    context exists and its [currentTime] reads [t].  [activeNotesUI] is the
    content of the state array: every call hands a new array
    ([prev.filter(...)]) to [setActiveNotesUI], also when nothing is
    filtered out; which array object holds the content is not modelled. *)
Definition handleNoteOff (clock : option Q) (note : Z) (st : Engine) : Engine :=
  let ui := filter (fun n => negb (Z.eqb n note)) (activeNotesUI st) in
  match JSMap.get note (activeNotes st), clock with
  | Some noteData, Some currentTime =>
      let released :=
        mkNote (velocity noteData) (startTime noteData) (Some currentTime) true in
      set_activeNotesUI ui
        (set_activeNotes (JSMap.set note released (activeNotes st)) st)
  | _, _ =>
      set_activeNotesUI ui
        (set_activeNotes (JSMap.delete note (activeNotes st)) st)
  end.

(** ** The scheduling loop *)

Definition baseNote : Z := 48.

(** The literals [0.1] and [0.005] of the loop: the binary64 numbers nearest
    to 1/10 and 5/1000. *)
Definition lookahead : Q := JS.round64 (1#10).
Definition minSpacing : Q := JS.round64 (5#1000).

(** [ctx.currentTime + 0.1], the bound the [while] loop tests the cursor
    against. *)
Definition horizon (currentTime : Q) : Q := JS.add currentTime lookahead.

Definition grainInterval (p : GranularParams) : Q :=
  Qmax minSpacing (density p).

(** The "Cleanup finished notes" test of the [forEach] callback. *)
Definition expired (p : GranularParams) (data : NoteState) (now : Q) : bool :=
  isReleased data &&
  match releaseTime data with
  | Some rt => JS.truthy (Some rt) && JS.gtb now (rt + release p)
  | None => false
  end.

Section Scheduler.

(** [Math.pow] and the sequence of values returned by [Math.random()]. *)
Variable pow : Q -> Q -> Q.
Variable random : nat -> Q.

Definition noteRate (p : GranularParams) (note : Z) : Q :=
  let semitones := inject_Z (note - baseNote) in
  pitch p * pow 2 (semitones / 12).

(** The callback of [activeNotesRef.current.forEach]; the threaded state is
    the live map and [notesToPlay]. *)
Definition processNote (p : GranularParams) (now : Q)
    (data : NoteState) (note : Z)
    (acc : JSMap.t NoteState * list Voice) : JSMap.t NoteState * list Voice :=
  let (live, notesToPlay) := acc in
  if expired p data now then (JSMap.delete note live, notesToPlay)
  else
    let g := envGain p data now in
    if JS.gtb g silenceThreshold
    then (live, notesToPlay ++ [mkVoice (noteRate p note) (velocity data * g)])
    else (live, notesToPlay).

Definition droneVoice (playing : bool) (p : GranularParams) : list Voice :=
  if playing then [mkVoice (pitch p) 1] else [].

(** The emission test of the callback and the voice it pushes, as functions
    of a registry entry. *)
Definition audible (p : GranularParams) (now : Q) (e : Z * NoteState) : bool :=
  JS.gtb (envGain p (snd e) now) silenceThreshold.

Definition noteVoice (p : GranularParams) (now : Q) (e : Z * NoteState)
    : Voice :=
  mkVoice (noteRate p (fst e)) (velocity (snd e) * envGain p (snd e) now).

Definition collectVoices (playing : bool) (p : GranularParams) (now : Q)
    (notes : JSMap.t NoteState) : JSMap.t NoteState * list Voice :=
  JSMap.forEach notes (processNote p now) (notes, droneVoice playing p).

Fixpoint playVoices (p : GranularParams) (clip : Q * Q) (bufferDuration : Q)
    (now : Q) (notesToPlay : list Voice) (drawn : nat) : list Grain * nat :=
  match notesToPlay with
  | [] => ([], drawn)
  | voice :: rest =>
      let g := playGrain p clip bufferDuration now voice
                 (random drawn) (random (S drawn)) in
      let (gs, d) := playVoices p clip bufferDuration now rest (S (S drawn)) in
      (g :: gs, d)
  end.

(** One iteration of the [while] loop: the grains of the slot at
    [now = nextGrainTime], then the cursor advance
    [nextGrainTimeRef.current += Math.max(0.005, p.density)], a binary64
    addition. *)
Definition slot (p : GranularParams) (clip : Q * Q) (bufferDuration : Q)
    (st : Engine) : Engine * list Grain :=
  let now := nextGrainTime st in
  let (live, notesToPlay) :=
    collectVoices (isPlaying st) p now (activeNotes st) in
  let (grains, drawn) :=
    playVoices p clip bufferDuration now notesToPlay (randomDraws st) in
  (set_nextGrainTime (JS.add now (grainInterval p))
     (set_randomDraws drawn (set_activeNotes live st)),
   grains).

(** The [while] loop, cut after [fuel] iterations; the result lists the
    grains slot by slot.  [scheduleGrains] runs it with [slotsDue] iterations:
    for clock readings and grain intervals up to [2^30] seconds the loop
    leaves through its test before they are used up
    ([scheduleLoop_terminates]).  Far beyond that range a binary64 cursor stops
    moving ([c + 0.005] rounds to [c]) and the loop of the source does not
    end; the model is not meant for such readings. *)
Fixpoint scheduleLoop (fuel : nat) (p : GranularParams) (clip : Q * Q)
    (bufferDuration currentTime : Q) (st : Engine)
    : Engine * list (list Grain) :=
  match fuel with
  | O => (st, [])
  | S fuel' =>
      if JS.ltb (nextGrainTime st) (horizon currentTime) then
        let (st1, grains) := slot p clip bufferDuration st in
        let (st2, later) :=
          scheduleLoop fuel' p clip bufferDuration currentTime st1 in
        (st2, grains :: later)
      else (st, [])
  end.

(** A number of iterations within which the cursor reaches the horizon: an
    advance adds the interval up to the rounding of the sum, which is at least
    half the interval. *)
Definition slotsDue (cursor horizon step : Q) : nat :=
  Z.to_nat (Qceiling (2 * (horizon - cursor) / step)).

(** [buffer] is the duration of [audioBuffer] when one is loaded; [graph]
    tells whether [audioGraphRef.current] is set. *)
Definition scheduleGrains (clock buffer : option Q) (graph : bool)
    (st : Engine) : Engine * list (list Grain) :=
  match clock, buffer, graph with
  | Some currentTime, Some bufferDuration, true =>
      let p := params st in
      let clip := sampleRange st in
      let fuel := slotsDue (nextGrainTime st) (horizon currentTime)
                    (grainInterval p) in
      let (st1, out) :=
        scheduleLoop fuel p clip bufferDuration currentTime st in
      let (id, st2) := requestAnimationFrame st1 in
      (set_timerId (Some id) st2, out)
  | _, _, _ => (st, [])
  end.

(** The host runs the oldest queued frame callback. *)
Definition animationFrame (clock buffer : option Q) (graph : bool)
    (st : Engine) : Engine * list (list Grain) :=
  match pendingFrames st with
  | [] => (st, [])
  | _ :: rest => scheduleGrains clock buffer graph (set_pendingFrames rest st)
  end.

(** Successive frames, one per clock reading. *)
Fixpoint animationFrames (clocks : list Q) (bufferDuration : Q)
    (st : Engine) : Engine :=
  match clocks with
  | [] => st
  | c :: cs =>
      animationFrames cs bufferDuration
        (fst (animationFrame (Some c) (Some bufferDuration) true st))
  end.

(** ** Voice registry: [handleNoteOn] *)

Definition defaultVelocity : Q := 8#10.

Definition handleNoteOn (clock buffer : option Q) (graph : bool)
    (note : Z) (velocity : Q) (st : Engine) : Engine * list (list Grain) :=
  let startTime := match clock with Some t => t | None => 0 end in
  let st1 :=
    set_activeNotes
      (JSMap.set note (mkNote velocity startTime None false) (activeNotes st))
      st in
  let ui := activeNotesUI st1 in
  let st2 :=
    set_activeNotesUI
      (if existsb (Z.eqb note) ui then ui else ui ++ [note]) st1 in
  match timerId st2, clock with
  | None, Some currentTime =>
      scheduleGrains clock buffer graph (set_nextGrainTime currentTime st2)
  | _, _ => (st2, [])
  end.

End Scheduler.

(** Stand-ins for [Math.pow] and [Math.random] in worked examples. *)
Definition constPow : Q -> Q -> Q := fun _ _ => 1.
Definition midRandom : nat -> Q := fun _ => 1#2.

(** ** The effect that starts and stops the loop *)

Definition hasNotes (st : Engine) : bool :=
  Nat.ltb 0 (JSMap.size (activeNotes st)).

Definition stopIfIdle (st : Engine) : Engine :=
  if negb (isPlaying st) && negb (hasNotes st) then
    match timerId st with
    | Some id => set_timerId None (cancelAnimationFrame id st)
    | None => st
    end
  else st.

Definition loopEffect (clock : option Q) (st : Engine) : Engine :=
  match clock with
  | Some currentTime =>
      if isPlaying st || hasNotes st then
        let st1 :=
          if JS.ltb (nextGrainTime st) (currentTime - (2#10))
          then set_nextGrainTime currentTime st else st in
        match timerId st1 with
        | None =>
            let st2 :=
              set_nextGrainTime (Qmax (nextGrainTime st1) currentTime) st1 in
            let (id, st3) := requestAnimationFrame st2 in
            set_timerId (Some id) st3
        | Some _ => st1
        end
      else stopIfIdle st
  | None => stopIfIdle st
  end.

(** The cleanup returned by the effect. *)
Definition loopEffectCleanup (st : Engine) : Engine :=
  match timerId st with
  | Some id => cancelAnimationFrame id st
  | None => st
  end.

(** ** Properties used in the statements *)

Definition registryInv (m : JSMap.t NoteState) : Prop :=
  Forall (fun e => noteInv (snd e)) m.

(** The loop is live when the host still holds a queued frame. *)
Definition loopRunning (st : Engine) : bool :=
  match pendingFrames st with [] => false | _ :: _ => true end.

Definition idle (st : Engine) : Prop :=
  isPlaying st = false /\ activeNotes st = [].


(** The state [handleNoteOff] stores for a note when the clock reads
    [currentTime]. *)
Definition releasedNote (data : NoteState) (currentTime : Q) : NoteState :=
  mkNote (velocity data) (startTime data) (Some currentTime) true.


(** ** Worked inputs and auxiliary notions *)

(** A note released at clock reading 0, as [handleNoteOff] stores it while
    the audio context has not started to advance. *)
Definition noteReleasedAtZero : NoteState := mkNote (8#10) 0 (Some 0) true.




(** A note held since clock reading 0, and the same note released at clock
    reading 1. *)
Definition heldNote : NoteState := mkNote (8#10) 0 None false.

Definition noteReleasedAtOne : NoteState := mkNote (8#10) 0 (Some 1) true.

(** Scenario 4 of the specification: position 0.95 and spread 0.1. *)
Definition scenario4Params : GranularParams :=
  mkParams (95#100) (1#10) (1#10) (5#100) 1 0 (7#10)
           (1#10) (2#10) (8#10) (1#2)
           (3#10) (4#10) 0 0.

(** Scenario 4 as the component has it, with the drone armed, and a source
    of draws that always returns the largest value, [r = 1]. *)
Definition engineScenario4 : Engine :=
  mkEngine true (0, 1) [] [] scenario4Params 0 None [] 1%positive 0%nat.

Definition maxRandom : nat -> Q := fun _ => 1.

(** The component with the playhead at the very end of the clip and no
    spread: every grain would run past the end of the buffer. *)
Definition engineOverrun : Engine :=
  mkEngine true (0, 1) [] []
    (mkParams 1 0 (1#10) (5#100) 1 0 (7#10)
              (1#10) (2#10) (8#10) (1#2) (3#10) (4#10) 0 0)
    0 None [] 1%positive 0%nat.

(** Tells whether traversing [l] at time [now] sweeps the key of [e]. *)
Definition sweptIn (p : GranularParams) (now : Q) (l : JSMap.t NoteState)
    (e : Z * NoteState) : bool :=
  existsb (fun e' => Z.eqb (fst e') (fst e) && expired p (snd e') now) l.

(** A registry holding one held note and one released note. *)
Definition heldAndReleased : JSMap.t NoteState :=
  [(60%Z, heldNote); (64%Z, noteReleasedAtOne)].

(** A registry whose only note was released at clock reading 0. *)
Definition registryReleasedAtZero : JSMap.t NoteState :=
  [(60%Z, noteReleasedAtZero)].

(** The cursor value of the [k]-th slot of a run that starts at [c]: the
    running binary64 sum. *)
Fixpoint cursorAt (c step : Q) (k : nat) : Q :=
  match k with
  | O => c
  | S k' => JS.add (cursorAt c step k') step
  end.

(** The same cursor value if every advance were exactly [step]. *)
Definition slotTime (c step : Q) (k : nat) : Q :=
  c + inject_Z (Z.of_nat k) * step.

(** The bounds on rounding below are stated for clock readings and grain
    intervals up to [2^30] seconds (34 years); a sum below [2^32] is rounded
    by at most [2^-22]. *)
Definition clockBound : Q := JS.pow2 30.
Definition roundingSlack : Q := JS.pow2 (-22).

(** The component with the drone armed, its cursor at clock reading 29 and
    the smallest grain interval. *)
Definition engineAtTwentyNine : Engine :=
  mkEngine true (0, 1) [] []
    (mkParams (1#2) (1#10) (1#10) (JS.round64 (5#1000)) 1 0 (7#10)
              (1#10) (2#10) (8#10) (1#2) (3#10) (4#10) 0 0)
    29 None [] 1%positive 0%nat.

(** The component with its cursor at clock reading 2 and a density of 0.05,
    as a binary64 number. *)
Definition engineAtTwo : Engine :=
  mkEngine true (0, 1) [] []
    (mkParams (1#2) (1#10) (1#10) (JS.round64 (5#100)) 1 0 (7#10)
              (1#10) (2#10) (8#10) (1#2) (3#10) (4#10) 0 0)
    2 None [] 1%positive 0%nat.

(** The component with one held note, a loaded buffer assumed, before the
    first call of the loop. *)
Definition engineWithHeldNote : Engine :=
  mkEngine false (0, 1) [(60%Z, heldNote)] [60%Z] defaultParams 0 None []
           1%positive 0%nat.

(** The component while the loop is running with the drone disarmed and one
    note left in the registry, released at clock reading 1. *)
Definition engineReleasing : Engine :=
  mkEngine false (0, 1) [(60%Z, noteReleasedAtOne)] [] defaultParams 2
           (Some 1%positive) [1%positive] 2%positive 0%nat.

(** * Further parts of the component *)

(** ** Parameter updates: [updateParam] and [handleAIPresets] *)

Definition set_params (p : GranularParams) (st : Engine) : Engine :=
  mkEngine (isPlaying st) (sampleRange st) (activeNotes st) (activeNotesUI st)
           p (nextGrainTime st) (timerId st) (pendingFrames st)
           (nextFrameId st) (randomDraws st).

(** [keyof GranularParams]. *)
Inductive ParamKey : Type :=
  | KPosition | KSpread | KGrainSize | KDensity | KPitch | KPitchSpread
  | KVolume | KAttack | KDecay | KSustain | KRelease
  | KDelayTime | KDelayFeedback | KDelayWet | KReverbWet.

(** [params[key]]. *)
Definition getParam (key : ParamKey) (p : GranularParams) : Q :=
  match key with
  | KPosition => position p | KSpread => spread p
  | KGrainSize => grainSize p | KDensity => density p
  | KPitch => pitch p | KPitchSpread => pitchSpread p
  | KVolume => volume p | KAttack => attack p | KDecay => decay p
  | KSustain => sustain p | KRelease => release p
  | KDelayTime => delayTime p | KDelayFeedback => delayFeedback p
  | KDelayWet => delayWet p | KReverbWet => reverbWet p
  end.

(** [{ ...params, [key]: value }]. *)
Definition withParam (key : ParamKey) (value : Q) (p : GranularParams)
    : GranularParams :=
  match p with
  | mkParams po sp gs de pi ps vo at_ dc su re dt df dw rw =>
      match key with
      | KPosition => mkParams value sp gs de pi ps vo at_ dc su re dt df dw rw
      | KSpread => mkParams po value gs de pi ps vo at_ dc su re dt df dw rw
      | KGrainSize => mkParams po sp value de pi ps vo at_ dc su re dt df dw rw
      | KDensity => mkParams po sp gs value pi ps vo at_ dc su re dt df dw rw
      | KPitch => mkParams po sp gs de value ps vo at_ dc su re dt df dw rw
      | KPitchSpread => mkParams po sp gs de pi value vo at_ dc su re dt df dw rw
      | KVolume => mkParams po sp gs de pi ps value at_ dc su re dt df dw rw
      | KAttack => mkParams po sp gs de pi ps vo value dc su re dt df dw rw
      | KDecay => mkParams po sp gs de pi ps vo at_ value su re dt df dw rw
      | KSustain => mkParams po sp gs de pi ps vo at_ dc value re dt df dw rw
      | KRelease => mkParams po sp gs de pi ps vo at_ dc su value dt df dw rw
      | KDelayTime => mkParams po sp gs de pi ps vo at_ dc su re value df dw rw
      | KDelayFeedback =>
          mkParams po sp gs de pi ps vo at_ dc su re dt value dw rw
      | KDelayWet => mkParams po sp gs de pi ps vo at_ dc su re dt df value rw
      | KReverbWet => mkParams po sp gs de pi ps vo at_ dc su re dt df dw value
      end
  end.

(** [updateParam]: [params] is the state variable as the closure of the
    current render captured it.  The result pairs the value handed to
    [setParams] with the component whose [paramsRef] has been replaced. *)
Definition updateParam (params : GranularParams) (key : ParamKey) (value : Q)
    (st : Engine) : GranularParams * Engine :=
  let newParams := withParam key value params in
  (newParams, set_params newParams st).

Record PresetResponse := mkPreset {
  preset_grainSize : Q;
  preset_density : Q;
  preset_spread : Q;
  preset_pitch : Q;
  preset_pitchSpread : Q;
  preset_attack : Q;
  preset_decay : Q;
  preset_sustain : Q;
  preset_release : Q;
  preset_delayTime : Q;
  preset_delayFeedback : Q;
  preset_delayWet : Q;
  preset_reverbWet : Q
}.

(** The thirteen [updateParam] calls of [handleAIPresets] once the preset has
    arrived, in program order.  They all run in one closure, so each call
    reads the same [params]; the value of the last [setParams] is the state
    of the next render. *)
Definition handleAIPresets (params : GranularParams) (preset : PresetResponse)
    (st : Engine) : GranularParams * Engine :=
  let st := snd (updateParam params KGrainSize (preset_grainSize preset) st) in
  let st := snd (updateParam params KDensity (preset_density preset) st) in
  let st := snd (updateParam params KSpread (preset_spread preset) st) in
  let st := snd (updateParam params KPitch (preset_pitch preset) st) in
  let st :=
    snd (updateParam params KPitchSpread (preset_pitchSpread preset) st) in
  let st := snd (updateParam params KAttack (preset_attack preset) st) in
  let st := snd (updateParam params KDecay (preset_decay preset) st) in
  let st := snd (updateParam params KSustain (preset_sustain preset) st) in
  let st := snd (updateParam params KRelease (preset_release preset) st) in
  let st := snd (updateParam params KDelayTime (preset_delayTime preset) st) in
  let st :=
    snd (updateParam params KDelayFeedback (preset_delayFeedback preset) st) in
  let st := snd (updateParam params KDelayWet (preset_delayWet preset) st) in
  updateParam params KReverbWet (preset_reverbWet preset) st.

(** ** MIDI input: [getMIDIMessage] *)

(** What a message asks for: [handleNoteOn(note, velocity / 127)],
    [handleNoteOff(note)], or nothing.  [message.data[1]] is [undefined] in a
    message of a single byte, hence the optional note of a note-off. *)
Inductive MidiAction : Type :=
  | MidiNoteOn (note : Z) (velocity : Q)
  | MidiNoteOff (note : option Z)
  | MidiIgnore.

(** The dispatch of [getMIDIMessage] on the bytes of [message.data].  A
    comparison with an [undefined] command is false.  A velocity above 0
    needs three bytes, so the note of a note-on is always defined. *)
Definition midiAction (data : list Z) : MidiAction :=
  let velocity :=
    if Nat.ltb 2 (length data) then nth 2 data 0%Z else 0%Z in
  match nth_error data 0 with
  | None => MidiIgnore
  | Some command =>
      if (144 <=? command)%Z && (command <=? 159)%Z && (0 <? velocity)%Z then
        match nth_error data 1 with
        | Some note => MidiNoteOn note (inject_Z velocity / 127)
        | None => MidiIgnore
        end
      else if ((128 <=? command)%Z && (command <=? 143)%Z)
              || ((144 <=? command)%Z && (command <=? 159)%Z
                  && (velocity =? 0)%Z)
      then MidiNoteOff (nth_error data 1)
      else MidiIgnore
  end.

(** ** Computer keyboard: [KEY_TO_NOTE], [NOTE_TO_KEY] and the listeners *)

Module Keys.

Definition toLowerAscii (c : ascii) : ascii :=
  let n := nat_of_ascii c in
  if Nat.leb 65 n && Nat.leb n 90 then ascii_of_nat (n + 32) else c.

Definition toUpperAscii (c : ascii) : ascii :=
  let n := nat_of_ascii c in
  if Nat.leb 97 n && Nat.leb n 122 then ascii_of_nat (n - 32) else c.

Fixpoint mapString (f : ascii -> ascii) (s : string) : string :=
  match s with
  | EmptyString => EmptyString
  | String c r => String (f c) (mapString f r)
  end.

(** [toLowerCase] and [toUpperCase] on strings of ASCII characters. *)
Definition toLowerCase : string -> string := mapString toLowerAscii.
Definition toUpperCase : string -> string := mapString toUpperAscii.

Definition isDigit (c : ascii) : bool :=
  let n := nat_of_ascii c in Nat.leb 48 n && Nat.leb n 57.

Fixpoint allDigits (s : string) : bool :=
  match s with
  | EmptyString => true
  | String c r => isDigit c && allDigits r
  end.

Fixpoint numValue (acc : N) (s : string) : N :=
  match s with
  | EmptyString => acc
  | String c r => numValue (acc * 10 + N.of_nat (nat_of_ascii c - 48)) r
  end.

(** A property name that is an array index: a canonical decimal numeral
    below 2^32 - 1. *)
Definition isArrayIndex (s : string) : bool :=
  match s with
  | EmptyString => false
  | String c r =>
      allDigits s
      && (negb (Ascii.eqb c "0") || String.eqb r EmptyString)
      && N.ltb (numValue 0 s) 4294967295
  end.

Fixpoint insertByIndex {V : Type} (e : string * V) (l : list (string * V))
    : list (string * V) :=
  match l with
  | [] => [e]
  | e' :: r =>
      if N.leb (numValue 0 (fst e)) (numValue 0 (fst e')) then e :: l
      else e' :: insertByIndex e r
  end.

(** [Object.entries]: the array-index keys in ascending numeric order, then
    the other keys in insertion order. *)
Definition Object_entries {V : Type} (o : list (string * V))
    : list (string * V) :=
  fold_right insertByIndex [] (filter (fun e => isArrayIndex (fst e)) o)
  ++ filter (fun e => negb (isArrayIndex (fst e))) o.

Fixpoint lookup {V : Type} (k : string) (o : list (string * V)) : option V :=
  match o with
  | [] => None
  | (k', v) :: r => if String.eqb k k' then Some v else lookup k r
  end.

End Keys.

(** The object literal [KEY_TO_NOTE], in source order. *)
Definition KEY_TO_NOTE : list (string * Z) :=
  [("z", 48); ("s", 49); ("x", 50); ("d", 51); ("c", 52); ("v", 53);
   ("g", 54); ("b", 55); ("h", 56); ("n", 57); ("j", 58); ("m", 59);
   (",", 60); ("l", 61); (".", 62); (";", 63); ("/", 64);
   ("q", 60); ("2", 61); ("w", 62); ("3", 63); ("e", 64); ("r", 65);
   ("5", 66); ("t", 67); ("6", 68); ("y", 69); ("7", 70); ("u", 71);
   ("i", 72); ("9", 73); ("o", 74); ("0", 75); ("p", 76); ("[", 77);
   ("=", 78); ("]", 79)]%string%Z.

(** [KEY_TO_NOTE[key]] under the truthiness test of the listeners: a missing
    key and the note 0 are both falsy. *)
Definition keyNote (key : string) : option Z :=
  match Keys.lookup key KEY_TO_NOTE with
  | Some note => if Z.eqb note 0 then None else Some note
  | None => None
  end.

Definition topRowLetters : list string :=
  ["q"; "w"; "e"; "r"; "t"; "y"; "u"; "i"; "o"; "p"]%string.

(** One step of the [forEach] that fills [NOTE_TO_KEY]: the first key of a
    note gives its label, a later key replaces it only when it is one of the
    top-row letters.  An empty label would be falsy. *)
Definition noteToKeyStep (acc : JSMap.t string) (e : string * Z)
    : JSMap.t string :=
  let (key, note) := e in
  match JSMap.get note acc with
  | Some (String _ _) =>
      if existsb (String.eqb key) topRowLetters
      then JSMap.set note (Keys.toUpperCase key) acc
      else acc
  | _ => JSMap.set note (Keys.toUpperCase key) acc
  end.

Definition NOTE_TO_KEY : JSMap.t string :=
  fold_left noteToKeyStep (Keys.Object_entries KEY_TO_NOTE) [].

Record KeyEvent := mkKeyEvent {
  eventKey : string;
  isRepeat : bool;
  ctrlKey : bool;
  metaKey : bool;
  altKey : bool;
  targetIsTextInput : bool
}.

(** The note [handleKeyDown] starts, if any. *)
Definition keyDownNote (e : KeyEvent) : option Z :=
  if isRepeat e || ctrlKey e || metaKey e || altKey e then None
  else if targetIsTextInput e then None
  else keyNote (Keys.toLowerCase (eventKey e)).

(** The note [handleKeyUp] releases, if any. *)
Definition keyUpNote (e : KeyEvent) : option Z :=
  keyNote (Keys.toLowerCase (eventKey e)).

(** [getMIDIMessage], [handleKeyDown] and [handleKeyUp] as they act on the
    component.  [handleNoteOff(undefined)], which a lone status byte causes,
    finds no entry to release or delete, since no note of the registry is
    [undefined], and stores the displayed notes filtered by
    [n !== undefined], which keeps them all. *)
Definition getMIDIMessage (pow : Q -> Q -> Q) (random : nat -> Q)
    (clock buffer : option Q) (graph : bool) (data : list Z) (st : Engine)
    : Engine * list (list Grain) :=
  match midiAction data with
  | MidiNoteOn note velocity =>
      handleNoteOn pow random clock buffer graph note velocity st
  | MidiNoteOff (Some note) => (handleNoteOff clock note st, [])
  | MidiNoteOff None =>
      (set_activeNotesUI (filter (fun _ => true) (activeNotesUI st)) st, [])
  | MidiIgnore => (st, [])
  end.

Definition handleKeyDown (pow : Q -> Q -> Q) (random : nat -> Q)
    (clock buffer : option Q) (graph : bool) (e : KeyEvent) (st : Engine)
    : Engine * list (list Grain) :=
  match keyDownNote e with
  | Some note =>
      handleNoteOn pow random clock buffer graph note defaultVelocity st
  | None => (st, [])
  end.

Definition handleKeyUp (clock : option Q) (e : KeyEvent) (st : Engine)
    : Engine :=
  match keyUpNote e with
  | Some note => handleNoteOff clock note st
  | None => st
  end.

(** ** The on-screen keyboard *)

Module Keyboard.

Definition startNote : Z := 48.
Definition endNote : Z := 79.
Definition totalKeys : Z := (endNote - startNote + 1)%Z.

(** [[1, 3, 6, 8, 10].includes(i % 12)]. *)
Definition isBlackIndex (i : Z) : bool :=
  existsb (Z.eqb (Z.rem i 12)) [1; 3; 6; 8; 10]%Z.

Record PianoKey := mkKey {
  note : Z;
  isBlack : bool
}.

Definition keys : list PianoKey :=
  map (fun i => mkKey (startNote + Z.of_nat i)%Z (isBlackIndex (Z.of_nat i)))
      (seq 0 (Z.to_nat totalKeys)).

Definition totalWhiteKeys : nat :=
  length (filter (fun k => negb (isBlack k)) keys).

(** The count of white keys below [n], as the inner [for] loop of the black
    key overlay computes it. *)
Definition whiteKeyIndex (n : Z) : nat :=
  length
    (filter (fun m => negb (isBlackIndex (m - startNote)%Z))
       (map (fun i => (startNote + Z.of_nat i)%Z)
            (seq 0 (Z.to_nat (n - startNote)%Z)))).

(** The [left] offset of a black key, in percent of the keyboard width. *)
Definition blackKeyLeft (n : Z) : Q :=
  let whiteKeyWidth := 100 / inject_Z (Z.of_nat totalWhiteKeys) in
  inject_Z (Z.of_nat (whiteKeyIndex n)) * whiteKeyWidth
  - whiteKeyWidth * (35#100).

End Keyboard.

(** ** The knob and fader widgets *)

Module Knob.

(** The value [handleMouseMove] hands to [onChange] while dragging. *)
Definition handleMouseMove (min max startValue startY clientY : Q) : Q :=
  let range := max - min in
  let deltaY := startY - clientY in
  let sensitivity := (5#1000) * range in
  Qmin max (Qmax min (startValue + deltaY * sensitivity)).

Definition angle (min max value : Q) : Q :=
  let range := max - min in
  let normalized := (value - min) / range in
  normalized * 270 - 135.

(** The [bottom] offset of the thumb of a [VerticalFader], in percent. *)
Definition thumbBottom (min max value : Q) : Q :=
  ((value - min) / (max - min)) * (100 - 20).

End Knob.

(** ** The waveform display and the clip editor *)

Module Waveform.

Inductive DragMode : Type := DragNone | DragLeft | DragRight | DragMove.

Definition tol : Q := 2#100.

Definition clamp01 (x : Q) : Q := Qmax 0 (Qmin 1 x).

(** The position [handleMainInteract] reports for a pointer at [x] pixels
    from the left edge of a canvas [width] pixels wide. *)
Definition handleMainInteract (x width : Q) : Q := clamp01 (x / width).

Definition handleThumbDown (xPct : Q) (sampleRange : Q * Q) : DragMode :=
  let (start, end_) := sampleRange in
  if JS.ltb (Qabs (xPct - start)) tol then DragLeft
  else if JS.ltb (Qabs (xPct - end_)) tol then DragRight
  else if JS.gtb xPct start && JS.ltb xPct end_ then DragMove
  else DragNone.






(** The bounds of the slice shown in the main view:
    [Math.floor(sampleRange[i] * fullData.length)]. *)
Definition sliceBounds (sampleRange : Q * Q) (length : nat) : Z * Z :=
  (Qfloor (fst sampleRange * inject_Z (Z.of_nat length)),
   Qfloor (snd sampleRange * inject_Z (Z.of_nat length))).

(** [Math.ceil(data.length / width)]. *)
Definition columnStep (length width : nat) : nat :=
  Z.to_nat (Qceiling (inject_Z (Z.of_nat length) / inject_Z (Z.of_nat width))).

(** The inner loop of [drawWaveform] over [j = from, ..., from + count - 1];
    a read past the end of the array is [undefined], which no comparison
    accepts. *)
Fixpoint scanBucket (data : list Q) (base from count : nat) (acc : Q * Q)
    : Q * Q :=
  match count with
  | O => acc
  | S count' =>
      let (min, max) := acc in
      let datum := nth_error data (base + from) in
      let min := match datum with
                 | Some d => if JS.ltb d min then d else min
                 | None => min
                 end in
      let max := match datum with
                 | Some d => if JS.gtb d max then d else max
                 | None => max
                 end in
      scanBucket data base (S from) count' (min, max)
  end.

(** [min] and [max] of column [i]. *)
Definition columnExtent (data : list Q) (step i : nat) : Q * Q :=
  scanBucket data (i * step) 0 step (1, -1).

(** Height of the rectangle drawn for column [i]. *)
Definition columnHeight (data : list Q) (step : nat) (amp : Q) (i : nat) : Q :=
  let (min, max) := columnExtent data step i in
  Qmax 1 ((max - min) * amp).

(** A well-formed clip window: inside [0, 1] and at least 0.01 wide. *)
Definition clipInv (sampleRange : Q * Q) : Prop :=
  0 <= fst sampleRange /\ snd sampleRange <= 1 /\
  fst sampleRange + (1#100) <= snd sampleRange.

End Waveform.

(** * Facts about the primitives *)

Module JSFacts.

Lemma ltb_lt (x y : Q) : JS.ltb x y = true <-> x < y.
Proof.
  unfold JS.ltb. rewrite negb_true_iff, <- not_true_iff_false, Qle_bool_iff.
  split; [apply Qnot_le_lt | apply Qlt_not_le].
Qed.

Lemma ltb_ge (x y : Q) : JS.ltb x y = false <-> y <= x.
Proof. unfold JS.ltb. rewrite negb_false_iff. apply Qle_bool_iff. Qed.

Lemma gtb_gt (x y : Q) : JS.gtb x y = true <-> y < x.
Proof. apply ltb_lt. Qed.

Lemma gtb_le (x y : Q) : JS.gtb x y = false <-> x <= y.
Proof. apply ltb_ge. Qed.

Lemma truthy_Some (v : Q) : JS.truthy (Some v) = true <-> ~ v == 0.
Proof.
  simpl. rewrite negb_true_iff, <- not_true_iff_false, Qeq_bool_iff. tauto.
Qed.

Lemma truthy_zero (v : Q) : JS.truthy (Some v) = false <-> v == 0.
Proof. simpl. rewrite negb_false_iff. apply Qeq_bool_iff. Qed.

(** Case analysis on a comparison, leaving the order fact in the context. *)
Lemma ltb_cases (x y : Q) :
  (JS.ltb x y = true /\ x < y) \/ (JS.ltb x y = false /\ y <= x).
Proof.
  destruct (JS.ltb x y) eqn:E; [left | right]; split; trivial.
  - now apply ltb_lt.
  - now apply ltb_ge.
Qed.

Lemma max_cases (x y : Q) :
  (x <= y /\ Qmax x y == y) \/ (y <= x /\ Qmax x y == x).
Proof. apply Q.max_spec_le. Qed.

Lemma min_cases (x y : Q) :
  (x <= y /\ Qmin x y == x) \/ (y <= x /\ Qmin x y == y).
Proof. apply Q.min_spec_le. Qed.

End JSFacts.

(** ** Rounding to binary64 *)

Module JSFloat.

Lemma pow2_pos (e : Z) : 0 < JS.pow2 e.
Proof. apply Qpower_0_lt. reflexivity. Qed.

Lemma pow2_plus (a b : Z) : JS.pow2 (a + b) == JS.pow2 a * JS.pow2 b.
Proof. apply Qpower_plus. discriminate. Qed.

Lemma pow2_le (a b : Z) : (a <= b)%Z -> JS.pow2 a <= JS.pow2 b.
Proof. intros H. apply Qpower_le_compat_l; [exact H | discriminate]. Qed.

Lemma pow2_lt (a b : Z) : (a < b)%Z -> JS.pow2 a < JS.pow2 b.
Proof. intros H. apply Qpower_lt_compat_l; [exact H | reflexivity]. Qed.

Lemma pow2_lt_inv (a b : Z) : JS.pow2 a < JS.pow2 b -> (a < b)%Z.
Proof. intros H. apply (Qpower_lt_compat_l_inv 2); [exact H | reflexivity]. Qed.

Lemma pow2_Z (e : Z) : (0 <= e)%Z -> JS.pow2 e == inject_Z (2 ^ e).
Proof. intros H. symmetry. now apply Zpower_Qpower. Qed.

Lemma pow2_succ (e : Z) : JS.pow2 (e + 1) == 2 * JS.pow2 e.
Proof. rewrite pow2_plus. change (JS.pow2 1) with 2. ring. Qed.

Lemma pow2_half (e : Z) : JS.pow2 (e - 1) == JS.pow2 e / 2.
Proof.
  replace e with ((e - 1) + 1)%Z at 2 by ring.
  rewrite pow2_succ. field.
Qed.

Lemma floorLog2_spec (x : Q) :
  0 < x ->
  JS.pow2 (JS.floorLog2 x) <= x /\ x < JS.pow2 (JS.floorLog2 x + 1).
Proof.
  intros Hx. unfold JS.floorLog2.
  set (a := Z.log2 (Qnum x)). set (b := Z.log2 (Zpos (Qden x))).
  assert (Hn : (0 < Qnum x)%Z).
  { destruct x as [n d]. unfold Qlt in Hx. simpl in *. lia. }
  destruct (Z.log2_spec (Qnum x) Hn) as [Ha1 Ha2]. fold a in Ha1, Ha2.
  destruct (Z.log2_spec (Zpos (Qden x)) (Pos2Z.is_pos _)) as [Hb1 Hb2].
  fold b in Hb1, Hb2.
  assert (Ha0 : (0 <= a)%Z) by apply Z.log2_nonneg.
  assert (Hb0 : (0 <= b)%Z) by apply Z.log2_nonneg.
  set (N := inject_Z (Qnum x)). set (D := inject_Z (Zpos (Qden x))).
  assert (HxD : x * D == N).
  { unfold N, D. clear. destruct x as [n d]. unfold Qeq. simpl.
    rewrite ?Pos.mul_1_r, ?Z.mul_1_r. reflexivity. }
  assert (HA1 : JS.pow2 a <= N).
  { rewrite pow2_Z by exact Ha0. unfold N. now rewrite <- Zle_Qle. }
  assert (HA2 : N < 2 * JS.pow2 a).
  { rewrite <- pow2_succ, pow2_Z by lia. unfold N. rewrite <- Zlt_Qlt.
    unfold Z.succ in Ha2. exact Ha2. }
  assert (HB1 : JS.pow2 b <= D).
  { rewrite pow2_Z by exact Hb0. unfold D. now rewrite <- Zle_Qle. }
  assert (HB2 : D < 2 * JS.pow2 b).
  { rewrite <- pow2_succ, pow2_Z by lia. unfold D. rewrite <- Zlt_Qlt.
    unfold Z.succ in Hb2. exact Hb2. }
  assert (HP : JS.pow2 (a - b) * JS.pow2 b == JS.pow2 a).
  { rewrite <- pow2_plus. now replace (a - b + b)%Z with a by ring. }
  pose proof (pow2_pos (a - b)) as HPpos.
  pose proof (pow2_pos b) as HBpos.
  set (P := JS.pow2 (a - b)) in *. set (B := JS.pow2 b) in *.
  set (A := JS.pow2 a) in *.
  assert (HD : 0 < D) by lra.
  assert (HPB : P * B <= P * D) by (apply Qmult_le_l; assumption).
  assert (HPD : P * D < 2 * (P * B)).
  { setoid_replace (2 * (P * B)) with (P * (2 * B)) by ring.
    apply Qmult_lt_l; assumption. }
  destruct (Qle_bool P x) eqn:E.
  - apply Qle_bool_iff in E. split; [exact E|].
    rewrite pow2_succ. fold P.
    apply (Qmult_lt_r _ _ D HD). lra.
  - assert (E' : x < P).
    { apply Qnot_le_lt. intros H. apply Qle_bool_iff in H. congruence. }
    split.
    + rewrite pow2_half. fold P.
      apply (Qmult_le_r _ _ D HD).
      setoid_replace (P / 2 * D) with ((1#2) * (P * D)) by field. lra.
    + replace (a - b - 1 + 1)%Z with (a - b)%Z by ring. exact E'.
Qed.

Lemma floorLog2_unique (x : Q) (e : Z) :
  0 < x -> JS.pow2 e <= x -> x < JS.pow2 (e + 1) -> JS.floorLog2 x = e.
Proof.
  intros Hx H1 H2. destruct (floorLog2_spec x Hx) as [F1 F2].
  assert (JS.pow2 (JS.floorLog2 x) < JS.pow2 (e + 1)) by lra.
  assert (JS.pow2 e < JS.pow2 (JS.floorLog2 x + 1)) by lra.
  apply pow2_lt_inv in H, H0. lia.
Qed.

Lemma floorLog2_comp (x y : Q) :
  0 < x -> x == y -> JS.floorLog2 x = JS.floorLog2 y.
Proof.
  intros Hx E. symmetry.
  destruct (floorLog2_spec x Hx) as [F1 F2].
  apply floorLog2_unique; rewrite <- ?E; assumption.
Qed.


Lemma floorLog2_lt (x : Q) (e : Z) :
  0 < x -> x < JS.pow2 e -> (JS.floorLog2 x < e)%Z.
Proof.
  intros Hx H. destruct (floorLog2_spec x Hx) as [F1 _].
  apply pow2_lt_inv. lra.
Qed.

Lemma ulpExp_comp (x y : Q) : 0 < x -> x == y -> JS.ulpExp x = JS.ulpExp y.
Proof. intros Hx E. unfold JS.ulpExp. now rewrite (floorLog2_comp x y). Qed.


Lemma ulpExp_le (x : Q) (e : Z) :
  0 < x -> x < JS.pow2 (e + 1) -> (JS.minExp + 52 <= e)%Z ->
  (JS.ulpExp x <= e - 52)%Z.
Proof.
  intros Hx H He. unfold JS.ulpExp.
  pose proof (floorLog2_lt x (e + 1) Hx H). lia.
Qed.

(** Rounding to the nearest integer, ties to even. *)

Lemma nearestEven_error (y : Q) :
  y - (1#2) <= inject_Z (JS.nearestEven y) /\
  inject_Z (JS.nearestEven y) <= y + (1#2).
Proof.
  unfold JS.nearestEven.
  pose proof (Qfloor_le y) as H1. pose proof (Qlt_floor y) as H2.
  rewrite inject_Z_plus in H2. change (inject_Z 1) with 1 in H2.
  destruct (Qcompare_spec (y - inject_Z (Qfloor y)) (1#2)) as [E|E|E].
  - destruct (Z.even (Qfloor y)); rewrite ?inject_Z_plus;
      change (inject_Z 1) with 1; split; lra.
  - split; lra.
  - rewrite inject_Z_plus. change (inject_Z 1) with 1. split; lra.
Qed.

Lemma nearestEven_comp (x y : Q) :
  x == y -> JS.nearestEven x = JS.nearestEven y.
Proof.
  intros E. unfold JS.nearestEven.
  rewrite (Qfloor_comp x y E).
  now rewrite (Qcompare_comp (x - inject_Z (Qfloor y)) (y - inject_Z (Qfloor y))
                 (ltac:(rewrite E; reflexivity)) (1#2) (1#2) (Qeq_refl _)).
Qed.





(** Rounding of a positive number. *)

Lemma scaled (a : Q) (u : Z) : a / JS.pow2 u * JS.pow2 u == a.
Proof. pose proof (pow2_pos u). field. lra. Qed.

Lemma roundPos_error (a : Q) :
  0 < a ->
  a - JS.pow2 (JS.ulpExp a - 1) <= JS.roundPos a /\
  JS.roundPos a <= a + JS.pow2 (JS.ulpExp a - 1).
Proof.
  intros Ha. unfold JS.roundPos. rewrite pow2_half.
  set (u := JS.ulpExp a). pose proof (pow2_pos u) as Hu.
  pose proof (scaled a u) as Hs.
  destruct (nearestEven_error (a / JS.pow2 u)) as [H1 H2].
  set (m := inject_Z (JS.nearestEven (a / JS.pow2 u))) in *.
  set (y := a / JS.pow2 u) in *. set (P := JS.pow2 u) in *.
  split.
  - assert ((y - (1#2)) * P <= m * P) by (apply Qmult_le_compat_r; lra).
    assert (P / 2 == (1#2) * P) by field. lra.
  - assert (m * P <= (y + (1#2)) * P) by (apply Qmult_le_compat_r; lra).
    assert (P / 2 == (1#2) * P) by field. lra.
Qed.

Lemma roundPos_comp (a b : Q) :
  0 < a -> a == b -> JS.roundPos a == JS.roundPos b.
Proof.
  intros Ha E. unfold JS.roundPos.
  rewrite <- (ulpExp_comp a b Ha E).
  assert (H : a / JS.pow2 (JS.ulpExp a) == b / JS.pow2 (JS.ulpExp a))
    by (apply Qmult_comp; [exact E | reflexivity]).
  rewrite (nearestEven_comp _ _ H). reflexivity.
Qed.








(** Rounding to binary64. *)

Lemma round64_pos (x : Q) : 0 < x -> JS.round64 x = JS.roundPos x.
Proof.
  intros H. unfold JS.round64.
  destruct (Qcompare_spec x 0) as [E|E|E]; try reflexivity; exfalso; lra.
Qed.

Lemma round64_neg (x : Q) : x < 0 -> JS.round64 x = - JS.roundPos (- x).
Proof.
  intros H. unfold JS.round64.
  destruct (Qcompare_spec x 0) as [E|E|E]; try reflexivity; exfalso; lra.
Qed.

Lemma round64_zero (x : Q) : x == 0 -> JS.round64 x = 0.
Proof.
  intros H. unfold JS.round64.
  destruct (Qcompare_spec x 0) as [E|E|E]; try reflexivity; exfalso; lra.
Qed.

Lemma round64_comp (x y : Q) : x == y -> JS.round64 x == JS.round64 y.
Proof.
  intros E. destruct (Qlt_le_dec 0 x) as [Hx|Hx].
  - rewrite (round64_pos x Hx), (round64_pos y) by lra.
    now apply roundPos_comp.
  - destruct (Qlt_le_dec x 0) as [Hx'|Hx'].
    + rewrite (round64_neg x Hx'), (round64_neg y) by lra.
      apply Qopp_comp. apply roundPos_comp; [lra | now rewrite E].
    + rewrite (round64_zero x), (round64_zero y) by lra. reflexivity.
Qed.




(** The rounding error of a number below [2^(e+1)] in magnitude is at most
    half a unit in the last place, [2^(e-53)]. *)
Lemma round64_error (x : Q) (e : Z) :
  (JS.minExp + 52 <= e)%Z -> Qabs x < JS.pow2 (e + 1) ->
  Qabs (JS.round64 x - x) <= JS.pow2 (e - 53).
Proof.
  intros He Hx.
  assert (Hpos : forall a, 0 < a -> a < JS.pow2 (e + 1) ->
            a - JS.pow2 (e - 53) <= JS.roundPos a /\
            JS.roundPos a <= a + JS.pow2 (e - 53)).
  { intros a Ha Hlt. destruct (roundPos_error a Ha) as [H1 H2].
    pose proof (ulpExp_le a e Ha Hlt He) as Hu.
    assert (Hp : JS.pow2 (JS.ulpExp a - 1) <= JS.pow2 (e - 53))
      by (apply pow2_le; lia).
    split; lra. }
  destruct (Qlt_le_dec 0 x) as [H0|H0].
  - rewrite Qabs_pos in Hx by lra. rewrite round64_pos by exact H0.
    destruct (Hpos x H0 Hx). apply Qabs_Qle_condition. split; lra.
  - destruct (Qlt_le_dec x 0) as [H1|H1].
    + rewrite Qabs_neg in Hx by lra. rewrite round64_neg by exact H1.
      destruct (Hpos (- x)) as [A B]; [lra | exact Hx |].
      apply Qabs_Qle_condition. split; lra.
    + rewrite round64_zero by lra.
      pose proof (pow2_pos (e - 53)).
      apply Qabs_Qle_condition. split; lra.
Qed.

(** The rounding on sample values: the literals 0.1 and 0.01, a negative
    number, ties at the 53-bit boundary and at the unit, which go to the even
    significand, and the subnormal range. *)
Lemma round64_samples :
  JS.round64 (1#10) == 3602879701896397 # 36028797018963968 /\
  JS.round64 (1#100) == 5764607523034235 # 576460752303423488 /\
  JS.round64 (- (1#3)) == - (6004799503160661 # 18014398509481984) /\
  JS.round64 (inject_Z (2 ^ 53 + 1)) == inject_Z (2 ^ 53) /\
  JS.round64 (inject_Z (2 ^ 53 + 3)) == inject_Z (2 ^ 53 + 4) /\
  JS.round64 (1 + JS.pow2 (-53)) == 1 /\
  JS.round64 (1 + 3 * JS.pow2 (-53)) == 1 + JS.pow2 (-51) /\
  JS.round64 (JS.pow2 (-1075)) == 0 /\
  JS.round64 (3 * JS.pow2 (-1075)) == JS.pow2 (-1073) /\
  JS.add (JS.round64 (1#10)) (JS.round64 (2#10))
    == 1351079888211149 # 4503599627370496.
Proof. repeat split; vm_compute; reflexivity. Qed.

End JSFloat.

Ltac case_ltb x y :=
  let E := fresh "E" in
  let H := fresh "H" in
  destruct (JSFacts.ltb_cases x y) as [[E H] | [E H]]; rewrite ?E in *.

Module JSMapFacts.
Section Table.
Context {V : Type}.
Implicit Types (m : JSMap.t V) (k : Z) (v : V).

Lemma get_set_same k v m : JSMap.get k (JSMap.set k v m) = Some v.
Proof.
  induction m as [|[k' v'] r IH]; simpl.
  - now rewrite Z.eqb_refl.
  - destruct (Z.eqb k k') eqn:E; simpl; rewrite ?Z.eqb_refl, ?E; auto.
Qed.

Lemma get_set_other k k' v m :
  k <> k' -> JSMap.get k' (JSMap.set k v m) = JSMap.get k' m.
Proof.
  intros Hne. induction m as [|[k0 v0] r IH]; simpl.
  - destruct (Z.eqb_spec k' k); congruence.
  - destruct (Z.eqb_spec k k0) as [->|Hk]; simpl.
    + destruct (Z.eqb_spec k' k0); congruence.
    + destruct (Z.eqb_spec k' k0); auto.
Qed.

Lemma get_delete_same k m : JSMap.get k (JSMap.delete k m) = None.
Proof.
  induction m as [|[k' v'] r IH]; simpl; auto.
  destruct (Z.eqb k k') eqn:E; simpl; rewrite ?E; auto.
Qed.

Lemma get_delete_other k k' m :
  k <> k' -> JSMap.get k' (JSMap.delete k m) = JSMap.get k' m.
Proof.
  intros Hne. induction m as [|[k0 v0] r IH]; simpl; auto.
  destruct (Z.eqb_spec k k0) as [->|Hk]; simpl.
  - destruct (Z.eqb_spec k' k0); congruence.
  - destruct (Z.eqb_spec k' k0); auto.
Qed.

Lemma delete_filter k m :
  JSMap.delete k m = filter (fun e => negb (Z.eqb k (fst e))) m.
Proof.
  induction m as [|[k' v'] r IH]; simpl; auto.
  destruct (Z.eqb k k'); simpl; now rewrite IH.
Qed.

Lemma set_set k v1 v2 m :
  JSMap.set k v2 (JSMap.set k v1 m) = JSMap.set k v2 m.
Proof.
  induction m as [|[k' v'] r IH]; simpl.
  - now rewrite Z.eqb_refl.
  - destruct (Z.eqb k k') eqn:E; simpl; rewrite ?Z.eqb_refl, ?E; congruence.
Qed.

Lemma delete_absent k m : JSMap.get k m = None -> JSMap.delete k m = m.
Proof.
  induction m as [|[k' v'] r IH]; simpl; auto.
  destruct (Z.eqb k k'); [discriminate | intros H; now rewrite IH].
Qed.

Lemma delete_set k v m : JSMap.delete k (JSMap.set k v m) = JSMap.delete k m.
Proof.
  induction m as [|[k' v'] r IH]; simpl.
  - now rewrite Z.eqb_refl.
  - destruct (Z.eqb k k') eqn:E; simpl; rewrite ?Z.eqb_refl, ?E; congruence.
Qed.

Lemma get_In k v m : JSMap.get k m = Some v -> In (k, v) m.
Proof.
  induction m as [|[k' v'] r IH]; simpl; [discriminate|].
  destruct (Z.eqb_spec k k') as [->|Hk].
  - intros [= ->]. now left.
  - intros H. right. auto.
Qed.

Lemma In_get k v m : JSMap.wf m -> In (k, v) m -> JSMap.get k m = Some v.
Proof.
  unfold JSMap.wf, JSMap.keys.
  induction m as [|[k' v'] r IH]; simpl; [tauto|].
  intros Hnd [Heq | Hin]; inversion Hnd as [|? ? Hnotin Hnd']; subst.
  - injection Heq as -> ->. now rewrite Z.eqb_refl.
  - destruct (Z.eqb_spec k k') as [->|Hk]; auto.
    exfalso. apply Hnotin. now apply (in_map fst) in Hin.
Qed.

Lemma keys_set k v m :
  JSMap.keys (JSMap.set k v m) =
  if existsb (Z.eqb k) (JSMap.keys m) then JSMap.keys m
  else JSMap.keys m ++ [k].
Proof.
  unfold JSMap.keys. induction m as [|[k' v'] r IH]; simpl; auto.
  destruct (Z.eqb_spec k k') as [->|Hk]; simpl; auto.
  rewrite IH. now destruct (existsb (Z.eqb k) (map fst r)).
Qed.

Lemma wf_set k v m : JSMap.wf m -> JSMap.wf (JSMap.set k v m).
Proof.
  unfold JSMap.wf. rewrite keys_set.
  destruct (existsb (Z.eqb k) (JSMap.keys m)) eqn:E; auto.
  intros Hnd. apply NoDup_rev in Hnd. rewrite <- (rev_involutive (_ ++ _)).
  apply NoDup_rev. rewrite rev_app_distr. simpl. constructor; auto.
  rewrite <- in_rev. intros Hin.
  assert (existsb (Z.eqb k) (JSMap.keys m) = true) as E'
    by (apply existsb_exists; exists k; split; auto using Z.eqb_refl).
  congruence.
Qed.

Lemma wf_filter (f : Z * V -> bool) m : JSMap.wf m -> JSMap.wf (filter f m).
Proof.
  unfold JSMap.wf, JSMap.keys.
  induction m as [|e r IH]; simpl; auto.
  intros Hnd. inversion Hnd as [|? ? Hnotin Hnd']; subst.
  destruct (f e); simpl; auto. constructor; auto.
  intros Hin. apply Hnotin. apply in_map_iff in Hin as [x [Hx Hin]].
  apply filter_In in Hin as [Hin _]. rewrite <- Hx. now apply in_map.
Qed.

Lemma wf_delete k m : JSMap.wf m -> JSMap.wf (JSMap.delete k m).
Proof. rewrite delete_filter. apply wf_filter. Qed.

Lemma wf_nil : JSMap.wf (@nil (Z * V)).
Proof. constructor. Qed.

End Table.
End JSMapFacts.

(** * The envelope *)

Lemma envGain_held (p : GranularParams) (data : NoteState) (now : Q) :
  isReleased data = false ->
  envGain p data now =
    let t := safeTime data now in
    if JS.ltb t (attack p) then t / Qmax epsilon (attack p)
    else if JS.ltb t (attack p + decay p)
         then 1 - (1 - sustain p) * ((t - attack p) / Qmax epsilon (decay p))
         else sustain p.
Proof. intros H. unfold envGain. now rewrite H. Qed.

Lemma envGain_released (p : GranularParams) (data : NoteState) (now rt : Q) :
  isReleased data = true -> releaseTime data = Some rt -> ~ rt == 0 ->
  envGain p data now =
    if JS.ltb (now - rt) (release p)
    then sustain p * (1 - (now - rt) / Qmax epsilon (release p))
    else 0.
Proof.
  intros H Hrt Hnz. unfold envGain. rewrite H, Hrt. simpl negb. cbv iota.
  apply JSFacts.truthy_Some in Hnz. now rewrite Hnz.
Qed.

Lemma envGain_released_falsy (p : GranularParams) (data : NoteState) (now : Q) :
  isReleased data = true -> JS.truthy (releaseTime data) = false ->
  envGain p data now = 0.
Proof.
  intros H Hf. unfold envGain. rewrite H. simpl negb. cbv iota.
  destruct (releaseTime data) as [rt|]; trivial. now rewrite Hf.
Qed.

(** Away from a release time of exactly 0 the source computes the piecewise
    function of the specification. *)
Lemma envGain_matches_spec (p : GranularParams) (data : NoteState) (now : Q) :
  (isReleased data = true ->
   forall rt, releaseTime data = Some rt -> ~ rt == 0) ->
  envGain p data now == spec_envelopeGain p data now.
Proof.
  intros Hrt. unfold spec_envelopeGain.
  destruct (isReleased data) eqn:Hrel.
  - destruct (releaseTime data) as [rt|] eqn:Hr.
    + rewrite (envGain_released p data now rt); auto.
      case_ltb (now - rt) (release p);
        destruct (Qlt_le_dec (now - rt) (release p)); try lra; reflexivity.
    + rewrite envGain_released_falsy; auto; try reflexivity.
      now rewrite Hr.
  - rewrite envGain_held by assumption. unfold safeTime. cbv zeta.
    set (t := Qmax 0 (now - startTime data)).
    case_ltb t (attack p); destruct (Qlt_le_dec t (attack p)); try lra;
      try reflexivity.
    case_ltb t (attack p + decay p);
      destruct (Qlt_le_dec t (attack p + decay p)); try lra; try reflexivity.
    unfold Qdiv. ring.
Qed.

(** C1 (divergence): for a note whose [releaseTime] is the clock reading 0
    the test [data.releaseTime] is falsy, so the release branch is skipped
    and the gain is 0, where the piecewise function of the specification
    fades from the sustain level: 0.8 * (1 - 0.1 / 0.5) = 0.64. *)
Theorem envGain_release_time_zero :
  envGain defaultParams noteReleasedAtZero (1#10) == 0 /\
  spec_envelopeGain defaultParams noteReleasedAtZero (1#10) == 16#25 /\
  ~ envGain defaultParams noteReleasedAtZero (1#10)
    == spec_envelopeGain defaultParams noteReleasedAtZero (1#10).
Proof.
  repeat split; try reflexivity. vm_compute. discriminate.
Qed.

(** ** Shape of the envelope *)







Section EnvelopeShape.

Variable p : GranularParams.
Hypothesis sustain_range : 0 <= sustain p /\ sustain p <= 1.
Hypothesis attack_nonneg : 0 <= attack p.
Hypothesis decay_nonneg : 0 <= decay p.
Hypothesis release_nonneg : 0 <= release p.







End EnvelopeShape.

Section EnvelopeContinuity.

Variable p : GranularParams.
Hypothesis sustain_range : 0 <= sustain p /\ sustain p <= 1.
Hypothesis attack_floor : epsilon <= attack p.
Hypothesis decay_floor : epsilon <= decay p.
Hypothesis release_floor : epsilon <= release p.









End EnvelopeContinuity.







(** * Grain placement *)

Lemma randomUnit_range (u : Q) :
  0 <= u -> u <= 1 -> -1 <= randomUnit u /\ randomUnit u <= 1.
Proof. unfold randomUnit. intros; split; lra. Qed.

Lemma wrap_single (x : Q) :
  wrap x = if Qlt_le_dec x 0 then x + 1
           else if Qlt_le_dec 1 x then x - 1 else x.
Proof.
  unfold wrap, JS.gtb.
  case_ltb x 0; destruct (Qlt_le_dec x 0); try lra.
  - case_ltb 1 (x + 1); [lra | reflexivity].
  - case_ltb 1 x; destruct (Qlt_le_dec 1 x); try lra; reflexivity.
Qed.

Lemma safeStartPct_range (p : GranularParams) (clip : Q * Q) (u : Q) :
  0 <= safeStartPct p clip u /\ safeStartPct p clip u <= 1.
Proof.
  unfold safeStartPct.
  set (a := absolutePosPct p clip u).
  destruct (JSFacts.min_cases 1 a) as [[H1 E1]|[H1 E1]];
  destruct (JSFacts.max_cases 0 (Qmin 1 a)) as [[H2 E2]|[H2 E2]];
  rewrite E2; split; lra.
Qed.

(** * The scheduling slot *)

Section SlotFacts.

Variable pow : Q -> Q -> Q.
Variable p : GranularParams.
Variable now : Q.

(** An entry that the sweep removes would have been silent anyway. *)
Lemma expired_silent (data : NoteState) :
  expired p data now = true -> envGain p data now = 0.
Proof.
  unfold expired. intros H.
  apply andb_true_iff in H as [Hrel H].
  destruct (releaseTime data) as [rt|] eqn:Hrt; [|discriminate].
  apply andb_true_iff in H as [Htruthy Hgt].
  apply JSFacts.truthy_Some in Htruthy. apply JSFacts.gtb_gt in Hgt.
  rewrite (envGain_released p data now rt) by assumption.
  case_ltb (now - rt) (release p); [lra | reflexivity].
Qed.

Lemma expired_not_audible (e : Z * NoteState) :
  expired p (snd e) now = true -> audible p now e = false.
Proof.
  intros H. unfold audible. now rewrite (expired_silent _ H).
Qed.

Lemma expired_iff (data : NoteState) :
  expired p data now = true <->
  isReleased data = true /\
  exists rt, releaseTime data = Some rt /\ ~ rt == 0 /\ rt + release p < now.
Proof.
  unfold expired. rewrite andb_true_iff. split.
  - intros [Hrel H]. split; trivial.
    destruct (releaseTime data) as [rt|]; [|discriminate].
    apply andb_true_iff in H as [Ht Hg]. exists rt.
    apply JSFacts.truthy_Some in Ht. apply JSFacts.gtb_gt in Hg. auto.
  - intros [Hrel (rt & Hrt & Hnz & Hlt)]. split; trivial.
    rewrite Hrt. apply andb_true_iff. split.
    + now apply JSFacts.truthy_Some.
    + now apply JSFacts.gtb_gt.
Qed.

Lemma processNote_eq (d : NoteState) (k : Z) (live : JSMap.t NoteState)
    (voices : list Voice) :
  processNote pow p now d k (live, voices) =
  if expired p d now then (JSMap.delete k live, voices)
  else if audible p now (k, d)
       then (live, voices ++ [noteVoice pow p now (k, d)])
       else (live, voices).
Proof. reflexivity. Qed.

Lemma sweptIn_cons (k : Z) (d : NoteState) (l : JSMap.t NoteState)
    (e : Z * NoteState) :
  sweptIn p now ((k, d) :: l) e =
  (Z.eqb k (fst e) && expired p d now) || sweptIn p now l e.
Proof. reflexivity. Qed.

Lemma forEach_processNote (l live : JSMap.t NoteState) (voices : list Voice) :
  fold_left (fun acc e => processNote pow p now (snd e) (fst e) acc) l
            (live, voices) =
  (filter (fun e => negb (sweptIn p now l e)) live,
   voices ++ map (noteVoice pow p now) (filter (audible p now) l)).
Proof.
  revert live voices. induction l as [|[k d] l IH]; intros live voices.
  - simpl. rewrite app_nil_r. f_equal.
    induction live as [|e r IHr]; simpl; congruence.
  - cbn [fold_left fst snd]. rewrite processNote_eq.
    rewrite (filter_ext _ _
               (fun e => f_equal negb (sweptIn_cons k d l e))).
    cbn [filter].
    destruct (expired p d now) eqn:Hexp.
    + rewrite IH. f_equal.
      * rewrite JSMapFacts.delete_filter.
        induction live as [|e r IHr]; simpl; trivial.
        rewrite andb_true_r.
        destruct (Z.eqb k (fst e)); simpl; rewrite IHr; reflexivity.
      * rewrite (expired_not_audible (k, d)) by exact Hexp. reflexivity.
    + assert (Hsw : forall e : Z * NoteState,
                 negb (Z.eqb k (fst e) && false || sweptIn p now l e)
                 = negb (sweptIn p now l e))
        by (intros e; now rewrite andb_false_r).
      rewrite (filter_ext _ _ Hsw).
      destruct (audible p now (k, d)); rewrite IH.
      * cbn [map]. rewrite <- app_assoc. reflexivity.
      * reflexivity.
Qed.

Lemma sweptIn_self (notes : JSMap.t NoteState) (e : Z * NoteState) :
  JSMap.wf notes -> In e notes ->
  sweptIn p now notes e = expired p (snd e) now.
Proof.
  intros Hwf Hin. unfold sweptIn.
  destruct (expired p (snd e) now) eqn:Hexp.
  - apply existsb_exists. exists e. now rewrite Z.eqb_refl, Hexp.
  - apply not_true_iff_false. intros H.
    apply existsb_exists in H as (e' & Hin' & H).
    apply andb_true_iff in H as [Hk Hexp']. apply Z.eqb_eq in Hk.
    destruct e as [k d], e' as [k' d']. simpl in *. subst k'.
    pose proof (JSMapFacts.In_get k d notes Hwf Hin) as G1.
    pose proof (JSMapFacts.In_get k d' notes Hwf Hin') as G2.
    congruence.
Qed.

(** The slot leaves in the registry exactly the entries that are not
    expired, and pushes one voice per audible entry after the drone. *)
Lemma collectVoices_eq (playing : bool) (notes : JSMap.t NoteState) :
  JSMap.wf notes ->
  collectVoices pow playing p now notes =
  (filter (fun e => negb (expired p (snd e) now)) notes,
   droneVoice playing p ++
   map (noteVoice pow p now) (filter (audible p now) notes)).
Proof.
  intros Hwf. unfold collectVoices, JSMap.forEach.
  rewrite forEach_processNote. f_equal.
  apply filter_ext_in. intros e Hin. now rewrite sweptIn_self.
Qed.

Lemma collectVoices_voices (playing : bool) (notes : JSMap.t NoteState) :
  snd (collectVoices pow playing p now notes) =
  droneVoice playing p ++
  map (noteVoice pow p now) (filter (audible p now) notes).
Proof.
  unfold collectVoices, JSMap.forEach. now rewrite forEach_processNote.
Qed.

Lemma collectVoices_registry_sub (playing : bool) (notes : JSMap.t NoteState) :
  exists f, fst (collectVoices pow playing p now notes) = filter f notes.
Proof.
  unfold collectVoices, JSMap.forEach. rewrite forEach_processNote.
  now eexists.
Qed.

Lemma get_filter_keep (f : Z * NoteState -> bool) (notes : JSMap.t NoteState)
    (note : Z) (data : NoteState) :
  JSMap.wf notes -> JSMap.get note notes = Some data ->
  JSMap.get note (filter f notes) = if f (note, data) then Some data else None.
Proof.
  intros Hwf Hget.
  destruct (f (note, data)) eqn:Hf.
  - apply JSMapFacts.In_get; [now apply JSMapFacts.wf_filter|].
    apply filter_In. split; trivial. now apply JSMapFacts.get_In.
  - destruct (JSMap.get note (filter f notes)) as [d'|] eqn:G; trivial.
    apply JSMapFacts.get_In, filter_In in G as [Hin Hf'].
    apply (JSMapFacts.In_get _ _ _ Hwf) in Hin. congruence.
Qed.

End SlotFacts.



(** The sweep of a slot as a whole: a note leaves the registry exactly when
    the test of the callback holds, which requires a non-zero release time. *)
Lemma sweep_removes_iff (pow : Q -> Q -> Q) (playing : bool)
    (p : GranularParams) (now : Q) (notes : JSMap.t NoteState)
    (note : Z) (data : NoteState) :
  JSMap.wf notes -> JSMap.get note notes = Some data ->
  (JSMap.get note (fst (collectVoices pow playing p now notes)) = None <->
   isReleased data = true /\
   exists rt, releaseTime data = Some rt /\ ~ rt == 0 /\ rt + release p < now).
Proof.
  intros Hwf Hget. rewrite <- expired_iff.
  rewrite collectVoices_eq by assumption. simpl fst.
  rewrite (get_filter_keep _ notes note data Hwf Hget). simpl.
  destruct (expired p data now); simpl; split; congruence.
Qed.

(** C5 (divergence): a note released at clock reading 0 is released, has its
    release time set, and at [now = 1] its release of 0.5s has elapsed; the
    slot neither removes it nor lets it sound. *)
Theorem sweep_misses_release_time_zero (pow : Q -> Q -> Q) :
  isReleased noteReleasedAtZero = true /\
  releaseTime noteReleasedAtZero = Some 0 /\
  0 + release defaultParams < 1 /\
  collectVoices pow false defaultParams 1 registryReleasedAtZero
    = (registryReleasedAtZero, []) /\
  (forall now,
     collectVoices pow false defaultParams now registryReleasedAtZero
       = (registryReleasedAtZero, [])).
Proof.
  split; [reflexivity|]. split; [reflexivity|]. split; [reflexivity|].
  split; [reflexivity|]. intros now. reflexivity.
Qed.

(** * The lookahead loop *)

Lemma inject_nat_S (n : nat) :
  inject_Z (Z.of_nat (S n)) == inject_Z (Z.of_nat n) + 1.
Proof.
  rewrite Nat2Z.inj_succ. unfold Z.succ. rewrite inject_Z_plus. reflexivity.
Qed.

Lemma inject_nat_nonneg (n : nat) : 0 <= inject_Z (Z.of_nat n).
Proof. change 0 with (inject_Z 0). rewrite <- Zle_Qle. lia. Qed.

Lemma minSpacing_bounds :
  (499#100000) <= minSpacing /\ minSpacing <= (501#100000).
Proof. split; vm_compute; discriminate. Qed.

Lemma lookahead_bounds : (1#10) <= lookahead /\ lookahead <= (11#100).
Proof. split; vm_compute; discriminate. Qed.

Lemma roundingSlack_bounds :
  0 < roundingSlack /\ roundingSlack <= (1#1000000).
Proof. split; vm_compute; [reflexivity | discriminate]. Qed.

Lemma clockBound_value : clockBound == 1073741824.
Proof. reflexivity. Qed.

Lemma grainInterval_pos (p : GranularParams) :
  minSpacing <= grainInterval p /\ 0 < grainInterval p.
Proof.
  unfold grainInterval. pose proof (Q.le_max_l minSpacing (density p)) as H.
  destruct minSpacing_bounds as [Hm _]. split; lra.
Qed.

Lemma grainInterval_bound (p : GranularParams) :
  density p <= clockBound -> grainInterval p <= clockBound.
Proof.
  intros H. unfold grainInterval. apply Q.max_lub; [|exact H].
  destruct minSpacing_bounds as [_ Hm]. rewrite clockBound_value. lra.
Qed.

(** A binary64 sum below [2^32] in magnitude is within [2^-22] of the exact
    sum. *)
Lemma add_error (x y : Q) :
  Qabs (x + y) < JS.pow2 32 ->
  x + y - roundingSlack <= JS.add x y /\ JS.add x y <= x + y + roundingSlack.
Proof.
  intros H. unfold JS.add, roundingSlack.
  pose proof (JSFloat.round64_error (x + y) 31 ltac:(unfold JS.minExp; lia) H)
    as He.
  change (31 - 53)%Z with (-22)%Z in He.
  apply Qabs_Qle_condition in He. split; lra.
Qed.

Lemma horizon_bounds (currentTime : Q) :
  0 <= currentTime -> currentTime <= clockBound ->
  currentTime + lookahead - roundingSlack <= horizon currentTime /\
  horizon currentTime <= currentTime + lookahead + roundingSlack /\
  horizon currentTime <= clockBound + 1.
Proof.
  intros H0 H1. unfold horizon.
  destruct lookahead_bounds as [L0 L1].
  destruct roundingSlack_bounds as [S0 S1].
  rewrite clockBound_value in *.
  destruct (add_error currentTime lookahead) as [A1 A2].
  { rewrite Qabs_pos by lra.
    assert (E : JS.pow2 32 == 4294967296) by reflexivity. lra. }
  split; [exact A1|]. split; [exact A2|]. lra.
Qed.

(** One advance of a cursor that is still below the horizon. *)
Lemma cursor_advance (t step h : Q) :
  0 <= t -> t < h -> h <= clockBound + 1 ->
  minSpacing <= step -> step <= clockBound ->
  t + step - roundingSlack <= JS.add t step /\
  JS.add t step <= t + step + roundingSlack /\
  t < JS.add t step.
Proof.
  intros H0 Hh Hb Hs Hs'.
  destruct minSpacing_bounds as [M0 _].
  destruct roundingSlack_bounds as [S0 S1].
  rewrite clockBound_value in *.
  destruct (add_error t step) as [A1 A2].
  { rewrite Qabs_pos by lra.
    assert (E : JS.pow2 32 == 4294967296) by reflexivity. lra. }
  split; [exact A1|]. split; [exact A2|]. lra.
Qed.

Lemma cursorAt_shift (c step : Q) (k : nat) :
  cursorAt (JS.add c step) step k = cursorAt c step (S k).
Proof.
  induction k as [|k IH]; [reflexivity|].
  cbn [cursorAt] in *. now rewrite IH.
Qed.

(** While the cursor stays below the horizon every advance adds the interval,
    up to the rounding of the sum. *)
Lemma cursorAt_growth (c step h : Q) (n : nat) :
  0 <= c -> h <= clockBound + 1 -> minSpacing <= step -> step <= clockBound ->
  (forall k, (k < n)%nat -> cursorAt c step k < h) ->
  forall k, (k <= n)%nat ->
    c + inject_Z (Z.of_nat k) * (step - roundingSlack) <= cursorAt c step k /\
    cursorAt c step k <= c + inject_Z (Z.of_nat k) * (step + roundingSlack) /\
    0 <= cursorAt c step k.
Proof.
  intros H0 Hb Hs Hs' Hbelow.
  destruct minSpacing_bounds as [M0 _].
  destruct roundingSlack_bounds as [S0 S1].
  induction k as [|k IH]; intros Hk.
  - simpl. change (inject_Z 0) with 0. split; [lra|]. split; lra.
  - destruct IH as (I1 & I2 & I3); [lia|].
    destruct (cursor_advance (cursorAt c step k) step h I3
                (Hbelow k ltac:(lia)) Hb Hs Hs') as (A1 & A2 & A3).
    cbn [cursorAt]. rewrite inject_nat_S.
    split; [lra|]. split; lra.
Qed.

Lemma slotsDue_enough (c h step : Q) :
  0 < step -> h - c <= inject_Z (Z.of_nat (slotsDue c h step)) * (step / 2).
Proof.
  intros Hs. unfold slotsDue.
  set (x := 2 * (h - c) / step).
  assert (Hx : h - c == x * (step / 2)) by (unfold x; field; lra).
  pose proof (Qle_ceiling x) as Hc.
  assert (Hz : inject_Z (Qceiling x)
               <= inject_Z (Z.of_nat (Z.to_nat (Qceiling x)))).
  { rewrite <- Zle_Qle. lia. }
  rewrite Hx. apply Qmult_le_compat_r; [lra|].
  apply Qlt_le_weak. apply Qlt_shift_div_l; lra.
Qed.

Section LoopFacts.

Variable pow : Q -> Q -> Q.
Variable random : nat -> Q.
Variable p : GranularParams.
Variable clip : Q * Q.
Variable bufferDuration : Q.

Lemma playVoices_times (now : Q) (voices : list Voice) (drawn : nat) (g : Grain) :
  In g (fst (playVoices random p clip bufferDuration now voices drawn)) ->
  scheduledStartTime g = now.
Proof.
  revert drawn. induction voices as [|v r IH]; intros drawn; simpl.
  - tauto.
  - destruct (playVoices random p clip bufferDuration now r (S (S drawn)))
      as [gs d] eqn:E. simpl.
    intros [<- | Hin]; [reflexivity|].
    apply (IH (S (S drawn))). now rewrite E.
Qed.

Lemma playVoices_gains (now : Q) (voices : list Voice) (drawn : nat) :
  map peakGain (fst (playVoices random p clip bufferDuration now voices drawn))
  = map (fun v => volume p * gain v) voices.
Proof.
  revert drawn. induction voices as [|v r IH]; intros drawn; simpl; trivial.
  specialize (IH (S (S drawn))).
  destruct (playVoices random p clip bufferDuration now r (S (S drawn)))
    as [gs d]. simpl in *. now rewrite IH.
Qed.

Lemma slot_fields (st : Engine) :
  let st' := fst (slot pow random p clip bufferDuration st) in
  nextGrainTime st' = JS.add (nextGrainTime st) (grainInterval p) /\
  activeNotes st' =
    fst (collectVoices pow (isPlaying st) p (nextGrainTime st) (activeNotes st)) /\
  isPlaying st' = isPlaying st /\
  params st' = params st /\
  sampleRange st' = sampleRange st /\
  activeNotesUI st' = activeNotesUI st /\
  timerId st' = timerId st /\
  pendingFrames st' = pendingFrames st /\
  nextFrameId st' = nextFrameId st.
Proof.
  unfold slot.
  destruct (collectVoices pow (isPlaying st) p (nextGrainTime st) (activeNotes st))
    as [live voices].
  destruct (playVoices random p clip bufferDuration (nextGrainTime st) voices
              (randomDraws st)) as [grains drawn].
  simpl. repeat split.
Qed.

Lemma slot_grains (st : Engine) :
  snd (slot pow random p clip bufferDuration st) =
  fst (playVoices random p clip bufferDuration (nextGrainTime st)
         (snd (collectVoices pow (isPlaying st) p (nextGrainTime st)
                 (activeNotes st)))
         (randomDraws st)).
Proof.
  unfold slot.
  destruct (collectVoices pow (isPlaying st) p (nextGrainTime st) (activeNotes st))
    as [live voices].
  simpl.
  destruct (playVoices random p clip bufferDuration (nextGrainTime st) voices
              (randomDraws st)) as [grains drawn].
  reflexivity.
Qed.

Lemma slot_grain_times (st : Engine) (g : Grain) :
  In g (snd (slot pow random p clip bufferDuration st)) ->
  scheduledStartTime g = nextGrainTime st.
Proof. rewrite slot_grains. apply playVoices_times. Qed.

(** A slot starts one grain per entry of [notesToPlay], with peak gain
    [volume * gain]. *)
Lemma slot_one_grain_per_voice (st : Engine) :
  map peakGain (snd (slot pow random p clip bufferDuration st)) =
  map (fun v => volume p * gain v)
      (snd (collectVoices pow (isPlaying st) p (nextGrainTime st)
              (activeNotes st))).
Proof. rewrite slot_grains. apply playVoices_gains. Qed.

Lemma scheduleLoop_S (fuel : nat) (currentTime : Q) (st : Engine) :
  scheduleLoop pow random (S fuel) p clip bufferDuration currentTime st =
  if JS.ltb (nextGrainTime st) (horizon currentTime) then
    let r := scheduleLoop pow random fuel p clip bufferDuration currentTime
               (fst (slot pow random p clip bufferDuration st)) in
    (fst r, snd (slot pow random p clip bufferDuration st) :: snd r)
  else (st, []).
Proof.
  simpl. destruct (JS.ltb (nextGrainTime st) (horizon currentTime)); trivial.
  destruct (slot pow random p clip bufferDuration st) as [st1 grains]. simpl.
  now destruct (scheduleLoop pow random fuel p clip bufferDuration currentTime st1).
Qed.

(** The loop runs the slots at the successive cursor values, each below the
    horizon; when it has fuel left it has stopped at the first cursor value
    that is not below the horizon. *)
Lemma scheduleLoop_slots (currentTime : Q) (fuel : nat) (st : Engine) :
  let r := scheduleLoop pow random fuel p clip bufferDuration currentTime st in
  let n := length (snd r) in
  let c := nextGrainTime st in
  (n <= fuel)%nat /\
  nextGrainTime (fst r) = cursorAt c (grainInterval p) n /\
  (forall k, (k < n)%nat ->
     cursorAt c (grainInterval p) k < horizon currentTime) /\
  ((n < fuel)%nat -> horizon currentTime <= cursorAt c (grainInterval p) n) /\
  (forall k batch g, nth_error (snd r) k = Some batch -> In g batch ->
     scheduledStartTime g = cursorAt c (grainInterval p) k).
Proof.
  revert st. induction fuel as [|fuel IH]; intros st.
  - simpl. split; [lia|]. split; [reflexivity|]. split; [intros k Hk; lia|].
    split; [intros Hk; lia|]. intros k batch g Hk. destruct k; discriminate.
  - rewrite scheduleLoop_S.
    case_ltb (nextGrainTime st) (horizon currentTime).
    + destruct (slot_fields st) as (Hc & _).
      set (st1 := fst (slot pow random p clip bufferDuration st)) in *.
      destruct (IH st1) as (I0 & I1 & I2 & I3 & I4).
      cbv zeta. simpl fst. simpl snd. simpl length.
      rewrite Hc, cursorAt_shift in I1, I3.
      split; [lia|]. split; [exact I1|]. split; [|split].
      * intros [|k] Hk; [exact H|].
        rewrite <- cursorAt_shift, <- Hc. apply I2. lia.
      * intros Hn. apply I3. lia.
      * intros [|k] batch g Hk Hin; simpl in Hk.
        -- injection Hk as <-. exact (slot_grain_times st g Hin).
        -- rewrite <- cursorAt_shift, <- Hc. now apply (I4 k batch g).
    + cbv zeta. simpl. split; [lia|]. split; [reflexivity|].
      split; [intros k Hk; lia|]. split; [intros _; exact H|].
      intros k batch g Hk. destruct k; discriminate.
Qed.

(** For clock readings and intervals up to [2^30] seconds, [slotsDue]
    iterations are enough: the loop has left through its test. *)
Lemma scheduleLoop_terminates (currentTime : Q) (st : Engine) :
  0 <= nextGrainTime st -> 0 <= currentTime -> currentTime <= clockBound ->
  density p <= clockBound ->
  let fuel := slotsDue (nextGrainTime st) (horizon currentTime)
                (grainInterval p) in
  let r := scheduleLoop pow random fuel p clip bufferDuration currentTime st in
  horizon currentTime
    <= cursorAt (nextGrainTime st) (grainInterval p) (length (snd r)).
Proof.
  intros Hc0 Ht0 Ht1 Hd. cbv zeta.
  set (fuel := slotsDue _ _ _).
  destruct (scheduleLoop_slots currentTime fuel st) as (H0 & _ & H2 & H3 & _).
  cbv zeta in H0, H2, H3.
  set (n := length (snd (scheduleLoop pow random fuel p clip bufferDuration
                           currentTime st))) in *.
  destruct (Nat.eq_dec n fuel) as [E|N]; [|apply H3; lia].
  destruct (grainInterval_pos p) as [Hmin Hpos].
  destruct (horizon_bounds currentTime Ht0 Ht1) as (_ & _ & Hb).
  destruct (cursorAt_growth (nextGrainTime st) (grainInterval p)
              (horizon currentTime) n Hc0 Hb Hmin (grainInterval_bound p Hd)
              H2 n (Nat.le_refl n)) as (G1 & _ & _).
  pose proof (slotsDue_enough (nextGrainTime st) (horizon currentTime)
                (grainInterval p) Hpos) as Hfuel.
  fold fuel in Hfuel. rewrite <- E in Hfuel.
  pose proof (inject_nat_nonneg n) as Hn.
  destruct minSpacing_bounds as [M0 _].
  destruct roundingSlack_bounds as [S0 S1].
  set (N := inject_Z (Z.of_nat n)) in *.
  set (step := grainInterval p) in *.
  assert (Hhalf : N * (step / 2) <= N * (step - roundingSlack)).
  { rewrite (Qmult_comm N (step / 2)), (Qmult_comm N (step - roundingSlack)).
    apply Qmult_le_compat_r; [|exact Hn].
    assert (step / 2 == (1#2) * step) by field. lra. }
  lra.
Qed.

End LoopFacts.

(** * [scheduleGrains] as a whole *)

Lemma filter_true {A : Type} (l : list A) : filter (fun _ => true) l = l.
Proof. induction l as [|e r IH]; simpl; congruence. Qed.

Lemma filter_filter {A : Type} (f g : A -> bool) (l : list A) :
  filter f (filter g l) = filter (fun e => g e && f e) l.
Proof.
  induction l as [|e r IH]; simpl; trivial.
  destruct (g e); simpl; [destruct (f e)|]; now rewrite IH.
Qed.

Section ScheduleGrainsFacts.

Variable pow : Q -> Q -> Q.
Variable random : nat -> Q.

Lemma scheduleGrains_eq (currentTime bufferDuration : Q) (st : Engine) :
  scheduleGrains pow random (Some currentTime) (Some bufferDuration) true st =
  let r := scheduleLoop pow random
             (slotsDue (nextGrainTime st) (horizon currentTime)
                (grainInterval (params st)))
             (params st) (sampleRange st) bufferDuration currentTime st in
  (set_timerId (Some (nextFrameId (fst r)))
     (snd (requestAnimationFrame (fst r))), snd r).
Proof.
  unfold scheduleGrains.
  now destruct (scheduleLoop pow random _ (params st) (sampleRange st)
                  bufferDuration currentTime st).
Qed.

Lemma scheduleLoop_fields (p : GranularParams) (clip : Q * Q)
    (bufferDuration currentTime : Q) (fuel : nat) (st : Engine) :
  let st' := fst (scheduleLoop pow random fuel p clip bufferDuration
                    currentTime st) in
  isPlaying st' = isPlaying st /\
  timerId st' = timerId st /\
  pendingFrames st' = pendingFrames st /\
  nextFrameId st' = nextFrameId st /\
  activeNotesUI st' = activeNotesUI st.
Proof.
  revert st. induction fuel as [|fuel IH]; intros st.
  - simpl. repeat split.
  - rewrite scheduleLoop_S.
    destruct (JS.ltb (nextGrainTime st) (horizon currentTime)).
    + cbv zeta. simpl fst.
      destruct (slot_fields pow random p clip bufferDuration st)
        as (_ & _ & H1 & _ & _ & H2 & H3 & H4 & H5).
      destruct (IH (fst (slot pow random p clip bufferDuration st)))
        as (I1 & I2 & I3 & I4 & I5).
      repeat split; congruence.
    + simpl. repeat split.
Qed.

(** Registry after the loop: some sub-list of the registry before. *)
Lemma scheduleLoop_registry (p : GranularParams) (clip : Q * Q)
    (bufferDuration currentTime : Q) (fuel : nat) (st : Engine) :
  exists f,
    activeNotes (fst (scheduleLoop pow random fuel p clip bufferDuration
                        currentTime st))
    = filter f (activeNotes st).
Proof.
  revert st. induction fuel as [|fuel IH]; intros st.
  - exists (fun _ => true). simpl. symmetry. apply filter_true.
  - rewrite scheduleLoop_S.
    destruct (JS.ltb (nextGrainTime st) (horizon currentTime)).
    + cbv zeta. simpl fst.
      destruct (IH (fst (slot pow random p clip bufferDuration st))) as [f Hf].
      destruct (slot_fields pow random p clip bufferDuration st)
        as (_ & Hreg & _).
      destruct (collectVoices_registry_sub pow p (nextGrainTime st)
                  (isPlaying st) (activeNotes st)) as [g Hg].
      exists (fun e => g e && f e).
      rewrite Hf, Hreg, Hg. apply filter_filter.
    + exists (fun _ => true). simpl. symmetry. apply filter_true.
Qed.

(** [scheduleGrains] ends by requesting the next frame, whatever the state
    of the drone and of the registry. *)
Lemma scheduleGrains_rearms (currentTime bufferDuration : Q) (st : Engine) :
  let st' := fst (scheduleGrains pow random (Some currentTime)
                    (Some bufferDuration) true st) in
  timerId st' = Some (nextFrameId st) /\
  pendingFrames st' = pendingFrames st ++ [nextFrameId st] /\
  isPlaying st' = isPlaying st /\
  (exists f, activeNotes st' = filter f (activeNotes st)).
Proof.
  rewrite scheduleGrains_eq. cbv zeta. simpl.
  destruct (scheduleLoop_fields (params st) (sampleRange st) bufferDuration
              currentTime
              (slotsDue (nextGrainTime st) (horizon currentTime)
                 (grainInterval (params st))) st)
    as (H1 & H2 & H3 & H4 & H5).
  rewrite H1, H3, H4. repeat split.
  apply scheduleLoop_registry.
Qed.

Lemma animationFrame_keeps_running (currentTime bufferDuration : Q)
    (st : Engine) :
  loopRunning st = true ->
  let st' := fst (animationFrame pow random (Some currentTime)
                    (Some bufferDuration) true st) in
  loopRunning st' = true /\ timerId st' = Some (nextFrameId st) /\
  isPlaying st' = isPlaying st /\
  (exists f, activeNotes st' = filter f (activeNotes st)).
Proof.
  unfold loopRunning, animationFrame.
  destruct (pendingFrames st) as [|id rest] eqn:Hq; [discriminate|].
  intros _.
  destruct (scheduleGrains_rearms currentTime bufferDuration
              (set_pendingFrames rest st)) as (H1 & H2 & H3 & H4).
  cbv zeta. rewrite H2. simpl. repeat split; trivial.
  now destruct rest.
Qed.

(** No number of frames stops a running loop: an idle component keeps a
    frame queued for ever. *)
Lemma idle_frames_keep_running (clocks : list Q) (bufferDuration : Q)
    (st : Engine) :
  loopRunning st = true ->
  let st' := animationFrames pow random clocks bufferDuration st in
  loopRunning st' = true /\ (idle st -> idle st').
Proof.
  revert st. induction clocks as [|c cs IH]; intros st Hrun.
  - simpl. auto.
  - simpl.
    destruct (animationFrame_keeps_running c bufferDuration st Hrun)
      as (H1 & _ & H3 & [f H4]).
    destruct (IH _ H1) as [I1 I2]. split; trivial.
    intros [Hp Hn]. apply I2. split; [congruence|].
    rewrite H4, Hn. reflexivity.
Qed.

End ScheduleGrainsFacts.

(** ** Placement of the grains of a slot *)

(** The offset computed for a draw [u] is the one the specification words,
    and it keeps the grain inside a buffer of non-negative duration. *)
Lemma grainOffset_placement (p : GranularParams) (clip : Q * Q)
    (bufferDuration u : Q) :
  0 <= bufferDuration ->
  grainOffset p clip bufferDuration u =
    spec_offsetSeconds (position p) (spread p) (randomUnit u)
      (fst clip) (snd clip) bufferDuration (grainSize p) /\
  0 <= grainOffset p clip bufferDuration u /\
  (grainSize p <= bufferDuration ->
     grainOffset p clip bufferDuration u + grainSize p <= bufferDuration) /\
  (grainSize p <= bufferDuration ->
     bufferDuration < safeStartPct p clip u * bufferDuration + grainSize p ->
     grainOffset p clip bufferDuration u + grainSize p == bufferDuration).
Proof.
  intros Hdur.
  destruct (safeStartPct_range p clip u) as [Hlo Hhi].
  assert (Hoff : 0 <= safeStartPct p clip u * bufferDuration) by nra.
  split; [|split; [|split]].
  - unfold grainOffset, spec_offsetSeconds, safeStartPct, absolutePosPct,
      relativeGrainPos, randomOffset, randomUnit, JS.gtb. cbv zeta.
    rewrite wrap_single.
    set (off := Qmax 0 _ * bufferDuration).
    case_ltb bufferDuration (off + grainSize p);
      destruct (Qlt_le_dec bufferDuration (off + grainSize p));
      try lra; reflexivity.
  - unfold grainOffset, JS.gtb. cbv zeta.
    case_ltb bufferDuration (safeStartPct p clip u * bufferDuration + grainSize p).
    + apply Q.le_max_l.
    + exact Hoff.
  - intros Hfit. unfold grainOffset, JS.gtb. cbv zeta.
    case_ltb bufferDuration (safeStartPct p clip u * bufferDuration + grainSize p).
    + rewrite Q.max_r by lra. lra.
    + lra.
  - intros Hfit Hover. unfold grainOffset, JS.gtb. cbv zeta.
    case_ltb bufferDuration (safeStartPct p clip u * bufferDuration + grainSize p).
    + rewrite Q.max_r by lra. ring.
    + lra.
Qed.

(** Each grain started by [notesToPlay.forEach] is placed with a draw of its
    own and lasts [grainSize]. *)
Lemma playVoices_offsets (random : nat -> Q) (p : GranularParams)
    (clip : Q * Q) (bufferDuration now : Q) (voices : list Voice)
    (drawn : nat) (g : Grain) :
  In g (fst (playVoices random p clip bufferDuration now voices drawn)) ->
  exists i, (drawn <= i)%nat /\
    offsetSeconds g = grainOffset p clip bufferDuration (random i) /\
    durationSeconds g = grainSize p.
Proof.
  revert drawn. induction voices as [|v r IH]; intros drawn; simpl.
  - tauto.
  - destruct (playVoices random p clip bufferDuration now r (S (S drawn)))
      as [gs d] eqn:E. simpl.
    intros [<- | Hin].
    + exists drawn. split; [lia|]. split; reflexivity.
    + destruct (IH (S (S drawn))) as (i & Hi & H); [now rewrite E|].
      exists i. split; [lia | exact H].
Qed.

Lemma scheduleLoop_grains (pow : Q -> Q -> Q) (random : nat -> Q)
    (p : GranularParams) (clip : Q * Q) (bufferDuration currentTime : Q)
    (P : Grain -> Prop) :
  (forall st g, In g (snd (slot pow random p clip bufferDuration st)) -> P g) ->
  forall fuel st batch g,
    In batch (snd (scheduleLoop pow random fuel p clip bufferDuration
                     currentTime st)) ->
    In g batch -> P g.
Proof.
  intros Hslot. induction fuel as [|fuel IH]; intros st batch g.
  - simpl. tauto.
  - rewrite scheduleLoop_S.
    destruct (JS.ltb (nextGrainTime st) (horizon currentTime)); [|simpl; tauto].
    cbv zeta. simpl snd. intros [<- | Hb] Hg.
    + exact (Hslot st g Hg).
    + exact (IH _ batch g Hb Hg).
Qed.

(** C4: every grain that a slot of the loop starts is placed as the
    specification describes, with a draw [u] of [Math.random()] of its own
    and [r = (u - 0.5) * 2], which lies in [-1, 1]; this holds of the grains
    of a slot and so of every grain [scheduleGrains] starts.  For a buffer of
    non-negative duration the grain starts at an offset >= 0, ends at or
    before the end of the buffer when it is no longer than the buffer, and
    ends exactly there in the over-run case.  With position 0.95, spread 0.1
    and r = 1 the relative position wraps to 0.05 and the grain started has
    the offset 0.05 of the buffer. *)
Theorem grain_placement (pow : Q -> Q -> Q) (random : nat -> Q)
    (bufferDuration : Q) (st : Engine) :
  0 <= bufferDuration ->
  (forall i, 0 <= random i /\ random i <= 1) ->
  let p := params st in
  let clip := sampleRange st in
  let placed (g : Grain) :=
    exists i, let u := random i in
      (-1 <= randomUnit u /\ randomUnit u <= 1) /\
      offsetSeconds g =
        spec_offsetSeconds (position p) (spread p) (randomUnit u)
          (fst clip) (snd clip) bufferDuration (grainSize p) /\
      durationSeconds g = grainSize p /\
      0 <= offsetSeconds g /\
      (grainSize p <= bufferDuration ->
         offsetSeconds g + durationSeconds g <= bufferDuration) /\
      (grainSize p <= bufferDuration ->
         bufferDuration < safeStartPct p clip u * bufferDuration + grainSize p ->
         offsetSeconds g + durationSeconds g == bufferDuration) in
  (forall g, In g (snd (slot pow random p clip bufferDuration st)) ->
     placed g) /\
  (forall clock graph batch g,
     In batch (snd (scheduleGrains pow random clock (Some bufferDuration)
                      graph st)) ->
     In g batch -> placed g) /\
  (randomUnit 1 == 1 /\
   position scenario4Params + randomUnit 1 * spread scenario4Params == 105#100 /\
   relativeGrainPos scenario4Params 1 == 5#100 /\
   map offsetSeconds
     (snd (slot pow maxRandom scenario4Params (0, 1) 10 engineScenario4))
   = [grainOffset scenario4Params (0, 1) 10 1] /\
   grainOffset scenario4Params (0, 1) 10 1 == 1#2).
Proof.
  intros Hdur Hrandom. cbv zeta.
  assert (Hslot : forall st' g,
            In g (snd (slot pow random (params st) (sampleRange st)
                         bufferDuration st')) ->
            exists i,
              (-1 <= randomUnit (random i) /\ randomUnit (random i) <= 1) /\
              offsetSeconds g =
                spec_offsetSeconds (position (params st)) (spread (params st))
                  (randomUnit (random i)) (fst (sampleRange st))
                  (snd (sampleRange st)) bufferDuration
                  (grainSize (params st)) /\
              durationSeconds g = grainSize (params st) /\
              0 <= offsetSeconds g /\
              (grainSize (params st) <= bufferDuration ->
                 offsetSeconds g + durationSeconds g <= bufferDuration) /\
              (grainSize (params st) <= bufferDuration ->
                 bufferDuration
                 < safeStartPct (params st) (sampleRange st) (random i)
                   * bufferDuration + grainSize (params st) ->
                 offsetSeconds g + durationSeconds g == bufferDuration)).
  { intros st' g Hg. rewrite slot_grains in Hg.
    apply playVoices_offsets in Hg as (i & _ & Hoff & Hlen).
    exists i.
    destruct (grainOffset_placement (params st) (sampleRange st)
                bufferDuration (random i) Hdur) as (G1 & G2 & G3 & G4).
    destruct (Hrandom i) as [Hu0 Hu1].
    rewrite Hoff, Hlen.
    split; [unfold randomUnit; split; lra|].
    split; [exact G1|]. split; [reflexivity|]. split; [exact G2|].
    split; [exact G3 | exact G4]. }
  split; [exact (Hslot st)|]. split.
  - intros clock graph batch g Hb Hg.
    destruct clock as [currentTime|], graph; try (simpl in Hb; tauto).
    rewrite scheduleGrains_eq in Hb. cbv zeta in Hb. simpl snd in Hb.
    exact (scheduleLoop_grains pow random (params st) (sampleRange st)
             bufferDuration currentTime _ Hslot _ st batch g Hb Hg).
  - split; [reflexivity|]. split; [reflexivity|]. split; [reflexivity|].
    split; reflexivity.
Qed.

Lemma grain_placement_witness :
  0 <= 10 /\
  (forall i, 0 <= midRandom i /\ midRandom i <= 1) /\
  grainSize (params engineOverrun) <= 10 /\
  10 < safeStartPct (params engineOverrun) (sampleRange engineOverrun) (1#2)
       * 10 + grainSize (params engineOverrun) /\
  (forall g,
     In g (snd (slot constPow midRandom (params engineOverrun)
                  (sampleRange engineOverrun) 10 engineOverrun)) ->
     0 <= offsetSeconds g /\
     offsetSeconds g + durationSeconds g == 10) /\
  length (snd (slot constPow midRandom (params engineOverrun)
                 (sampleRange engineOverrun) 10 engineOverrun)) = 1%nat.
Proof.
  assert (H1 : 0 <= 10) by lra.
  assert (H2 : forall i, 0 <= midRandom i /\ midRandom i <= 1)
    by (intros i; unfold midRandom; split; lra).
  assert (H3 : grainSize (params engineOverrun) <= 10) by (simpl; lra).
  assert (H4 : 10 < safeStartPct (params engineOverrun)
                      (sampleRange engineOverrun) (1#2) * 10
                    + grainSize (params engineOverrun))
    by (vm_compute; reflexivity).
  split; [exact H1|]. split; [exact H2|]. split; [exact H3|].
  split; [exact H4|]. split; [|reflexivity].
  intros g Hg.
  destruct (proj1 (grain_placement constPow midRandom 10 engineOverrun H1 H2)
              g Hg) as (i & _ & _ & _ & G0 & _ & Gover).
  split; [exact G0 | exact (Gover H3 H4)].
Defined.

(** ** Slots of a call *)

(** A call of [scheduleGrains] that reaches the loop, for clock readings and
    intervals up to [2^30] seconds: the loop leaves through its test, having
    run the slots at the successive binary64 cursor values. *)
Lemma scheduleGrains_slots (pow : Q -> Q -> Q) (random : nat -> Q)
    (currentTime bufferDuration : Q) (st : Engine) :
  0 <= nextGrainTime st -> 0 <= currentTime -> currentTime <= clockBound ->
  density (params st) <= clockBound ->
  let c := nextGrainTime st in
  let step := grainInterval (params st) in
  let r := scheduleGrains pow random (Some currentTime) (Some bufferDuration)
             true st in
  let n := length (snd r) in
  nextGrainTime (fst r) = cursorAt c step n /\
  (forall k, (k < n)%nat -> cursorAt c step k < horizon currentTime) /\
  horizon currentTime <= cursorAt c step n /\
  (forall k batch g, nth_error (snd r) k = Some batch -> In g batch ->
     scheduledStartTime g = cursorAt c step k) /\
  (forall k, (k <= n)%nat ->
     c + inject_Z (Z.of_nat k) * (step - roundingSlack) <= cursorAt c step k /\
     cursorAt c step k <= c + inject_Z (Z.of_nat k) * (step + roundingSlack) /\
     0 <= cursorAt c step k).
Proof.
  intros Hc0 Ht0 Ht1 Hd. cbv zeta. rewrite scheduleGrains_eq. cbv zeta.
  simpl snd. simpl fst.
  pose proof (scheduleLoop_terminates pow random (params st) (sampleRange st)
                bufferDuration currentTime st Hc0 Ht0 Ht1 Hd) as Hend.
  cbv zeta in Hend.
  destruct (scheduleLoop_slots pow random (params st) (sampleRange st)
              bufferDuration currentTime
              (slotsDue (nextGrainTime st) (horizon currentTime)
                 (grainInterval (params st))) st) as (_ & H1 & H2 & _ & H4).
  cbv zeta in H1, H2, H4.
  destruct (grainInterval_pos (params st)) as [Hmin _].
  destruct (horizon_bounds currentTime Ht0 Ht1) as (_ & _ & Hb).
  split; [exact H1|]. split; [exact H2|]. split; [exact Hend|].
  split; [exact H4|].
  exact (cursorAt_growth (nextGrainTime st) (grainInterval (params st))
           (horizon currentTime) _ Hc0 Hb Hmin
           (grainInterval_bound (params st) Hd) H2).
Qed.

(** C2 (counterexample): the cursor is a binary64 running sum.  With the
    cursor and the clock at 2 and a density of 0.05, the exact sums 2, 2.05,
    2.1 give two slots below the horizon 2.1; the source runs three: its
    second advance yields 2.0999999999999996, which is below the horizon, so
    a third slot starts there, and the cursor ends at 2.1499999999999995.
    Neither value is the cursor the exact advances give.  And a cursor as
    large as [2^60] is not moved by an advance at all. *)
Lemma lookahead_claim_fails :
  let step := grainInterval (params engineAtTwo) in
  let r := scheduleGrains constPow midRandom (Some 2) (Some 10) true
             engineAtTwo in
  step == JS.round64 (5#100) /\
  ~ slotTime 2 step 2 < 2 + lookahead /\
  length (snd r) = 3%nat /\
  map (map scheduledStartTime) (snd r)
    = [[cursorAt 2 step 0]; [cursorAt 2 step 1]; [cursorAt 2 step 2]] /\
  cursorAt 2 step 2 == 1182194902184755 # 562949953421312 /\
  cursorAt 2 step 2 < horizon 2 /\
  ~ cursorAt 2 step 2 == slotTime 2 step 2 /\
  ~ cursorAt 2 step 2 - cursorAt 2 step 1 == step /\
  nextGrainTime (fst r) == 2420684799711641 # 1125899906842624 /\
  ~ nextGrainTime (fst r) == slotTime 2 step 3 /\
  cursorAt (JS.pow2 60) step 1 == JS.pow2 60.
Proof.
  cbv zeta.
  split; [reflexivity|].
  split; [vm_compute; intros H; discriminate H|].
  split; [vm_compute; reflexivity|].
  split; [vm_compute; reflexivity|].
  split; [vm_compute; reflexivity|].
  split; [vm_compute; reflexivity|].
  split; [vm_compute; intros H; discriminate H|].
  split; [vm_compute; intros H; discriminate H|].
  split; [vm_compute; reflexivity|].
  split; [vm_compute; intros H; discriminate H|].
  vm_compute. reflexivity.
Qed.

(** C2 (amended): a call of [scheduleGrains] that reaches the loop, with a
    cursor that is not negative and a clock reading and a density of at most
    [2^30] seconds, runs a slot at every cursor value below the horizon, the
    binary64 sum [currentTime + 0.1], and stops at the first one that is not;
    every grain of a slot starts at the cursor value of that slot; after each
    slot the cursor is the binary64 sum of the cursor and
    [step = max(0.005, density)], which is within [2^-22] of the exact sum
    and strictly above the cursor before. *)
Theorem lookahead_slots (pow : Q -> Q -> Q) (random : nat -> Q)
    (currentTime bufferDuration : Q) (st : Engine) :
  0 <= nextGrainTime st -> 0 <= currentTime -> currentTime <= clockBound ->
  density (params st) <= clockBound ->
  let c := nextGrainTime st in
  let step := grainInterval (params st) in
  let r := scheduleGrains pow random (Some currentTime) (Some bufferDuration)
             true st in
  let n := length (snd r) in
  step = Qmax minSpacing (density (params st)) /\
  0 < step /\
  horizon currentTime = JS.add currentTime lookahead /\
  (forall k, (k < n)%nat -> cursorAt c step k < horizon currentTime) /\
  horizon currentTime <= cursorAt c step n /\
  nextGrainTime (fst r) = cursorAt c step n /\
  (forall k batch g, nth_error (snd r) k = Some batch -> In g batch ->
     scheduledStartTime g = cursorAt c step k) /\
  (forall k, (k < n)%nat ->
     cursorAt c step (S k) = JS.add (cursorAt c step k) step /\
     cursorAt c step k + step - roundingSlack <= cursorAt c step (S k) /\
     cursorAt c step (S k) <= cursorAt c step k + step + roundingSlack /\
     cursorAt c step k < cursorAt c step (S k)).
Proof.
  intros Hc0 Ht0 Ht1 Hd.
  destruct (scheduleGrains_slots pow random currentTime bufferDuration st
              Hc0 Ht0 Ht1 Hd) as (H1 & H2 & H3 & H4 & H5).
  cbv zeta in *.
  destruct (grainInterval_pos (params st)) as [Hmin Hpos].
  destruct (horizon_bounds currentTime Ht0 Ht1) as (_ & _ & Hb).
  split; [reflexivity|]. split; [exact Hpos|]. split; [reflexivity|].
  split; [exact H2|]. split; [exact H3|]. split; [exact H1|].
  split; [exact H4|].
  intros k Hk. split; [reflexivity|].
  destruct (H5 k (Nat.lt_le_incl _ _ Hk)) as (_ & _ & Hnn).
  exact (cursor_advance _ _ _ Hnn (H2 k Hk) Hb Hmin
           (grainInterval_bound (params st) Hd)).
Qed.

Lemma lookahead_slots_witness :
  0 <= nextGrainTime engineAtTwo /\ 0 <= 2 /\ 2 <= clockBound /\
  density (params engineAtTwo) <= clockBound /\
  lt 2 (length (snd (scheduleGrains constPow midRandom
                       (Some 2) (Some 10) true engineAtTwo))) /\
  cursorAt (nextGrainTime engineAtTwo)
           (grainInterval (params engineAtTwo)) 2 < horizon 2 /\
  cursorAt (nextGrainTime engineAtTwo) (grainInterval (params engineAtTwo)) 2
  < cursorAt (nextGrainTime engineAtTwo)
             (grainInterval (params engineAtTwo)) 3.
Proof.
  assert (H1 : 0 <= nextGrainTime engineAtTwo) by (simpl; lra).
  assert (H2 : 0 <= 2) by lra.
  assert (H3 : 2 <= clockBound) by (vm_compute; discriminate).
  assert (H4 : density (params engineAtTwo) <= clockBound)
    by (vm_compute; discriminate).
  assert (H : lt 2 (length (snd (scheduleGrains constPow midRandom
                       (Some 2) (Some 10) true engineAtTwo))))
    by (vm_compute; lia).
  split; [exact H1|]. split; [exact H2|]. split; [exact H3|].
  split; [exact H4|]. split; [exact H|].
  pose proof (lookahead_slots constPow midRandom 2 10 engineAtTwo
                H1 H2 H3 H4) as (_ & _ & _ & Hk & _ & _ & _ & Hs).
  split; [exact (Hk 2%nat H) | exact (proj2 (proj2 (proj2 (Hs 2%nat H))))].
Defined.

(** C6 (divergence): with the drone disarmed, the frame at clock reading 2
    sweeps the last note of the registry, and [scheduleGrains] still requests
    the next frame; the following frames find nothing to play and request
    yet another one. *)
Theorem idle_loop_keeps_rescheduling (pow : Q -> Q -> Q) (random : nat -> Q) :
  let st1 := fst (animationFrame pow random (Some 2) (Some 10) true
                    engineReleasing) in
  let st3 := animationFrames pow random [21#10; 22#10] 10 st1 in
  (isPlaying st1 = false /\ activeNotes st1 = [] /\
   loopRunning st1 = true /\ timerId st1 = Some 2%positive) /\
  (isPlaying st3 = false /\ activeNotes st3 = [] /\
   loopRunning st3 = true /\ timerId st3 = Some 4%positive).
Proof.
  cbv zeta.
  assert (H1 : activeNotes (fst (animationFrame pow random (Some 2) (Some 10)
                                   true engineReleasing)) = [])
    by (vm_compute; reflexivity).
  destruct (animationFrame_keeps_running pow random 2 10 engineReleasing
              eq_refl) as (R1 & T1 & P1 & _).
  split.
  - repeat split; assumption.
  - vm_compute. repeat split.
Qed.

(** The stop branch of the effect does stop an idle loop, once something makes
    the effect run again. *)
Lemma loopEffect_stops_idle (clock : option Q) (st : Engine) (id : positive) :
  idle st -> timerId st = Some id -> pendingFrames st = [id] ->
  let st' := loopEffect clock (loopEffectCleanup st) in
  loopRunning st' = false /\ timerId st' = None.
Proof.
  intros [Hp Hn] Ht Hq. unfold loopEffectCleanup. rewrite Ht.
  unfold loopEffect, stopIfIdle, hasNotes, cancelAnimationFrame, loopRunning.
  destruct clock; simpl; rewrite Hp, Hn, Ht, Hq; simpl;
    rewrite Pos.eqb_refl; simpl; auto.
Qed.

(** * The note handlers *)

Lemma handleNoteOff_present (t : Q) (note : Z) (data : NoteState)
    (st : Engine) :
  JSMap.get note (activeNotes st) = Some data ->
  activeNotes (handleNoteOff (Some t) note st) =
  JSMap.set note (mkNote (velocity data) (startTime data) (Some t) true)
            (activeNotes st).
Proof. intros H. unfold handleNoteOff. now rewrite H. Qed.

(** The entry a note-off with a clock leaves is the [releasedNote] of the
    entry it found. *)
Lemma handleNoteOff_stores_released (t : Q) (note : Z) (data : NoteState)
    (st : Engine) :
  JSMap.get note (activeNotes st) = Some data ->
  JSMap.get note (activeNotes (handleNoteOff (Some t) note st))
  = Some (releasedNote data t).
Proof.
  intros H. rewrite (handleNoteOff_present t note data st H).
  apply JSMapFacts.get_set_same.
Qed.

Lemma handleNoteOff_no_clock (note : Z) (st : Engine) :
  activeNotes (handleNoteOff None note st) =
  JSMap.delete note (activeNotes st).
Proof.
  unfold handleNoteOff. now destruct (JSMap.get note (activeNotes st)).
Qed.

Lemma handleNoteOff_absent (clock : option Q) (note : Z) (st : Engine) :
  JSMap.get note (activeNotes st) = None ->
  activeNotes (handleNoteOff clock note st) = activeNotes st.
Proof.
  intros H. unfold handleNoteOff. rewrite H. simpl.
  now apply JSMapFacts.delete_absent.
Qed.

Lemma handleNoteOff_ui (clock : option Q) (note : Z) (st : Engine) :
  activeNotesUI (handleNoteOff clock note st) =
  filter (fun n => negb (Z.eqb n note)) (activeNotesUI st).
Proof.
  unfold handleNoteOff.
  destruct (JSMap.get note (activeNotes st)); destruct clock; reflexivity.
Qed.

Lemma filter_idem {A : Type} (f : A -> bool) (l : list A) :
  filter f (filter f l) = filter f l.
Proof.
  rewrite filter_filter. apply filter_ext. intros a. now destruct (f a).
Qed.

Lemma engine_eq (a b : Engine) :
  isPlaying a = isPlaying b -> sampleRange a = sampleRange b ->
  activeNotes a = activeNotes b -> activeNotesUI a = activeNotesUI b ->
  params a = params b -> nextGrainTime a = nextGrainTime b ->
  timerId a = timerId b -> pendingFrames a = pendingFrames b ->
  nextFrameId a = nextFrameId b -> randomDraws a = randomDraws b ->
  a = b.
Proof. destruct a, b; simpl; intros; subst; reflexivity. Qed.

Lemma handleNoteOff_other_fields (clock : option Q) (note : Z) (st : Engine) :
  let st' := handleNoteOff clock note st in
  isPlaying st' = isPlaying st /\ sampleRange st' = sampleRange st /\
  params st' = params st /\ nextGrainTime st' = nextGrainTime st /\
  timerId st' = timerId st /\ pendingFrames st' = pendingFrames st /\
  nextFrameId st' = nextFrameId st /\ randomDraws st' = randomDraws st.
Proof.
  unfold handleNoteOff.
  destruct (JSMap.get note (activeNotes st)); destruct clock; simpl;
    repeat split.
Qed.

(** Two note-offs with a clock: the second one decides. *)
Lemma handleNoteOff_last_wins (t1 t2 : Q) (note : Z) (st : Engine) :
  handleNoteOff (Some t2) note (handleNoteOff (Some t1) note st) =
  handleNoteOff (Some t2) note st.
Proof.
  destruct (handleNoteOff_other_fields (Some t2) note
              (handleNoteOff (Some t1) note st))
    as (A1 & A2 & A3 & A4 & A5 & A6 & A7 & A8).
  destruct (handleNoteOff_other_fields (Some t1) note st)
    as (B1 & B2 & B3 & B4 & B5 & B6 & B7 & B8).
  destruct (handleNoteOff_other_fields (Some t2) note st)
    as (C1 & C2 & C3 & C4 & C5 & C6 & C7 & C8).
  apply engine_eq; try congruence.
  - destruct (JSMap.get note (activeNotes st)) as [data|] eqn:Hget.
    + rewrite (handleNoteOff_present t2 note
                 (mkNote (velocity data) (startTime data) (Some t1) true)).
      * rewrite (handleNoteOff_present t1 note data st Hget).
        rewrite (handleNoteOff_present t2 note data st Hget).
        simpl. apply JSMapFacts.set_set.
      * rewrite (handleNoteOff_present t1 note data st Hget).
        apply JSMapFacts.get_set_same.
    + rewrite !handleNoteOff_absent; trivial.
      rewrite handleNoteOff_absent; trivial.
  - rewrite !handleNoteOff_ui. apply filter_idem.
Qed.

Lemma handleNoteOff_no_clock_idem (note : Z) (st : Engine) :
  handleNoteOff None note (handleNoteOff None note st) =
  handleNoteOff None note st.
Proof.
  destruct (handleNoteOff_other_fields None note (handleNoteOff None note st))
    as (A1 & A2 & A3 & A4 & A5 & A6 & A7 & A8).
  apply engine_eq; try congruence.
  - rewrite !handleNoteOff_no_clock.
    apply JSMapFacts.delete_absent, JSMapFacts.get_delete_same.
  - rewrite !handleNoteOff_ui. apply filter_idem.
Qed.

(** C7 (counterexample): a second note-off at clock reading 2 after a first
    one at clock reading 1 overwrites the release time, so the registry is
    not the one a single call leaves: at [now = 9/4] the note released once
    is silent and due for the sweep, the note released twice still sounds. *)
Lemma noteOff_twice_differs :
  JSMap.get 60 (activeNotes engineWithHeldNote) = Some heldNote /\
  JSMap.get 60 (activeNotes (handleNoteOff (Some 1) 60 engineWithHeldNote))
    = Some (mkNote (8#10) 0 (Some 1) true) /\
  JSMap.get 60 (activeNotes (handleNoteOff (Some 2) 60
                               (handleNoteOff (Some 1) 60 engineWithHeldNote)))
    = Some (mkNote (8#10) 0 (Some 2) true) /\
  ~ 2 == 1 /\
  activeNotes (handleNoteOff (Some 2) 60
                 (handleNoteOff (Some 1) 60 engineWithHeldNote))
    <> activeNotes (handleNoteOff (Some 1) 60 engineWithHeldNote) /\
  envGain defaultParams (mkNote (8#10) 0 (Some 1) true) (9#4) == 0 /\
  envGain defaultParams (mkNote (8#10) 0 (Some 2) true) (9#4) == 4#10.
Proof.
  repeat split; try discriminate.
Qed.

(** C7 (amended): for a note that is in the registry, two note-offs leave
    the registry that one note-off leaves whenever the first call finds no
    audio clock (it deletes the note, and the second call finds nothing to
    change), or both calls read the same clock time; after a first call with
    a clock the registry is the one a single call under the clock state of
    the second call leaves, so a second call at a later clock time
    overwrites the release time with the later time, and a second call
    without a clock deletes the note. *)
Theorem noteOff_twice (st : Engine) (note : Z) (data : NoteState) :
  JSMap.get note (activeNotes st) = Some data ->
  (forall c2,
     activeNotes (handleNoteOff c2 note (handleNoteOff None note st))
     = activeNotes (handleNoteOff None note st)) /\
  (forall c,
     activeNotes (handleNoteOff c note (handleNoteOff c note st))
     = activeNotes (handleNoteOff c note st)) /\
  (forall t1 c2,
     activeNotes (handleNoteOff c2 note (handleNoteOff (Some t1) note st))
     = activeNotes (handleNoteOff c2 note st)) /\
  (forall t1 t2,
     JSMap.get note
       (activeNotes (handleNoteOff (Some t2) note
                       (handleNoteOff (Some t1) note st)))
     = Some (mkNote (velocity data) (startTime data) (Some t2) true)) /\
  (forall t1,
     JSMap.get note
       (activeNotes (handleNoteOff None note
                       (handleNoteOff (Some t1) note st))) = None) /\
  (forall c2,
     JSMap.get note
       (activeNotes (handleNoteOff c2 note (handleNoteOff None note st)))
     = None) /\
  (forall c1 c2,
     activeNotesUI (handleNoteOff c2 note (handleNoteOff c1 note st))
     = activeNotesUI (handleNoteOff c2 note st)).
Proof.
  intros Hget.
  assert (Hfirst_none : forall c2,
            activeNotes (handleNoteOff c2 note (handleNoteOff None note st))
            = activeNotes (handleNoteOff None note st)).
  { intros c2. apply handleNoteOff_absent.
    rewrite handleNoteOff_no_clock. apply JSMapFacts.get_delete_same. }
  assert (Hfirst_some : forall t1 c2,
            activeNotes (handleNoteOff c2 note
                           (handleNoteOff (Some t1) note st))
            = activeNotes (handleNoteOff c2 note st)).
  { intros t1 [t2|].
    - now rewrite handleNoteOff_last_wins.
    - rewrite !handleNoteOff_no_clock.
      rewrite (handleNoteOff_present t1 note data st Hget).
      apply JSMapFacts.delete_set. }
  split; [exact Hfirst_none|]. split; [|split; [exact Hfirst_some|]].
  - intros [t|]; [apply Hfirst_some | apply Hfirst_none].
  - split; [|split; [|split]].
    + intros t1 t2. rewrite Hfirst_some.
      rewrite (handleNoteOff_present t2 note data st Hget).
      apply JSMapFacts.get_set_same.
    + intros t1. rewrite Hfirst_some, handleNoteOff_no_clock.
      apply JSMapFacts.get_delete_same.
    + intros c2. rewrite Hfirst_none, handleNoteOff_no_clock.
      apply JSMapFacts.get_delete_same.
    + intros c1 c2. rewrite !handleNoteOff_ui. apply filter_idem.
Qed.

Lemma noteOff_twice_witness :
  JSMap.get 60 (activeNotes engineWithHeldNote) = Some heldNote /\
  activeNotes (handleNoteOff (Some 2) 60
                 (handleNoteOff (Some 1) 60 engineWithHeldNote)) =
    activeNotes (handleNoteOff (Some 2) 60 engineWithHeldNote) /\
  JSMap.get 60
    (activeNotes (handleNoteOff (Some 2) 60
                    (handleNoteOff (Some 1) 60 engineWithHeldNote)))
  = Some (mkNote (velocity heldNote) (startTime heldNote) (Some 2) true) /\
  JSMap.get 60
    (activeNotes (handleNoteOff (Some 2) 60
                    (handleNoteOff None 60 engineWithHeldNote))) = None.
Proof.
  assert (H : JSMap.get 60 (activeNotes engineWithHeldNote) = Some heldNote)
    by reflexivity.
  destruct (noteOff_twice engineWithHeldNote 60 heldNote H)
    as (_ & _ & H3 & H4 & _ & H6 & _).
  split; [exact H|]. split; [exact (H3 1 (Some 2))|].
  split; [exact (H4 1 2) | exact (H6 (Some 2))].
Defined.

(** C10: for a note that is in the registry, note-off without an audio
    clock deletes the entry at once, and note-off with a clock keeps the
    entry, marked released with the clock reading as its release time. *)
Theorem noteOff_clock_gate (st : Engine) (note : Z) (data : NoteState) :
  JSMap.get note (activeNotes st) = Some data ->
  activeNotes (handleNoteOff None note st)
    = JSMap.delete note (activeNotes st) /\
  JSMap.get note (activeNotes (handleNoteOff None note st)) = None /\
  (forall t,
     activeNotes (handleNoteOff (Some t) note st)
       = JSMap.set note
           (mkNote (velocity data) (startTime data) (Some t) true)
           (activeNotes st) /\
     JSMap.get note (activeNotes (handleNoteOff (Some t) note st))
       = Some (mkNote (velocity data) (startTime data) (Some t) true)).
Proof.
  intros Hget. split; [|split].
  - apply handleNoteOff_no_clock.
  - rewrite handleNoteOff_no_clock. apply JSMapFacts.get_delete_same.
  - intros t. rewrite (handleNoteOff_present t note data st Hget).
    split; [reflexivity | apply JSMapFacts.get_set_same].
Qed.

Lemma noteOff_clock_gate_witness :
  JSMap.get 60 (activeNotes engineWithHeldNote) = Some heldNote /\
  JSMap.get 60 (activeNotes (handleNoteOff None 60 engineWithHeldNote))
    = None /\
  JSMap.get 60 (activeNotes (handleNoteOff (Some 3) 60 engineWithHeldNote))
    = Some (mkNote (velocity heldNote) (startTime heldNote) (Some 3) true).
Proof.
  assert (H : JSMap.get 60 (activeNotes engineWithHeldNote) = Some heldNote)
    by reflexivity.
  destruct (noteOff_clock_gate engineWithHeldNote 60 heldNote H)
    as (_ & H2 & H3).
  split; [exact H|]. split; [exact H2 | exact (proj2 (H3 3))].
Defined.

(** * The registry invariant *)

Lemma registryInv_set (note : Z) (data : NoteState) (m : JSMap.t NoteState) :
  noteInv data -> registryInv m -> registryInv (JSMap.set note data m).
Proof.
  unfold registryInv. intros Hd Hm.
  induction m as [|[k v] r IH]; simpl.
  - constructor; [exact Hd | constructor].
  - inversion Hm as [|? ? Hv Hr]; subst.
    destruct (Z.eqb note k); constructor; auto.
Qed.

Lemma registryInv_filter (f : Z * NoteState -> bool) (m : JSMap.t NoteState) :
  registryInv m -> registryInv (filter f m).
Proof.
  unfold registryInv. intros Hm. apply Forall_forall. intros e He.
  apply filter_In in He as [He _].
  revert e He. now apply Forall_forall.
Qed.

Lemma registryInv_delete (note : Z) (m : JSMap.t NoteState) :
  registryInv m -> registryInv (JSMap.delete note m).
Proof. rewrite JSMapFacts.delete_filter. apply registryInv_filter. Qed.

Lemma registryInv_get (m : JSMap.t NoteState) (note : Z) (data : NoteState) :
  registryInv m -> JSMap.get note m = Some data -> noteInv data.
Proof.
  unfold registryInv. intros Hm Hget. apply JSMapFacts.get_In in Hget.
  rewrite Forall_forall in Hm. exact (Hm _ Hget).
Qed.

Lemma noteInv_fresh (v t : Q) : noteInv (mkNote v t None false).
Proof. unfold noteInv. simpl. split; [discriminate | congruence]. Qed.

Lemma noteInv_released (v t rt : Q) : noteInv (mkNote v t (Some rt) true).
Proof. unfold noteInv. simpl. split; [discriminate | reflexivity]. Qed.

Lemma scheduleGrains_registry (pow : Q -> Q -> Q) (random : nat -> Q)
    (clock buffer : option Q) (graph : bool) (st : Engine) :
  exists f,
    activeNotes (fst (scheduleGrains pow random clock buffer graph st))
    = filter f (activeNotes st).
Proof.
  destruct clock as [ct|], buffer as [dur|], graph;
    try (exists (fun _ => true); simpl; symmetry; apply filter_true).
  now destruct (scheduleGrains_rearms pow random ct dur st) as (_ & _ & _ & H).
Qed.

(** C9: [handleNoteOn], [handleNoteOff] and the sweep of the scheduler each
    leave a registry in which every note has its release time set exactly
    when it is flagged released, provided the registry was so before. *)
Theorem registry_invariant (pow : Q -> Q -> Q) (random : nat -> Q)
    (st : Engine) :
  registryInv (activeNotes st) ->
  (forall clock buffer graph note velocity,
     registryInv
       (activeNotes (fst (handleNoteOn pow random clock buffer graph
                            note velocity st)))) /\
  (forall clock note,
     registryInv (activeNotes (handleNoteOff clock note st))) /\
  (forall clock buffer graph,
     registryInv
       (activeNotes (fst (scheduleGrains pow random clock buffer graph st)))) /\
  (forall playing p now,
     registryInv (fst (collectVoices pow playing p now (activeNotes st)))).
Proof.
  intros Hinv. split; [|split; [|split]].
  - intros clock buffer graph note vel. unfold handleNoteOn.
    set (st2 := set_activeNotesUI _ _).
    assert (H2 : registryInv (activeNotes st2)).
    { simpl. apply registryInv_set; [apply noteInv_fresh | exact Hinv]. }
    destruct (timerId st2); [exact H2|].
    destruct clock as [ct|]; [|exact H2].
    destruct (scheduleGrains_registry pow random (Some ct) buffer graph
                (set_nextGrainTime ct st2)) as [f Hf].
    rewrite Hf. now apply registryInv_filter.
  - intros clock note.
    destruct (JSMap.get note (activeNotes st)) as [data|] eqn:Hget.
    + destruct clock as [t|].
      * rewrite (handleNoteOff_present t note data st Hget).
        apply registryInv_set; [apply noteInv_released | exact Hinv].
      * rewrite handleNoteOff_no_clock. now apply registryInv_delete.
    + rewrite handleNoteOff_absent; assumption.
  - intros clock buffer graph.
    destruct (scheduleGrains_registry pow random clock buffer graph st)
      as [f Hf].
    rewrite Hf. now apply registryInv_filter.
  - intros playing p now.
    destruct (collectVoices_registry_sub pow p now playing (activeNotes st))
      as [f Hf].
    rewrite Hf. now apply registryInv_filter.
Qed.

Lemma registry_invariant_witness :
  registryInv (activeNotes engineWithHeldNote) /\
  registryInv
    (activeNotes (fst (handleNoteOn constPow midRandom (Some 1) (Some 10) true
                         64 defaultVelocity engineWithHeldNote))) /\
  registryInv (activeNotes (handleNoteOff (Some 1) 60 engineWithHeldNote)) /\
  registryInv
    (activeNotes (fst (scheduleGrains constPow midRandom (Some 1) (Some 10)
                         true engineWithHeldNote))).
Proof.
  assert (H : registryInv (activeNotes engineWithHeldNote)).
  { unfold registryInv. simpl.
    constructor; [apply noteInv_fresh | constructor]. }
  destruct (registry_invariant constPow midRandom engineWithHeldNote H)
    as (H1 & H2 & H3 & _).
  split; [exact H|]. split; [apply H1|]. split; [apply H2 | apply H3].
Defined.

(** Keys stay unique: the hypothesis [JSMap.wf] of the slot lemmas holds of
    every registry the handlers and the scheduler can build from the empty
    one. *)
Lemma registry_wf_preserved (pow : Q -> Q -> Q) (random : nat -> Q)
    (st : Engine) :
  JSMap.wf (activeNotes st) ->
  (forall clock buffer graph note velocity,
     JSMap.wf
       (activeNotes (fst (handleNoteOn pow random clock buffer graph
                            note velocity st)))) /\
  (forall clock note, JSMap.wf (activeNotes (handleNoteOff clock note st))) /\
  (forall clock buffer graph,
     JSMap.wf
       (activeNotes (fst (scheduleGrains pow random clock buffer graph st)))).
Proof.
  intros Hwf. split; [|split].
  - intros clock buffer graph note vel. unfold handleNoteOn.
    set (st2 := set_activeNotesUI _ _).
    assert (H2 : JSMap.wf (activeNotes st2))
      by (simpl; now apply JSMapFacts.wf_set).
    destruct (timerId st2); [exact H2|].
    destruct clock as [ct|]; [|exact H2].
    destruct (scheduleGrains_registry pow random (Some ct) buffer graph
                (set_nextGrainTime ct st2)) as [f Hf].
    rewrite Hf. now apply JSMapFacts.wf_filter.
  - intros clock note.
    destruct (JSMap.get note (activeNotes st)) as [data|] eqn:Hget.
    + destruct clock as [t|].
      * rewrite (handleNoteOff_present t note data st Hget).
        now apply JSMapFacts.wf_set.
      * rewrite handleNoteOff_no_clock. now apply JSMapFacts.wf_delete.
    + rewrite handleNoteOff_absent; assumption.
  - intros clock buffer graph.
    destruct (scheduleGrains_registry pow random clock buffer graph st)
      as [f Hf].
    rewrite Hf. now apply JSMapFacts.wf_filter.
Qed.

Lemma initialEngine_wf :
  JSMap.wf (activeNotes initialEngine) /\
  registryInv (activeNotes initialEngine).
Proof. split; constructor. Qed.

(** * The start/stop effect *)

(** A re-run of the effect is its cleanup followed by its body.  While a note
    or the drone keeps the loop wanted, the cleanup cancels the queued frame
    and the body, finding [timerIdRef] still set, requests no new one. *)
Lemma effect_rerun_cancels_frame (currentTime : Q) (st : Engine)
    (id : positive) :
  isPlaying st || hasNotes st = true ->
  timerId st = Some id -> pendingFrames st = [id] ->
  let st' := loopEffect (Some currentTime) (loopEffectCleanup st) in
  pendingFrames st' = [] /\ timerId st' = Some id.
Proof.
  intros Hwanted Ht Hq. unfold loopEffectCleanup. rewrite Ht.
  unfold loopEffect, hasNotes, cancelAnimationFrame in *. simpl.
  rewrite Hwanted, Hq. simpl. rewrite Pos.eqb_refl. simpl.
  destruct (JS.ltb (nextGrainTime st) (currentTime - (2#10))); simpl;
    rewrite Ht; simpl; auto.
Qed.

(** * Further properties of the registry and the handlers *)

Section RegistryFacts.

Variable pow : Q -> Q -> Q.
Variable random : nat -> Q.

(** With unique keys the loop keeps every entry that is not flagged
    released. *)
Lemma scheduleLoop_keeps_held (p : GranularParams) (clip : Q * Q)
    (bufferDuration currentTime : Q) (fuel : nat) (st : Engine) :
  JSMap.wf (activeNotes st) ->
  exists f,
    (forall e, isReleased (snd e) = false -> f e = true) /\
    activeNotes (fst (scheduleLoop pow random fuel p clip bufferDuration
                        currentTime st))
    = filter f (activeNotes st).
Proof.
  revert st. induction fuel as [|fuel IH]; intros st Hwf.
  - exists (fun _ => true). split; [reflexivity|].
    simpl. symmetry. apply filter_true.
  - rewrite scheduleLoop_S.
    destruct (JS.ltb (nextGrainTime st) (horizon currentTime)).
    + cbv zeta. simpl fst.
      destruct (slot_fields pow random p clip bufferDuration st)
        as (_ & Hreg & _).
      rewrite collectVoices_eq in Hreg by assumption. simpl in Hreg.
      destruct (IH (fst (slot pow random p clip bufferDuration st)))
        as (f & Hf & Heq).
      { rewrite Hreg. now apply JSMapFacts.wf_filter. }
      exists (fun e => negb (expired p (snd e) (nextGrainTime st)) && f e).
      split.
      * intros e He. rewrite (Hf e He). unfold expired. now rewrite He.
      * rewrite Heq, Hreg. apply filter_filter.
    + exists (fun _ => true). split; [reflexivity|].
      simpl. symmetry. apply filter_true.
Qed.

Lemma scheduleGrains_keeps_held (clock buffer : option Q) (graph : bool)
    (st : Engine) :
  JSMap.wf (activeNotes st) ->
  exists f,
    (forall e, isReleased (snd e) = false -> f e = true) /\
    activeNotes (fst (scheduleGrains pow random clock buffer graph st))
    = filter f (activeNotes st).
Proof.
  intros Hwf.
  destruct clock as [ct|], buffer as [dur|], graph;
    try (exists (fun _ => true); split; [reflexivity|];
         simpl; symmetry; apply filter_true).
  rewrite scheduleGrains_eq. cbv zeta. simpl.
  now apply scheduleLoop_keeps_held.
Qed.

Lemma scheduleGrains_ui (clock buffer : option Q) (graph : bool)
    (st : Engine) :
  activeNotesUI (fst (scheduleGrains pow random clock buffer graph st))
  = activeNotesUI st.
Proof.
  destruct clock as [ct|], buffer as [dur|], graph; trivial.
  rewrite scheduleGrains_eq. cbv zeta. simpl.
  now destruct (scheduleLoop_fields pow random (params st) (sampleRange st)
                  dur ct
                  (slotsDue (nextGrainTime st) (horizon ct)
                     (grainInterval (params st))) st)
    as (_ & _ & _ & _ & H).
Qed.

Lemma handleNoteOn_registry (clock buffer : option Q) (graph : bool)
    (note : Z) (velocity : Q) (st : Engine) :
  JSMap.wf (activeNotes st) ->
  exists f,
    (forall e, isReleased (snd e) = false -> f e = true) /\
    activeNotes (fst (handleNoteOn pow random clock buffer graph note
                        velocity st))
    = filter f
        (JSMap.set note
           (mkNote velocity (match clock with Some t => t | None => 0 end)
                   None false)
           (activeNotes st)).
Proof.
  intros Hwf. unfold handleNoteOn.
  set (st2 := set_activeNotesUI _ _).
  assert (H2 : JSMap.wf (activeNotes st2))
    by (simpl; now apply JSMapFacts.wf_set).
  assert (Hsame : exists f,
             (forall e : Z * NoteState, isReleased (snd e) = false ->
                f e = true) /\
             activeNotes st2 = filter f (activeNotes st2)).
  { exists (fun _ => true). split; [reflexivity|].
    symmetry. apply filter_true. }
  destruct (timerId st2); [exact Hsame|].
  destruct clock as [ct|]; [|exact Hsame].
  now apply (scheduleGrains_keeps_held (Some ct) buffer graph
               (set_nextGrainTime ct st2)).
Qed.

End RegistryFacts.

(** X1: after [handleNoteOn] the note is in the registry as a held note with
    the given velocity, no release time, and the clock reading as its start
    time (0 when there is no audio context), whatever was stored for it
    before and whether or not the call ran the scheduling loop. *)
Theorem noteOn_registers (pow : Q -> Q -> Q) (random : nat -> Q)
    (clock buffer : option Q) (graph : bool) (note : Z) (velocity : Q)
    (st : Engine) :
  JSMap.wf (activeNotes st) ->
  JSMap.get note
    (activeNotes (fst (handleNoteOn pow random clock buffer graph note
                         velocity st)))
  = Some (mkNote velocity (match clock with Some t => t | None => 0 end)
                 None false).
Proof.
  intros Hwf.
  destruct (handleNoteOn_registry pow random clock buffer graph note velocity
              st Hwf) as (f & Hf & Heq).
  rewrite Heq.
  rewrite (get_filter_keep f _ note
             (mkNote velocity (match clock with Some t => t | None => 0 end)
                     None false)).
  - now rewrite Hf.
  - now apply JSMapFacts.wf_set.
  - apply JSMapFacts.get_set_same.
Qed.

Lemma noteOn_registers_witness :
  JSMap.wf (activeNotes engineReleasing) /\
  JSMap.get 60
    (activeNotes (fst (handleNoteOn constPow midRandom (Some 3) (Some 10) true
                         60 defaultVelocity engineReleasing)))
  = Some (mkNote defaultVelocity 3 None false).
Proof.
  assert (H : JSMap.wf (activeNotes engineReleasing)).
  { unfold JSMap.wf. simpl. constructor; [simpl; tauto | constructor]. }
  split; [exact H|].
  exact (noteOn_registers constPow midRandom (Some 3) (Some 10) true 60
           defaultVelocity engineReleasing H).
Defined.

(** X2: the scheduler never adds or alters an entry and never removes a held
    one: after [scheduleGrains], whatever its arguments, every note that was
    in the registry without the released flag is still there unchanged, and
    every note found afterwards was there before with the same state. *)
Theorem scheduler_only_prunes (pow : Q -> Q -> Q) (random : nat -> Q)
    (clock buffer : option Q) (graph : bool) (st : Engine) :
  JSMap.wf (activeNotes st) ->
  (forall note data,
     JSMap.get note (activeNotes st) = Some data ->
     isReleased data = false ->
     JSMap.get note
       (activeNotes (fst (scheduleGrains pow random clock buffer graph st)))
     = Some data) /\
  (forall note data,
     JSMap.get note
       (activeNotes (fst (scheduleGrains pow random clock buffer graph st)))
     = Some data ->
     JSMap.get note (activeNotes st) = Some data).
Proof.
  intros Hwf.
  destruct (scheduleGrains_keeps_held pow random clock buffer graph st Hwf)
    as (f & Hf & Heq).
  rewrite Heq. split.
  - intros note data Hget Hheld.
    rewrite (get_filter_keep f _ note data Hwf Hget).
    now rewrite (Hf (note, data) Hheld).
  - intros note data Hget.
    apply JSMapFacts.get_In, filter_In in Hget as [Hin _].
    now apply JSMapFacts.In_get.
Qed.

Lemma scheduler_only_prunes_witness :
  JSMap.wf heldAndReleased /\
  JSMap.get 60
    (activeNotes (fst (scheduleGrains constPow midRandom (Some 5) (Some 10)
                         true (set_activeNotes heldAndReleased initialEngine))))
  = Some heldNote /\
  JSMap.get 64
    (activeNotes (fst (scheduleGrains constPow midRandom (Some 5) (Some 10)
                         true (set_activeNotes heldAndReleased initialEngine))))
  = None.
Proof.
  assert (H : JSMap.wf heldAndReleased).
  { unfold JSMap.wf. simpl. repeat constructor; simpl; intuition lia. }
  split; [exact H|]. split.
  - apply (proj1 (scheduler_only_prunes constPow midRandom (Some 5) (Some 10)
                    true (set_activeNotes heldAndReleased initialEngine) H));
      reflexivity.
  - vm_compute. reflexivity.
Defined.

Lemma filter_absent (note : Z) (l : list Z) :
  ~ In note l -> filter (fun n => negb (Z.eqb n note)) l = l.
Proof.
  induction l as [|a r IH]; simpl; trivial.
  intros Hnot. destruct (Z.eqb_spec a note) as [->|Hne]; simpl.
  - exfalso. apply Hnot. now left.
  - rewrite IH; trivial. intros Hin. apply Hnot. now right.
Qed.

(** X3: [handleNoteOff] for one note leaves the entry of every other note as
    it was, with or without an audio clock. *)
Theorem noteOff_leaves_other_notes (clock : option Q) (note other : Z)
    (st : Engine) :
  note <> other ->
  JSMap.get other (activeNotes (handleNoteOff clock note st))
  = JSMap.get other (activeNotes st).
Proof.
  intros Hne.
  destruct (JSMap.get note (activeNotes st)) as [data|] eqn:Hget.
  - destruct clock as [t|].
    + rewrite (handleNoteOff_present t note data st Hget).
      now apply JSMapFacts.get_set_other.
    + rewrite handleNoteOff_no_clock.
      now apply JSMapFacts.get_delete_other.
  - now rewrite handleNoteOff_absent.
Qed.

Lemma noteOff_leaves_other_notes_witness :
  60%Z <> 64%Z /\
  JSMap.get 64
    (activeNotes (handleNoteOff (Some 1) 60
                    (set_activeNotes heldAndReleased initialEngine)))
  = JSMap.get 64 (activeNotes (set_activeNotes heldAndReleased initialEngine)).
Proof.
  assert (H : 60%Z <> 64%Z) by discriminate.
  split; [exact H|].
  exact (noteOff_leaves_other_notes (Some 1) 60 64
           (set_activeNotes heldAndReleased initialEngine) H).
Defined.

(** X4: [handleNoteOff] for a note that is not in the registry leaves the
    registry as it is, with or without an audio clock: it neither adds an
    entry nor touches another.  It still replaces the list of displayed
    notes by its filtered copy, which has the same content when the note is
    not displayed. *)
Theorem noteOff_unknown_note (clock : option Q) (note : Z) (st : Engine) :
  JSMap.get note (activeNotes st) = None ->
  activeNotes (handleNoteOff clock note st) = activeNotes st /\
  JSMap.get note (activeNotes (handleNoteOff clock note st)) = None /\
  activeNotesUI (handleNoteOff clock note st)
    = filter (fun n => negb (Z.eqb n note)) (activeNotesUI st) /\
  (~ In note (activeNotesUI st) ->
   activeNotesUI (handleNoteOff clock note st) = activeNotesUI st).
Proof.
  intros Hget.
  rewrite (handleNoteOff_absent clock note st Hget), handleNoteOff_ui.
  split; [reflexivity|]. split; [exact Hget|]. split; [reflexivity|].
  intros Hui. now apply filter_absent.
Qed.

Lemma noteOff_unknown_note_witness :
  JSMap.get 61 (activeNotes engineWithHeldNote) = None /\
  ~ In 61%Z (activeNotesUI engineWithHeldNote) /\
  activeNotes (handleNoteOff (Some 1) 61 engineWithHeldNote)
    = activeNotes engineWithHeldNote /\
  activeNotesUI (handleNoteOff (Some 1) 61 engineWithHeldNote)
    = activeNotesUI engineWithHeldNote.
Proof.
  assert (H1 : JSMap.get 61 (activeNotes engineWithHeldNote) = None)
    by reflexivity.
  assert (H2 : ~ In 61%Z (activeNotesUI engineWithHeldNote))
    by (simpl; intros [H | []]; discriminate H).
  destruct (noteOff_unknown_note (Some 1) 61 engineWithHeldNote H1)
    as (A1 & _ & _ & A4).
  split; [exact H1|]. split; [exact H2|]. split; [exact A1 | exact (A4 H2)].
Defined.

Lemma existsb_eqb_In (note : Z) (l : list Z) :
  existsb (Z.eqb note) l = true <-> In note l.
Proof.
  rewrite existsb_exists. split.
  - intros (x & Hin & Heq). apply Z.eqb_eq in Heq. now subst.
  - intros Hin. exists note. split; trivial. apply Z.eqb_refl.
Qed.

Lemma handleNoteOn_ui (pow : Q -> Q -> Q) (random : nat -> Q)
    (clock buffer : option Q) (graph : bool) (note : Z) (velocity : Q)
    (st : Engine) :
  activeNotesUI (fst (handleNoteOn pow random clock buffer graph note
                        velocity st))
  = if existsb (Z.eqb note) (activeNotesUI st) then activeNotesUI st
    else activeNotesUI st ++ [note].
Proof.
  unfold handleNoteOn.
  set (st2 := set_activeNotesUI _ _).
  destruct (timerId st2); [reflexivity|].
  destruct clock as [ct|]; [|reflexivity].
  rewrite scheduleGrains_ui. reflexivity.
Qed.

(** X5: the list of displayed notes never holds a note twice: [handleNoteOn]
    adds the note only when it is missing, [handleNoteOff] removes it, and
    both keep the list free of duplicates. *)
Theorem displayed_notes_no_duplicates (pow : Q -> Q -> Q) (random : nat -> Q)
    (clock buffer : option Q) (graph : bool) (note : Z) (velocity : Q)
    (st : Engine) :
  NoDup (activeNotesUI st) ->
  (NoDup (activeNotesUI (fst (handleNoteOn pow random clock buffer graph
                                note velocity st))) /\
   In note (activeNotesUI (fst (handleNoteOn pow random clock buffer graph
                                  note velocity st)))) /\
  (NoDup (activeNotesUI (handleNoteOff clock note st)) /\
   ~ In note (activeNotesUI (handleNoteOff clock note st))).
Proof.
  intros Hnd. split.
  - rewrite handleNoteOn_ui.
    destruct (existsb (Z.eqb note) (activeNotesUI st)) eqn:E.
    + split; [exact Hnd | now apply existsb_eqb_In].
    + split.
      * apply NoDup_rev in Hnd.
        rewrite <- (rev_involutive (_ ++ _)). apply NoDup_rev.
        rewrite rev_app_distr. simpl. constructor; trivial.
        rewrite <- in_rev. intros Hin. apply existsb_eqb_In in Hin.
        congruence.
      * apply in_or_app. right. now left.
  - rewrite handleNoteOff_ui. split.
    + now apply NoDup_filter.
    + intros Hin. apply filter_In in Hin as [_ Hneq].
      now rewrite Z.eqb_refl in Hneq.
Qed.

Lemma displayed_notes_no_duplicates_witness :
  NoDup (activeNotesUI engineWithHeldNote) /\
  activeNotesUI (fst (handleNoteOn constPow midRandom (Some 1) (Some 10) true
                        60 defaultVelocity engineWithHeldNote)) = [60%Z] /\
  NoDup (activeNotesUI (fst (handleNoteOn constPow midRandom (Some 1) (Some 10)
                               true 60 defaultVelocity engineWithHeldNote))) /\
  ~ In 60%Z (activeNotesUI (handleNoteOff (Some 1) 60 engineWithHeldNote)).
Proof.
  assert (H : NoDup (activeNotesUI engineWithHeldNote)).
  { simpl. constructor; [simpl; tauto | constructor]. }
  destruct (displayed_notes_no_duplicates constPow midRandom (Some 1)
              (Some 10) true 60 defaultVelocity engineWithHeldNote H)
    as ((H1 & _) & (_ & H4)).
  split; [exact H|]. split; [reflexivity|]. split; [exact H1 | exact H4].
Defined.

(** A note-on that finds no timer set and has an audio context snaps the
    cursor to the clock reading and calls [scheduleGrains]. *)
Lemma handleNoteOn_starts_loop (pow : Q -> Q -> Q) (random : nat -> Q)
    (currentTime : Q) (buffer : option Q) (graph : bool) (note : Z)
    (velocity : Q) (st : Engine) :
  timerId st = None ->
  handleNoteOn pow random (Some currentTime) buffer graph note velocity st
  = scheduleGrains pow random (Some currentTime) buffer graph
      (set_nextGrainTime currentTime
         (set_activeNotesUI
            (if existsb (Z.eqb note) (activeNotesUI st) then activeNotesUI st
             else activeNotesUI st ++ [note])
            (set_activeNotes
               (JSMap.set note (mkNote velocity currentTime None false)
                  (activeNotes st)) st))).
Proof.
  intros Hnone. unfold handleNoteOn. cbv zeta.
  cbn [timerId set_activeNotesUI set_activeNotes activeNotesUI].
  now rewrite Hnone.
Qed.

(** Grains of one call of [scheduleGrains] lie between the cursor it found
    and the horizon, where the cursor ends. *)
Lemma scheduleGrains_window (pow : Q -> Q -> Q) (random : nat -> Q)
    (currentTime bufferDuration : Q) (st : Engine) :
  0 <= nextGrainTime st -> 0 <= currentTime -> currentTime <= clockBound ->
  density (params st) <= clockBound ->
  let r := scheduleGrains pow random (Some currentTime) (Some bufferDuration)
             true st in
  (forall batch g, In batch (snd r) -> In g batch ->
     nextGrainTime st <= scheduledStartTime g /\
     scheduledStartTime g < horizon currentTime) /\
  horizon currentTime <= nextGrainTime (fst r).
Proof.
  intros Hc0 Ht0 Ht1 Hd.
  destruct (scheduleGrains_slots pow random currentTime bufferDuration st
              Hc0 Ht0 Ht1 Hd) as (H1 & H2 & H3 & H4 & H5).
  cbv zeta in *.
  destruct (grainInterval_pos (params st)) as [Hmin _].
  destruct minSpacing_bounds as [M0 _].
  destruct roundingSlack_bounds as [S0 S1].
  split.
  - intros batch g Hb Hg. apply In_nth_error in Hb as [k Hk].
    rewrite (H4 k batch g Hk Hg).
    assert (Hlt : (k < length (snd (scheduleGrains pow random
               (Some currentTime) (Some bufferDuration) true st)))%nat)
      by (apply nth_error_Some; congruence).
    split; [|exact (H2 k Hlt)].
    destruct (H5 k (Nat.lt_le_incl _ _ Hlt)) as (G1 & _ & _).
    pose proof (inject_nat_nonneg k) as Hk0.
    assert (0 <= inject_Z (Z.of_nat k)
                 * (grainInterval (params st) - roundingSlack))
      by (apply Qmult_le_0_compat; lra).
    lra.
  - rewrite H1. exact H3.
Qed.

(** A call of [scheduleGrains] without a buffer or without the audio graph
    returns at once. *)
Lemma scheduleGrains_not_ready (pow : Q -> Q -> Q) (random : nat -> Q)
    (clock buffer : option Q) (graph : bool) (st : Engine) :
  buffer = None \/ graph = false ->
  scheduleGrains pow random clock buffer graph st = (st, []).
Proof.
  intros [-> | ->]; unfold scheduleGrains; destruct clock; trivial;
    destruct buffer; reflexivity.
Qed.

(** X6: a note-on that finds no timer set, with an audio context, sets the
    cursor to the clock reading, whatever it was, and calls [scheduleGrains].
    When a buffer is loaded and the audio graph is set, and clock reading and
    density are at most [2^30] seconds, no grain is started before the clock
    reading or at or after the horizon, the cursor ends at or past the
    horizon and the next frame is requested.  When the buffer or the graph is
    missing no grain is started, the cursor stays at the clock reading and no
    frame is requested, so the timer stays unset.  A note-on that finds the
    timer set, or has no audio context, starts no grain and leaves cursor and
    timer alone. *)
Theorem noteOn_cursor_policy (pow : Q -> Q -> Q) (random : nat -> Q)
    (currentTime : Q) (note : Z) (velocity : Q) (st : Engine) :
  (timerId st = None ->
   (forall buffer graph stale,
      handleNoteOn pow random (Some currentTime) buffer graph
        note velocity (set_nextGrainTime stale st)
      = handleNoteOn pow random (Some currentTime) buffer graph
          note velocity st) /\
   (forall bufferDuration,
      0 <= currentTime -> currentTime <= clockBound ->
      density (params st) <= clockBound ->
      (forall batch g,
         In batch (snd (handleNoteOn pow random (Some currentTime)
                          (Some bufferDuration) true note velocity st)) ->
         In g batch ->
         currentTime <= scheduledStartTime g /\
         scheduledStartTime g < horizon currentTime) /\
      horizon currentTime
        <= nextGrainTime (fst (handleNoteOn pow random (Some currentTime)
                                 (Some bufferDuration) true note velocity st)) /\
      timerId (fst (handleNoteOn pow random (Some currentTime)
                      (Some bufferDuration) true note velocity st))
        = Some (nextFrameId st)) /\
   (forall buffer graph,
      buffer = None \/ graph = false ->
      snd (handleNoteOn pow random (Some currentTime) buffer graph note
             velocity st) = [] /\
      nextGrainTime (fst (handleNoteOn pow random (Some currentTime) buffer
                            graph note velocity st)) = currentTime /\
      timerId (fst (handleNoteOn pow random (Some currentTime) buffer graph
                      note velocity st)) = None /\
      pendingFrames (fst (handleNoteOn pow random (Some currentTime) buffer
                            graph note velocity st)) = pendingFrames st)) /\
  (forall clock buffer graph,
     timerId st <> None \/ clock = None ->
     snd (handleNoteOn pow random clock buffer graph note velocity st) = [] /\
     nextGrainTime (fst (handleNoteOn pow random clock buffer graph note
                           velocity st)) = nextGrainTime st /\
     timerId (fst (handleNoteOn pow random clock buffer graph note
                     velocity st)) = timerId st /\
     pendingFrames (fst (handleNoteOn pow random clock buffer graph note
                           velocity st)) = pendingFrames st).
Proof.
  split.
  - intros Hnone. split; [|split].
    + intros buffer graph stale.
      rewrite !handleNoteOn_starts_loop by exact Hnone. reflexivity.
    + intros bufferDuration Ht0 Ht1 Hd.
      rewrite handleNoteOn_starts_loop by exact Hnone.
      match goal with
      | |- context [scheduleGrains _ _ _ _ _ ?s] =>
          destruct (scheduleGrains_window pow random currentTime
                      bufferDuration s Ht0 Ht0 Ht1 Hd) as [Hw1 Hw2];
          destruct (scheduleGrains_rearms pow random currentTime
                      bufferDuration s) as (Hr & _)
      end.
      cbv zeta in Hw1, Hw2, Hr.
      split; [|split; [exact Hw2 | exact Hr]].
      intros batch g Hb Hg. exact (Hw1 batch g Hb Hg).
    + intros buffer graph Hmissing.
      rewrite handleNoteOn_starts_loop by exact Hnone.
      rewrite scheduleGrains_not_ready by exact Hmissing.
      cbn [fst snd]. split; [reflexivity|]. split; [reflexivity|].
      split; [exact Hnone | reflexivity].
  - intros clock buffer graph Hcase. unfold handleNoteOn. cbv zeta.
    cbn [timerId set_activeNotesUI set_activeNotes].
    destruct (timerId st) eqn:Ht.
    + simpl. rewrite Ht. repeat split.
    + destruct Hcase as [Hc | ->]; [congruence|].
      simpl. rewrite Ht. repeat split.
Qed.

Lemma noteOn_cursor_policy_witness :
  timerId engineWithHeldNote = None /\
  0 <= 7 /\ 7 <= clockBound /\
  density (params engineWithHeldNote) <= clockBound /\
  handleNoteOn constPow midRandom (Some 7) (Some 10) true 64 defaultVelocity
    (set_nextGrainTime 3 engineWithHeldNote)
  = handleNoteOn constPow midRandom (Some 7) (Some 10) true 64 defaultVelocity
      engineWithHeldNote /\
  horizon 7
    <= nextGrainTime (fst (handleNoteOn constPow midRandom (Some 7) (Some 10)
                             true 64 defaultVelocity engineWithHeldNote)) /\
  nextGrainTime (fst (handleNoteOn constPow midRandom (Some 7) None true 64
                        defaultVelocity engineWithHeldNote)) = 7 /\
  snd (handleNoteOn constPow midRandom None (Some 10) true 64 defaultVelocity
         engineWithHeldNote) = [].
Proof.
  assert (H : timerId engineWithHeldNote = None) by reflexivity.
  assert (H0 : 0 <= 7) by lra.
  assert (H1 : 7 <= clockBound) by (vm_compute; discriminate).
  assert (H2 : density (params engineWithHeldNote) <= clockBound)
    by (vm_compute; discriminate).
  destruct (noteOn_cursor_policy constPow midRandom 7 64 defaultVelocity
              engineWithHeldNote) as [Hfresh Hquiet].
  destruct (Hfresh H) as (A1 & A2 & A3).
  split; [exact H|]. split; [exact H0|]. split; [exact H1|].
  split; [exact H2|]. split; [exact (A1 (Some 10) true 3)|].
  split; [exact (proj1 (proj2 (A2 10 H0 H1 H2)))|].
  split; [exact (proj1 (proj2 (A3 None true (or_introl eq_refl))))|].
  exact (proj1 (Hquiet None (Some 10) true (or_intror eq_refl))).
Defined.

(** * Further properties of the slot *)

(** X7: a slot never removes a note it could still hear: a note whose
    envelope gain at the slot time is above the silence threshold is in the
    registry after the slot. *)
Theorem sweep_spares_audible_notes (pow : Q -> Q -> Q) (playing : bool)
    (p : GranularParams) (now : Q) (notes : JSMap.t NoteState)
    (note : Z) (data : NoteState) :
  JSMap.wf notes -> JSMap.get note notes = Some data ->
  silenceThreshold < envGain p data now ->
  JSMap.get note (fst (collectVoices pow playing p now notes)) = Some data.
Proof.
  intros Hwf Hget Hloud.
  rewrite collectVoices_eq by assumption. simpl fst.
  rewrite (get_filter_keep _ notes note data Hwf Hget). simpl.
  destruct (expired p data now) eqn:Hexp; trivial.
  rewrite (expired_silent p now data Hexp) in Hloud.
  unfold silenceThreshold in Hloud. lra.
Qed.

Lemma sweep_spares_audible_notes_witness :
  JSMap.wf heldAndReleased /\
  JSMap.get 64 heldAndReleased = Some noteReleasedAtOne /\
  silenceThreshold < envGain defaultParams noteReleasedAtOne (5#4) /\
  JSMap.get 64
    (fst (collectVoices constPow false defaultParams (5#4) heldAndReleased))
  = Some noteReleasedAtOne.
Proof.
  assert (H1 : JSMap.wf heldAndReleased).
  { unfold JSMap.wf. simpl. repeat constructor; simpl; intuition lia. }
  assert (H2 : JSMap.get 64 heldAndReleased = Some noteReleasedAtOne)
    by reflexivity.
  assert (H3 : silenceThreshold < envGain defaultParams noteReleasedAtOne (5#4))
    by (vm_compute; reflexivity).
  split; [exact H1|]. split; [exact H2|]. split; [exact H3|].
  exact (sweep_spares_audible_notes constPow false defaultParams (5#4)
           heldAndReleased 64 noteReleasedAtOne H1 H2 H3).
Defined.



(** X9: a note released at a non-zero clock reading, with a positive sustain
    level, has a positive gain exactly until [release] seconds after its
    release time: it fades for the whole release and is silent from then
    on. *)
Theorem release_tail_length (p : GranularParams) (data : NoteState)
    (rt now : Q) :
  isReleased data = true -> releaseTime data = Some rt -> ~ rt == 0 ->
  0 < sustain p ->
  (0 < envGain p data now <-> now < rt + release p).
Proof.
  intros Hrel Hrt Hnz Hs.
  rewrite (envGain_released p data now rt) by assumption.
  case_ltb (now - rt) (release p).
  - split; [intros _; lra | intros _].
    assert (Hm : 0 < Qmax epsilon (release p)).
    { pose proof (Q.le_max_l epsilon (release p)) as Hl.
      unfold epsilon in *. lra. }
    assert (Hq : (now - rt) / Qmax epsilon (release p) < 1).
    { apply Qlt_shift_div_r; trivial.
      pose proof (Q.le_max_r epsilon (release p)). lra. }
    nra.
  - split; intros; lra.
Qed.

Lemma release_tail_length_witness :
  isReleased noteReleasedAtOne = true /\
  releaseTime noteReleasedAtOne = Some 1 /\ ~ 1 == 0 /\
  0 < sustain defaultParams /\
  0 < envGain defaultParams noteReleasedAtOne (14#10).
Proof.
  assert (H1 : isReleased noteReleasedAtOne = true) by reflexivity.
  assert (H2 : releaseTime noteReleasedAtOne = Some 1) by reflexivity.
  assert (H3 : ~ 1 == 0) by (intros H; discriminate H).
  assert (H4 : 0 < sustain defaultParams) by reflexivity.
  split; [exact H1|]. split; [exact H2|]. split; [exact H3|].
  split; [exact H4|].
  apply (proj2 (release_tail_length defaultParams noteReleasedAtOne 1 (14#10)
                  H1 H2 H3 H4)).
  reflexivity.
Defined.

(** X10: with a positive attack a held note is silent up to its start time,
    and with a positive decay it is at full gain when the attack ends. *)
Theorem held_envelope_landmarks (p : GranularParams) (data : NoteState)
    (now : Q) :
  isReleased data = false ->
  (0 < attack p -> now <= startTime data -> envGain p data now == 0) /\
  (0 <= attack p -> 0 < decay p -> now == startTime data + attack p ->
   envGain p data now == 1).
Proof.
  intros Hheld. rewrite envGain_held by assumption. cbv zeta.
  unfold safeTime. split.
  - intros Ha Hnow.
    assert (Hm : Qmax 0 (now - startTime data) == 0)
      by (apply Q.max_l; lra).
    case_ltb (Qmax 0 (now - startTime data)) (attack p); [|lra].
    rewrite Hm. unfold Qdiv. ring.
  - intros Ha Hd Hnow.
    assert (Hm : Qmax 0 (now - startTime data) == attack p)
      by (rewrite Q.max_r; lra).
    case_ltb (Qmax 0 (now - startTime data)) (attack p); [lra|].
    case_ltb (Qmax 0 (now - startTime data)) (attack p + decay p); [|lra].
    rewrite Hm. unfold Qdiv. ring.
Qed.

Lemma held_envelope_landmarks_witness :
  isReleased heldNote = false /\
  envGain defaultParams heldNote (-1) == 0 /\
  envGain defaultParams heldNote (1#10) == 1.
Proof.
  assert (H : isReleased heldNote = false) by reflexivity.
  destruct (held_envelope_landmarks defaultParams heldNote (-1) H) as [H1 _].
  destruct (held_envelope_landmarks defaultParams heldNote (1#10) H)
    as [_ H2].
  split; [exact H|]. split.
  - apply H1; [reflexivity | simpl; lra].
  - apply H2; [simpl; lra | reflexivity | reflexivity].
Defined.

Lemma playVoices_shape (random : nat -> Q) (p : GranularParams)
    (clip : Q * Q) (bufferDuration now : Q) (voices : list Voice)
    (drawn : nat) :
  length (fst (playVoices random p clip bufferDuration now voices drawn))
    = length voices /\
  snd (playVoices random p clip bufferDuration now voices drawn)
    = (drawn + 2 * length voices)%nat /\
  (forall g,
     In g (fst (playVoices random p clip bufferDuration now voices drawn)) ->
     (1#10) <= finalRate g /\ durationSeconds g = grainSize p).
Proof.
  revert drawn. induction voices as [|v r IH]; intros drawn; simpl.
  - split; [reflexivity|]. split; [lia|]. intros g [].
  - destruct (IH (S (S drawn))) as (H1 & H2 & H3).
    destruct (playVoices random p clip bufferDuration now r (S (S drawn)))
      as [gs d]. simpl in *.
    split; [lia|]. split; [lia|].
    intros g [<- | Hin]; [|now apply H3].
    simpl. split; [|reflexivity].
    unfold grainRate. apply Q.le_max_l.
Qed.

(** X11: every grain of a slot plays at a rate of at least 0.1 and lasts
    [grainSize]; with no pitch spread the rate is the voice's rate, floored
    at 0.1, whatever the random draw. *)
Theorem grain_rate_floor (pow : Q -> Q -> Q) (random : nat -> Q)
    (p : GranularParams) (clip : Q * Q) (bufferDuration : Q) (st : Engine) :
  (forall g, In g (snd (slot pow random p clip bufferDuration st)) ->
     (1#10) <= finalRate g /\ durationSeconds g = grainSize p) /\
  (pitchSpread p == 0 ->
   forall voice u,
     grainRate p voice u == Qmax (1#10) (playbackRate voice)).
Proof.
  split.
  - intros g Hg. rewrite slot_grains in Hg.
    match type of Hg with
    | In _ (fst (playVoices _ _ _ _ ?now ?vs ?d)) =>
        now apply (proj2 (proj2 (playVoices_shape random p clip
                                   bufferDuration now vs d)))
    end.
  - intros Hps voice u. unfold grainRate. cbv zeta.
    apply Q.max_compat; [reflexivity|]. rewrite Hps. ring.
Qed.

Lemma grain_rate_floor_witness :
  pitchSpread defaultParams == 0 /\
  grainRate defaultParams (mkVoice (1#20) 1) (9#10) == 1#10.
Proof.
  assert (H : pitchSpread defaultParams == 0) by reflexivity.
  split; [exact H|].
  rewrite (proj2 (grain_rate_floor constPow midRandom defaultParams (0, 1) 10
                    initialEngine) H (mkVoice (1#20) 1) (9#10)).
  reflexivity.
Defined.

(** X12: a slot starts exactly one grain for the armed drone plus one per
    registry entry whose gain passes the threshold, hence at most one more
    than the registry holds, and it consumes exactly two random draws per
    grain. *)
Theorem slot_grain_count (pow : Q -> Q -> Q) (random : nat -> Q)
    (p : GranularParams) (clip : Q * Q) (bufferDuration : Q) (st : Engine) :
  let grains := snd (slot pow random p clip bufferDuration st) in
  length grains
    = ((if isPlaying st then 1 else 0)
       + length (filter (audible p (nextGrainTime st)) (activeNotes st)))%nat /\
  (length grains <= 1 + JSMap.size (activeNotes st))%nat /\
  randomDraws (fst (slot pow random p clip bufferDuration st))
    = (randomDraws st + 2 * length grains)%nat.
Proof.
  cbv zeta. rewrite slot_grains.
  destruct (playVoices_shape random p clip bufferDuration (nextGrainTime st)
              (snd (collectVoices pow (isPlaying st) p (nextGrainTime st)
                      (activeNotes st)))
              (randomDraws st)) as (H1 & H2 & _).
  rewrite H1, collectVoices_voices, length_app, length_map.
  assert (Hd : length (droneVoice (isPlaying st) p)
               = if isPlaying st then 1%nat else 0%nat)
    by (unfold droneVoice; now destruct (isPlaying st)).
  rewrite Hd. split; [reflexivity|]. split.
  - pose proof (filter_length_le (audible p (nextGrainTime st))
                  (activeNotes st)) as Hle.
    unfold JSMap.size. destruct (isPlaying st); lia.
  - unfold slot.
    destruct (collectVoices pow (isPlaying st) p (nextGrainTime st)
                (activeNotes st)) as [live voices] eqn:Ec.
    simpl snd in H2.
    assert (Hv : length voices
                 = ((if isPlaying st then 1 else 0)
                    + length (filter (audible p (nextGrainTime st))
                                (activeNotes st)))%nat).
    { pose proof (collectVoices_voices pow p (nextGrainTime st)
                    (isPlaying st) (activeNotes st)) as Hcv.
      rewrite Ec in Hcv. simpl in Hcv.
      rewrite Hcv, length_app, length_map, Hd. reflexivity. }
    destruct (playVoices random p clip bufferDuration (nextGrainTime st)
                voices (randomDraws st)) as [grains drawn].
    simpl in *. lia.
Qed.

(** * Further properties of the placement *)

Lemma wrap_unit_range (x : Q) : -1 <= x -> x <= 2 -> 0 <= wrap x /\ wrap x <= 1.
Proof.
  intros Hlo Hhi. rewrite wrap_single.
  destruct (Qlt_le_dec x 0); [split; lra|].
  destruct (Qlt_le_dec 1 x); split; lra.
Qed.

Lemma wrap_compat (x y : Q) : x == y -> wrap x == wrap y.
Proof.
  intros Hxy. rewrite !wrap_single.
  destruct (Qlt_le_dec x 0), (Qlt_le_dec y 0); try lra.
  destruct (Qlt_le_dec 1 x), (Qlt_le_dec 1 y); lra.
Qed.

(** X13: with position and spread in [0, 1] and a draw in [0, 1] the single
    wrap brings the relative position back into [0, 1]; for a clip window
    with [0 <= clipStart <= clipEnd <= 1] the grain then starts inside the
    window and the safety clamp changes nothing. *)
Theorem placement_inside_clip (p : GranularParams) (clip : Q * Q) (u : Q) :
  0 <= position p -> position p <= 1 ->
  0 <= spread p -> spread p <= 1 ->
  0 <= u -> u <= 1 ->
  (0 <= relativeGrainPos p u /\ relativeGrainPos p u <= 1) /\
  (0 <= fst clip -> fst clip <= snd clip -> snd clip <= 1 ->
   fst clip <= absolutePosPct p clip u /\
   absolutePosPct p clip u <= snd clip /\
   safeStartPct p clip u == absolutePosPct p clip u).
Proof.
  intros Hp0 Hp1 Hs0 Hs1 Hu0 Hu1.
  assert (Hrel : 0 <= relativeGrainPos p u /\ relativeGrainPos p u <= 1).
  { unfold relativeGrainPos, randomOffset. apply wrap_unit_range; nra. }
  split; [exact Hrel|].
  intros Hc0 Hc Hc1. destruct Hrel as [Hr0 Hr1].
  assert (Habs : fst clip <= absolutePosPct p clip u /\
                 absolutePosPct p clip u <= snd clip).
  { unfold absolutePosPct. cbv zeta. split; nra. }
  destruct Habs as [Ha0 Ha1]. split; [exact Ha0|]. split; [exact Ha1|].
  unfold safeStartPct.
  rewrite Q.min_r by lra. rewrite Q.max_r by lra. reflexivity.
Qed.

Lemma placement_inside_clip_witness :
  (0 <= position scenario4Params /\ position scenario4Params <= 1 /\
   0 <= spread scenario4Params /\ spread scenario4Params <= 1 /\
   0 <= (9#10) /\ (9#10) <= 1 /\
   0 <= (2#10) /\ (2#10) <= (6#10) /\ (6#10) <= 1) /\
  (2#10) <= absolutePosPct scenario4Params (2#10, 6#10) (9#10) /\
  absolutePosPct scenario4Params (2#10, 6#10) (9#10) <= (6#10) /\
  safeStartPct scenario4Params (2#10, 6#10) (9#10)
    == absolutePosPct scenario4Params (2#10, 6#10) (9#10).
Proof.
  assert (H : 0 <= position scenario4Params /\ position scenario4Params <= 1 /\
              0 <= spread scenario4Params /\ spread scenario4Params <= 1 /\
              0 <= (9#10) /\ (9#10) <= 1 /\
              0 <= (2#10) /\ (2#10) <= (6#10) /\ (6#10) <= 1)
    by (simpl; repeat split; lra).
  split; [exact H|].
  destruct H as (A1 & A2 & A3 & A4 & A5 & A6 & A7 & A8 & A9).
  exact (proj2 (placement_inside_clip scenario4Params (2#10, 6#10) (9#10)
                  A1 A2 A3 A4 A5 A6) A7 A8 A9).
Defined.

(** X14: with no spread the random draw has no influence on where a grain is
    read: the offset is the same for every draw. *)
Theorem zero_spread_ignores_draw (p : GranularParams) (clip : Q * Q)
    (bufferDuration u u' : Q) :
  spread p == 0 ->
  grainOffset p clip bufferDuration u == grainOffset p clip bufferDuration u'.
Proof.
  intros Hs.
  assert (Hrel : relativeGrainPos p u == relativeGrainPos p u').
  { unfold relativeGrainPos, randomOffset. apply wrap_compat.
    rewrite Hs. ring. }
  assert (Hsafe : safeStartPct p clip u == safeStartPct p clip u').
  { unfold safeStartPct, absolutePosPct. cbv zeta.
    apply Q.max_compat; [reflexivity|].
    apply Q.min_compat; [reflexivity|]. rewrite Hrel. reflexivity. }
  unfold grainOffset, JS.gtb. cbv zeta.
  case_ltb bufferDuration (safeStartPct p clip u * bufferDuration + grainSize p);
  case_ltb bufferDuration
    (safeStartPct p clip u' * bufferDuration + grainSize p);
  try reflexivity.
  - rewrite Hsafe in H. lra.
  - rewrite Hsafe in H. lra.
  - rewrite Hsafe. reflexivity.
Qed.

Lemma zero_spread_ignores_draw_witness :
  spread (withParam KSpread 0 defaultParams) == 0 /\
  grainOffset (withParam KSpread 0 defaultParams) (0, 1) 10 (1#10)
  == grainOffset (withParam KSpread 0 defaultParams) (0, 1) 10 (9#10) /\
  grainOffset (withParam KSpread 0 defaultParams) (0, 1) 10 (1#10) == 5.
Proof.
  assert (H : spread (withParam KSpread 0 defaultParams) == 0) by reflexivity.
  split; [exact H|]. split.
  - exact (zero_spread_ignores_draw (withParam KSpread 0 defaultParams)
             (0, 1) 10 (1#10) (9#10) H).
  - reflexivity.
Defined.

(** * Further properties of the start/stop effect and of the loop *)



(** X16: without an audio context the effect body never requests a frame:
    while the drone is armed or a note is in the registry it changes
    nothing, and otherwise it can only cancel the timer. *)
Theorem loopEffect_without_context (st : Engine) :
  (isPlaying st || hasNotes st = true -> loopEffect None st = st) /\
  (isPlaying st || hasNotes st = false ->
   timerId (loopEffect None st) = None /\
   (forall id, In id (pendingFrames (loopEffect None st)) ->
      In id (pendingFrames st))) /\
  nextGrainTime (loopEffect None st) = nextGrainTime st /\
  activeNotes (loopEffect None st) = activeNotes st.
Proof.
  unfold loopEffect, stopIfIdle.
  destruct (isPlaying st) eqn:Hp; destruct (hasNotes st) eqn:Hn; simpl;
    try (split; [reflexivity|]; split; [discriminate|]; split; reflexivity).
  split; [discriminate|].
  destruct (timerId st) eqn:Ht; simpl.
  - split; [|split; reflexivity]. intros _. split; [reflexivity|].
    intros id Hin. now apply filter_In in Hin as [Hin _].
  - split; [|split; reflexivity]. intros _. split; [exact Ht | tauto].
Qed.

Lemma loopEffect_without_context_witness :
  isPlaying engineWithHeldNote || hasNotes engineWithHeldNote = true /\
  loopEffect None engineWithHeldNote = engineWithHeldNote.
Proof.
  assert (H : isPlaying engineWithHeldNote || hasNotes engineWithHeldNote
              = true) by reflexivity.
  split; [exact H|].
  exact (proj1 (loopEffect_without_context engineWithHeldNote) H).
Defined.

(** X17: when the effect runs again (cleanup, then body) while the drone is
    armed or a note is in the registry and the timer's frame is the one
    queued, the cleanup cancels that frame and the body, finding the timer
    still set, requests no other: no frame is left queued, the timer keeps
    the cancelled id and the registry is untouched. *)
Theorem effect_rerun_leaves_no_frame (currentTime : Q) (st : Engine)
    (id : positive) :
  isPlaying st || hasNotes st = true ->
  timerId st = Some id -> pendingFrames st = [id] ->
  loopRunning (loopEffect (Some currentTime) (loopEffectCleanup st)) = false /\
  timerId (loopEffect (Some currentTime) (loopEffectCleanup st)) = Some id /\
  activeNotes (loopEffect (Some currentTime) (loopEffectCleanup st))
    = activeNotes st.
Proof.
  intros Hwanted Ht Hq.
  destruct (effect_rerun_cancels_frame currentTime st id Hwanted Ht Hq)
    as [H1 H2].
  cbv zeta in H1, H2. unfold loopRunning. rewrite H1.
  split; [reflexivity|]. split; [exact H2|].
  unfold loopEffectCleanup. rewrite Ht.
  unfold loopEffect, hasNotes, cancelAnimationFrame in *. simpl.
  rewrite Hwanted.
  destruct (JS.ltb (nextGrainTime st) (currentTime - (2#10))); simpl;
    rewrite Ht; reflexivity.
Qed.

Lemma effect_rerun_leaves_no_frame_witness :
  isPlaying engineReleasing || hasNotes engineReleasing = true /\
  timerId engineReleasing = Some 1%positive /\
  pendingFrames engineReleasing = [1%positive] /\
  loopRunning (loopEffect (Some 2) (loopEffectCleanup engineReleasing))
  = false.
Proof.
  assert (H1 : isPlaying engineReleasing || hasNotes engineReleasing = true)
    by reflexivity.
  assert (H2 : timerId engineReleasing = Some 1%positive) by reflexivity.
  assert (H3 : pendingFrames engineReleasing = [1%positive]) by reflexivity.
  split; [exact H1|]. split; [exact H2|]. split; [exact H3|].
  exact (proj1 (effect_rerun_leaves_no_frame 2 engineReleasing 1%positive
                  H1 H2 H3)).
Defined.

(** With the cursor and the clock at 29 and an interval of 0.005 the loop
    runs 21 slots, one more than the 20 that exact sums give. *)
Lemma burst_rounding_adds_slot :
  let r := scheduleGrains constPow midRandom (Some 29) (Some 10) true
             engineAtTwentyNine in
  length (snd r) = 21%nat /\
  ~ (inject_Z (Z.of_nat (length (snd r))) * (5#1000)
     < 29 + (1#10) - nextGrainTime engineAtTwentyNine + (5#1000)).
Proof.
  cbv zeta. split; [vm_compute; reflexivity|].
  vm_compute. intros H. discriminate H.
Qed.

(** X18: a call of [scheduleGrains] that reaches the loop runs no slot when
    the cursor is already at or past the horizon; otherwise, for a cursor
    that is not negative and a clock reading and a density of at most [2^30]
    seconds, it runs fewer than [(horizon - cursor) / 0.0049 + 1] slots, the
    horizon being the binary64 sum [currentTime + 0.1]; in both cases it
    requests the next frame.  (The rounding of the cursor can add a slot to
    the count exact sums would give, hence 0.0049 and not 0.005.) *)
Theorem scheduleGrains_burst_bound (pow : Q -> Q -> Q) (random : nat -> Q)
    (currentTime bufferDuration : Q) (st : Engine) :
  let r := scheduleGrains pow random (Some currentTime) (Some bufferDuration)
             true st in
  (horizon currentTime <= nextGrainTime st ->
   snd r = [] /\ nextGrainTime (fst r) = nextGrainTime st /\
   activeNotes (fst r) = activeNotes st) /\
  (0 <= nextGrainTime st -> 0 <= currentTime -> currentTime <= clockBound ->
   density (params st) <= clockBound ->
   nextGrainTime st < horizon currentTime ->
   inject_Z (Z.of_nat (length (snd r))) * (49#10000)
   < horizon currentTime - nextGrainTime st + (49#10000)) /\
  timerId (fst r) = Some (nextFrameId st).
Proof.
  cbv zeta. split; [|split].
  - intros Hdone. rewrite scheduleGrains_eq. cbv zeta. simpl.
    destruct (slotsDue (nextGrainTime st) (horizon currentTime)
                (grainInterval (params st))) as [|fuel]; [simpl; auto|].
    rewrite scheduleLoop_S.
    case_ltb (nextGrainTime st) (horizon currentTime); [lra|].
    simpl. auto.
  - intros Hc0 Ht0 Ht1 Hd Hdue.
    destruct (scheduleGrains_slots pow random currentTime bufferDuration st
                Hc0 Ht0 Ht1 Hd) as (_ & H2 & _ & _ & H5).
    cbv zeta in H2, H5.
    remember (length (snd (scheduleGrains pow random (Some currentTime)
                             (Some bufferDuration) true st))) as n eqn:Hn.
    clear Hn.
    destruct (grainInterval_pos (params st)) as [Hmin _].
    destruct minSpacing_bounds as [M0 _].
    destruct roundingSlack_bounds as [S0 S1].
    destruct n as [|k].
    { change (inject_Z (Z.of_nat 0)) with 0. lra. }
    specialize (H2 k (Nat.lt_succ_diag_r k)).
    destruct (H5 k (Nat.le_succ_diag_r k)) as (G1 & _ & _).
    rewrite inject_nat_S.
    pose proof (inject_nat_nonneg k) as Hk0.
    assert (inject_Z (Z.of_nat k) * (49#10000)
            <= inject_Z (Z.of_nat k)
               * (grainInterval (params st) - roundingSlack)).
    { rewrite !(Qmult_comm (inject_Z (Z.of_nat k))).
      apply Qmult_le_compat_r; lra. }
    lra.
  - now destruct (scheduleGrains_rearms pow random currentTime bufferDuration
                    st) as (H & _).
Qed.

Lemma scheduleGrains_burst_bound_witness :
  horizon 5 <= nextGrainTime (set_nextGrainTime 6 engineWithHeldNote) /\
  snd (scheduleGrains constPow midRandom (Some 5) (Some 10) true
         (set_nextGrainTime 6 engineWithHeldNote)) = [] /\
  0 <= nextGrainTime engineWithHeldNote /\ 0 <= 5 /\ 5 <= clockBound /\
  density (params engineWithHeldNote) <= clockBound /\
  nextGrainTime engineWithHeldNote < horizon 5 /\
  inject_Z (Z.of_nat (length (snd (scheduleGrains constPow midRandom (Some 5)
                                     (Some 10) true engineWithHeldNote))))
    * (49#10000)
  < horizon 5 - nextGrainTime engineWithHeldNote + (49#10000).
Proof.
  assert (H1 : horizon 5
               <= nextGrainTime (set_nextGrainTime 6 engineWithHeldNote))
    by (vm_compute; discriminate).
  assert (H2 : nextGrainTime engineWithHeldNote < horizon 5)
    by (vm_compute; reflexivity).
  assert (H3 : 0 <= nextGrainTime engineWithHeldNote) by (simpl; lra).
  assert (H4 : 0 <= 5) by lra.
  assert (H5 : 5 <= clockBound) by (vm_compute; discriminate).
  assert (H6 : density (params engineWithHeldNote) <= clockBound)
    by (vm_compute; discriminate).
  split; [exact H1|]. split.
  - exact (proj1 (proj1 (scheduleGrains_burst_bound constPow midRandom 5 10
                           (set_nextGrainTime 6 engineWithHeldNote)) H1)).
  - split; [exact H3|]. split; [exact H4|]. split; [exact H5|].
    split; [exact H6|]. split; [exact H2|].
    exact (proj1 (proj2 (scheduleGrains_burst_bound constPow midRandom 5 10
                           engineWithHeldNote)) H3 H4 H5 H6 H2).
Defined.

(** * Parameter updates *)

Lemma getParam_withParam_same (key : ParamKey) (value : Q)
    (p : GranularParams) :
  getParam key (withParam key value p) = value.
Proof. destruct p, key; reflexivity. Qed.

Lemma getParam_withParam_other (key other : ParamKey) (value : Q)
    (p : GranularParams) :
  key <> other -> getParam other (withParam key value p) = getParam other p.
Proof. intros Hne. destruct p, key, other; try reflexivity; congruence. Qed.

(** X19: [updateParam] replaces exactly the named parameter of the [params]
    its closure captured: the result, which is both handed to [setParams] and
    stored in [paramsRef], reads back the value under that key and the
    captured parameters under every other key, whatever [paramsRef] held
    before; nothing else of the component changes. *)
Theorem updateParam_replaces_one (captured : GranularParams) (key : ParamKey)
    (value : Q) (st : Engine) :
  params (snd (updateParam captured key value st))
  = fst (updateParam captured key value st) /\
  getParam key (fst (updateParam captured key value st)) = value /\
  (forall other, key <> other ->
     getParam other (fst (updateParam captured key value st))
     = getParam other captured) /\
  set_params (params st) (snd (updateParam captured key value st)) = st.
Proof.
  unfold updateParam. simpl. split; [reflexivity|]. split.
  - apply getParam_withParam_same.
  - split.
    + intros other Hne. now apply getParam_withParam_other.
    + now destruct st.
Qed.

Lemma updateParam_replaces_one_witness :
  KAttack <> KRelease /\
  getParam KAttack (fst (updateParam defaultParams KAttack 1 initialEngine))
  = 1 /\
  getParam KRelease (fst (updateParam defaultParams KAttack 1 initialEngine))
  = getParam KRelease defaultParams.
Proof.
  assert (H : KAttack <> KRelease) by discriminate.
  destruct (updateParam_replaces_one defaultParams KAttack 1 initialEngine)
    as (_ & H2 & H3 & _).
  split; [exact H|]. split; [exact H2 | exact (H3 KRelease H)].
Defined.

(** X20: the thirteen updates of [handleAIPresets] all start from the
    parameters captured by one closure, so only the last one survives: the
    parameters the component ends with, in [paramsRef] and in the next
    render's state alike, are the captured ones with [reverbWet] taken from
    the preset; every other field of the preset is lost. *)
Theorem handleAIPresets_keeps_last_update (captured : GranularParams)
    (preset : PresetResponse) (st : Engine) :
  fst (handleAIPresets captured preset st)
  = withParam KReverbWet (preset_reverbWet preset) captured /\
  params (snd (handleAIPresets captured preset st))
  = withParam KReverbWet (preset_reverbWet preset) captured /\
  (forall key, key <> KReverbWet ->
     getParam key (params (snd (handleAIPresets captured preset st)))
     = getParam key captured) /\
  reverbWet (params (snd (handleAIPresets captured preset st)))
  = preset_reverbWet preset.
Proof.
  unfold handleAIPresets, updateParam. simpl.
  split; [reflexivity|]. split; [reflexivity|]. split.
  - intros key Hne. apply getParam_withParam_other. congruence.
  - now destruct captured.
Qed.

Lemma handleAIPresets_keeps_last_update_witness :
  KAttack <> KReverbWet /\
  getParam KAttack
    (params (snd (handleAIPresets defaultParams
                    (mkPreset (1#5) (1#5) (1#5) 2 (1#2) 1 1 (1#2) 2
                              (1#2) (1#2) (1#2) (3#4))
                    initialEngine)))
  = getParam KAttack defaultParams /\
  reverbWet
    (params (snd (handleAIPresets defaultParams
                    (mkPreset (1#5) (1#5) (1#5) 2 (1#2) 1 1 (1#2) 2
                              (1#2) (1#2) (1#2) (3#4))
                    initialEngine)))
  = 3#4.
Proof.
  assert (H : KAttack <> KReverbWet) by discriminate.
  destruct (handleAIPresets_keeps_last_update defaultParams
              (mkPreset (1#5) (1#5) (1#5) 2 (1#2) 1 1 (1#2) 2
                        (1#2) (1#2) (1#2) (3#4))
              initialEngine) as (_ & _ & H3 & H4).
  split; [exact H|]. split; [exact (H3 KAttack H) | exact H4].
Defined.

(** * MIDI input *)

(** X21: [getMIDIMessage] starts a note only for a message of at least three
    bytes whose status is 144..159 and whose velocity byte is positive; the
    velocity it passes on is that byte over 127, which is in (0, 1] for a
    data byte up to 127. *)
Theorem midi_note_on_velocity (data : list Z) (note : Z) (velocity : Q) :
  midiAction data = MidiNoteOn note velocity ->
  exists command byte rest,
    data = command :: note :: byte :: rest /\
    (144 <= command <= 159)%Z /\ (0 < byte)%Z /\
    velocity = inject_Z byte / 127 /\ 0 < velocity /\
    ((byte <= 127)%Z -> velocity <= 1).
Proof.
  unfold midiAction. intros H.
  destruct data as [|command [|n [|byte rest]]];
    cbn [nth_error length nth Nat.ltb Nat.leb] in H;
    try discriminate H;
    repeat match type of H with
           | (if ?b then _ else _) = _ => destruct b eqn:?; try discriminate H
           end.
  { rewrite andb_false_r in *. discriminate. }
  injection H as <- <-.
  repeat match goal with
         | E : (_ && _) = true |- _ => apply andb_true_iff in E as [? ?]
         end.
  repeat match goal with
         | E : (_ <=? _)%Z = true |- _ => apply Z.leb_le in E
         | E : (_ <? _)%Z = true |- _ => apply Z.ltb_lt in E
         end.
  exists command, byte, rest.
  split; [reflexivity|]. split; [lia|]. split; [assumption|].
  split; [reflexivity|].
  assert (Hb : 0 < inject_Z byte) by (rewrite <- (Zlt_Qlt 0); assumption).
  split.
  - apply Qlt_shift_div_l; lra.
  - intros Hle. apply Qle_shift_div_r; [lra|].
    assert (Hq : inject_Z byte <= inject_Z 127)
      by (rewrite <- Zle_Qle; exact Hle).
    change (inject_Z 127) with 127 in Hq. lra.
Qed.

Lemma midi_note_on_velocity_witness :
  midiAction [144; 60; 127]%Z = MidiNoteOn 60 (inject_Z 127 / 127) /\
  0 < inject_Z 127 / 127 /\ inject_Z 127 / 127 <= 1.
Proof.
  assert (H : midiAction [144; 60; 127]%Z = MidiNoteOn 60 (inject_Z 127 / 127))
    by reflexivity.
  destruct (midi_note_on_velocity _ _ _ H)
    as (c & b & r & Hd & _ & _ & _ & Hpos & Hle).
  split; [exact H|]. split; [exact Hpos|].
  apply Hle. injection Hd as _ Hb _. rewrite <- Hb. lia.
Defined.

(** X22: a note-on status with velocity 0, or with the velocity byte
    missing, acts on the component exactly as a note-off status for the same
    note on any channel; a message of any length whose status byte is missing
    or outside 128..159 calls no handler, so it changes nothing and starts no
    grain; a lone status byte in 128..159 releases no note: registry and
    displayed notes keep their content. *)
Theorem midi_dispatch (pow : Q -> Q -> Q) (random : nat -> Q)
    (clock buffer : option Q) (graph : bool) (st : Engine)
    (command note : Z) (rest : list Z) :
  ((144 <= command <= 159)%Z ->
   getMIDIMessage pow random clock buffer graph [command; note; 0%Z] st
   = (handleNoteOff clock note st, []) /\
   getMIDIMessage pow random clock buffer graph [command; note] st
   = (handleNoteOff clock note st, [])) /\
  ((128 <= command <= 143)%Z ->
   getMIDIMessage pow random clock buffer graph (command :: note :: rest) st
   = (handleNoteOff clock note st, [])) /\
  (forall data,
     (forall status, nth_error data 0 = Some status ->
        (status < 128)%Z \/ (159 < status)%Z) ->
     getMIDIMessage pow random clock buffer graph data st = (st, [])) /\
  ((128 <= command <= 159)%Z ->
   snd (getMIDIMessage pow random clock buffer graph [command] st) = [] /\
   activeNotes (fst (getMIDIMessage pow random clock buffer graph [command]
                       st)) = activeNotes st /\
   activeNotesUI (fst (getMIDIMessage pow random clock buffer graph [command]
                         st)) = activeNotesUI st).
Proof.
  unfold getMIDIMessage, midiAction. split; [|split; [|split]].
  - intros [H1 H2].
    assert (E1 : (144 <=? command)%Z = true) by (apply Z.leb_le; lia).
    assert (E2 : (command <=? 159)%Z = true) by (apply Z.leb_le; lia).
    simpl. rewrite E1, E2. simpl.
    destruct ((128 <=? command)%Z && (command <=? 143)%Z); split; reflexivity.
  - intros [H1 H2].
    assert (E1 : (128 <=? command)%Z = true) by (apply Z.leb_le; lia).
    assert (E2 : (command <=? 143)%Z = true) by (apply Z.leb_le; lia).
    assert (E3 : (144 <=? command)%Z = false) by (apply Z.leb_gt; lia).
    simpl nth_error. cbv iota. rewrite E1, E2, E3. reflexivity.
  - intros data Hout. cbv zeta.
    destruct (nth_error data 0) as [status|] eqn:Hs; [|reflexivity].
    destruct (Hout status eq_refl) as [H | H].
    + assert (E1 : (128 <=? status)%Z = false) by (apply Z.leb_gt; lia).
      assert (E3 : (144 <=? status)%Z = false) by (apply Z.leb_gt; lia).
      rewrite E1, E3. reflexivity.
    + assert (E2 : (status <=? 143)%Z = false) by (apply Z.leb_gt; lia).
      assert (E3 : (status <=? 159)%Z = false) by (apply Z.leb_gt; lia).
      rewrite E2, E3. rewrite !andb_false_r. reflexivity.
  - intros [H1 H2].
    assert (E2 : (command <=? 159)%Z = true) by (apply Z.leb_le; lia).
    simpl nth_error. simpl nth. simpl Nat.ltb. cbv iota. rewrite E2.
    assert (E : ((128 <=? command)%Z && (command <=? 143)%Z
                 || (144 <=? command)%Z && true && true) = true).
    { destruct (Z.leb_spec 144 command) as [H|H].
      - rewrite orb_true_r. reflexivity.
      - assert (E1 : (128 <=? command)%Z = true) by (apply Z.leb_le; lia).
        assert (E3 : (command <=? 143)%Z = true) by (apply Z.leb_le; lia).
        now rewrite E1, E3. }
    rewrite andb_false_r. simpl Z.eqb. rewrite E. cbn [fst snd].
    split; [reflexivity|]. split; [reflexivity|].
    simpl. apply filter_true.
Qed.

Lemma midi_dispatch_witness :
  (144 <= 145 <= 159)%Z /\
  getMIDIMessage constPow midRandom (Some 1) (Some 10) true [145; 60; 0]%Z
    engineWithHeldNote
  = (handleNoteOff (Some 1) 60 engineWithHeldNote, []) /\
  (forall status, nth_error [248%Z] 0 = Some status ->
     (status < 128)%Z \/ (159 < status)%Z) /\
  getMIDIMessage constPow midRandom (Some 1) (Some 10) true [248%Z]
    engineWithHeldNote
  = (engineWithHeldNote, []).
Proof.
  assert (H1 : (144 <= 145 <= 159)%Z) by lia.
  assert (H2 : forall status, nth_error [248%Z] 0 = Some status ->
                 (status < 128)%Z \/ (159 < status)%Z)
    by (intros status [= <-]; right; lia).
  split; [exact H1|]. split.
  - exact (proj1 (proj1 (midi_dispatch constPow midRandom (Some 1) (Some 10)
                           true engineWithHeldNote 145 60 []) H1)).
  - split; [exact H2|].
    exact (proj1 (proj2 (proj2 (midi_dispatch constPow midRandom (Some 1)
                                  (Some 10) true engineWithHeldNote 0 0 [])))
             [248%Z] H2).
Defined.

(** * Computer keyboard and on-screen keyboard *)

Lemma lookup_In {V : Type} (k : string) (v : V) (o : list (string * V)) :
  Keys.lookup k o = Some v -> In (k, v) o.
Proof.
  induction o as [|[k' v'] r IH]; simpl; [discriminate|].
  destruct (String.eqb_spec k k') as [->|Hne].
  - intros [= ->]. now left.
  - intros H. right. auto.
Qed.

Lemma keyboard_range_enum (n : Z) :
  (48 <= n <= 79)%Z ->
  In n (map (fun i => (48 + Z.of_nat i)%Z) (seq 0 32)).
Proof.
  intros H. apply in_map_iff. exists (Z.to_nat (n - 48)). split; [lia|].
  apply in_seq. lia.
Qed.

(** X23: the labels shown on the keys are right: every note of the on-screen
    range 48..79 has a label in [NOTE_TO_KEY]; the key named by a label,
    lower-cased, plays exactly the labelled note; and every key of
    [KEY_TO_NOTE] plays a note of that range. *)
Theorem key_labels_play_their_note :
  (forall n, (48 <= n <= 79)%Z ->
     exists label, JSMap.get n NOTE_TO_KEY = Some label) /\
  (forall n label, JSMap.get n NOTE_TO_KEY = Some label ->
     keyNote (Keys.toLowerCase label) = Some n) /\
  (forall key n, keyNote key = Some n -> (48 <= n <= 79)%Z).
Proof.
  split; [|split].
  - intros n Hrange. pose proof (keyboard_range_enum n Hrange) as Hn.
    assert (Hall : forallb
              (fun m => match JSMap.get m NOTE_TO_KEY with
                        | Some _ => true | None => false end)
              (map (fun i => (48 + Z.of_nat i)%Z) (seq 0 32)) = true)
      by (vm_compute; reflexivity).
    rewrite forallb_forall in Hall. specialize (Hall n Hn).
    destruct (JSMap.get n NOTE_TO_KEY) as [label|]; [|discriminate].
    exists label. reflexivity.
  - intros n label Hget. apply JSMapFacts.get_In in Hget.
    assert (Hall : forallb
              (fun e => match keyNote (Keys.toLowerCase (snd e)) with
                        | Some m => Z.eqb m (fst e) | None => false end)
              NOTE_TO_KEY = true)
      by (vm_compute; reflexivity).
    rewrite forallb_forall in Hall. specialize (Hall _ Hget). cbn [fst snd] in Hall.
    destruct (keyNote (Keys.toLowerCase label)) as [m|]; [|discriminate].
    apply Z.eqb_eq in Hall. subst m. reflexivity.
  - intros key n Hkey. unfold keyNote in Hkey.
    destruct (Keys.lookup key KEY_TO_NOTE) as [m|] eqn:Hl; [|discriminate].
    destruct (Z.eqb m 0); [discriminate|]. injection Hkey as ->.
    apply lookup_In in Hl.
    assert (Hall : forallb
              (fun e : string * Z =>
                 Z.leb 48 (snd e) && Z.leb (snd e) 79)
              KEY_TO_NOTE = true)
      by (vm_compute; reflexivity).
    rewrite forallb_forall in Hall. specialize (Hall _ Hl). cbn [fst snd] in Hall.
    apply andb_true_iff in Hall as [H1 H2].
    apply Z.leb_le in H1, H2. lia.
Qed.

Lemma key_labels_play_their_note_witness :
  (48 <= 61 <= 79)%Z /\
  JSMap.get 61 NOTE_TO_KEY = Some "2"%string /\
  keyNote (Keys.toLowerCase "2") = Some 61%Z /\
  keyNote "l" = Some 61%Z /\ (48 <= 61 <= 79)%Z.
Proof.
  assert (H1 : (48 <= 61 <= 79)%Z) by lia.
  assert (H2 : JSMap.get 61 NOTE_TO_KEY = Some "2"%string) by reflexivity.
  assert (H3 : keyNote "l" = Some 61%Z) by reflexivity.
  destruct key_labels_play_their_note as (_ & A2 & A3).
  split; [exact H1|]. split; [exact H2|]. split; [exact (A2 61%Z _ H2)|].
  split; [exact H3 | exact (A3 _ _ H3)].
Defined.

(** X24: a key that is pressed with a modifier, as an auto-repeat, or inside
    a text field starts nothing, while the release of the same key always
    releases its note; and a key starts a note exactly when its lower-cased
    name is in [KEY_TO_NOTE], so upper-case input plays too. *)
Theorem key_events (pow : Q -> Q -> Q) (random : nat -> Q)
    (clock buffer : option Q) (graph : bool) (e : KeyEvent) (st : Engine) :
  (isRepeat e || ctrlKey e || metaKey e || altKey e || targetIsTextInput e
   = true ->
   handleKeyDown pow random clock buffer graph e st = (st, [])) /\
  (forall n, keyNote (Keys.toLowerCase (eventKey e)) = Some n ->
     handleKeyUp clock e st = handleNoteOff clock n st /\
     (isRepeat e || ctrlKey e || metaKey e || altKey e || targetIsTextInput e
      = false ->
      handleKeyDown pow random clock buffer graph e st
      = handleNoteOn pow random clock buffer graph n defaultVelocity st)) /\
  (keyNote (Keys.toLowerCase (eventKey e)) = None ->
   handleKeyDown pow random clock buffer graph e st = (st, []) /\
   handleKeyUp clock e st = st).
Proof.
  unfold handleKeyDown, handleKeyUp, keyDownNote, keyUpNote.
  split; [|split].
  - intros H.
    destruct (isRepeat e || ctrlKey e || metaKey e || altKey e); trivial.
    simpl in H. now rewrite H.
  - intros n Hn. rewrite Hn. split; [reflexivity|]. intros H.
    apply orb_false_iff in H as [H1 H2]. now rewrite H1, H2.
  - intros Hn. rewrite Hn. split; [|reflexivity].
    destruct (isRepeat e || ctrlKey e || metaKey e || altKey e); trivial.
    now destruct (targetIsTextInput e).
Qed.

Lemma key_events_witness :
  keyNote (Keys.toLowerCase (eventKey (mkKeyEvent "Q" false true false false
                                         false))) = Some 60%Z /\
  handleKeyDown constPow midRandom (Some 1) (Some 10) true
    (mkKeyEvent "Q" false true false false false) engineWithHeldNote
  = (engineWithHeldNote, []) /\
  handleKeyUp (Some 1) (mkKeyEvent "Q" false true false false false)
    engineWithHeldNote
  = handleNoteOff (Some 1) 60 engineWithHeldNote.
Proof.
  assert (H : keyNote (Keys.toLowerCase
                (eventKey (mkKeyEvent "Q" false true false false false)))
              = Some 60%Z) by reflexivity.
  destruct (key_events constPow midRandom (Some 1) (Some 10) true
              (mkKeyEvent "Q" false true false false false)
              engineWithHeldNote) as (A1 & A2 & _).
  split; [exact H|]. split; [exact (A1 eq_refl)|].
  exact (proj1 (A2 60%Z H)).
Defined.

Lemma isBlackIndex_mod (i : Z) :
  (0 <= i)%Z ->
  Keyboard.isBlackIndex i
  = existsb (Z.eqb (i mod 12)) [1; 3; 6; 8; 10]%Z.
Proof.
  intros Hi. unfold Keyboard.isBlackIndex.
  now rewrite Z.rem_mod_nonneg by lia.
Qed.

(** X25: on the on-screen keyboard no two neighbouring keys are both black,
    for any key index; the 32 keys of the component hold 19 white keys, begin
    and end with a white key, and every black key is drawn strictly inside
    the keyboard, between its left edge and its right edge. *)
Theorem keyboard_layout :
  (forall i, (0 <= i)%Z -> Keyboard.isBlackIndex i = true ->
     Keyboard.isBlackIndex (i + 1) = false) /\
  length Keyboard.keys = 32%nat /\ Keyboard.totalWhiteKeys = 19%nat /\
  Keyboard.isBlackIndex 0 = false /\
  Keyboard.isBlackIndex (Keyboard.endNote - Keyboard.startNote) = false /\
  (forall k, In k Keyboard.keys -> Keyboard.isBlack k = true ->
     0 < Keyboard.blackKeyLeft (Keyboard.note k) /\
     Keyboard.blackKeyLeft (Keyboard.note k) + (18#10) < 100).
Proof.
  split.
  - intros i Hi. rewrite !isBlackIndex_mod by lia.
    rewrite <- (Zplus_mod_idemp_l i 1 12).
    pose proof (Z.mod_pos_bound i 12 ltac:(lia)) as Hr.
    set (r := (i mod 12)%Z) in *.
    assert (Hcases : (r = 0 \/ r = 1 \/ r = 2 \/ r = 3 \/ r = 4 \/ r = 5 \/
                      r = 6 \/ r = 7 \/ r = 8 \/ r = 9 \/ r = 10 \/ r = 11)%Z)
      by lia.
    clearbody r.
    repeat (destruct Hcases as [-> | Hcases]; [vm_compute; congruence|]).
    subst r. vm_compute. congruence.
  - split; [reflexivity|]. split; [reflexivity|].
    split; [reflexivity|]. split; [reflexivity|].
    intros k Hin Hblack.
    assert (Hall : forallb
              (fun k => negb (Keyboard.isBlack k)
                        || (JS.ltb 0 (Keyboard.blackKeyLeft (Keyboard.note k))
                            && JS.ltb (Keyboard.blackKeyLeft (Keyboard.note k)
                                       + (18#10)) 100))
              Keyboard.keys = true)
      by (vm_compute; reflexivity).
    rewrite forallb_forall in Hall. specialize (Hall k Hin).
    rewrite Hblack in Hall. cbn [negb orb] in Hall.
    apply andb_true_iff in Hall as [H1 H2].
    apply JSFacts.ltb_lt in H1, H2. split; assumption.
Qed.

Lemma keyboard_layout_witness :
  (0 <= 13)%Z /\ Keyboard.isBlackIndex 13 = true /\
  Keyboard.isBlackIndex (13 + 1) = false /\
  In (Keyboard.mkKey 61 true) Keyboard.keys /\
  0 < Keyboard.blackKeyLeft 61.
Proof.
  assert (H1 : (0 <= 13)%Z) by lia.
  assert (H2 : Keyboard.isBlackIndex 13 = true) by reflexivity.
  assert (H3 : In (Keyboard.mkKey 61 true) Keyboard.keys)
    by (vm_compute; tauto).
  destruct keyboard_layout as (A1 & _ & _ & _ & _ & A6).
  split; [exact H1|]. split; [exact H2|]. split; [exact (A1 13%Z H1 H2)|].
  split; [exact H3|]. exact (proj1 (A6 _ H3 eq_refl)).
Defined.

(** * Knob and fader *)

Lemma clamp_between (lo hi x : Q) :
  lo <= hi -> lo <= Qmin hi (Qmax lo x) /\ Qmin hi (Qmax lo x) <= hi.
Proof.
  intros H.
  destruct (JSFacts.max_cases lo x) as [[H1 E1]|[H1 E1]];
  destruct (JSFacts.min_cases hi (Qmax lo x)) as [[H2 E2]|[H2 E2]];
  rewrite E2; split; lra.
Qed.

Lemma clamp_mono (lo hi x y : Q) :
  x <= y -> Qmin hi (Qmax lo x) <= Qmin hi (Qmax lo y).
Proof.
  intros H. apply Q.min_le_compat_l. now apply Q.max_le_compat_l.
Qed.

Lemma knob_drag_range_aux (min max startValue startY clientY : Q) :
  min <= max ->
  min <= Knob.handleMouseMove min max startValue startY clientY /\
  Knob.handleMouseMove min max startValue startY clientY <= max.
Proof. intros H. unfold Knob.handleMouseMove. now apply clamp_between. Qed.

(** X26: while a knob is dragged the value it reports stays within
    [min, max]; dragging further up never lowers it; a drag of 200 pixels
    upwards from the minimum reaches the maximum; and a pointer back at the
    starting height reports the starting value when that was in range. *)
Theorem knob_drag (min max startValue startY : Q) :
  min <= max ->
  (forall clientY,
     min <= Knob.handleMouseMove min max startValue startY clientY /\
     Knob.handleMouseMove min max startValue startY clientY <= max) /\
  (forall y1 y2, y1 <= y2 ->
     Knob.handleMouseMove min max startValue startY y2
     <= Knob.handleMouseMove min max startValue startY y1) /\
  Knob.handleMouseMove min max min startY (startY - 200) == max /\
  (min <= startValue -> startValue <= max ->
   Knob.handleMouseMove min max startValue startY startY == startValue).
Proof.
  intros Hrange. unfold Knob.handleMouseMove. cbv zeta.
  split; [|split; [|split]].
  - intros clientY. now apply clamp_between.
  - intros y1 y2 Hy. apply clamp_mono. nra.
  - assert (E : min + (startY - (startY - 200)) * ((5#1000) * (max - min))
                == max) by ring.
    rewrite E. rewrite Q.max_r by exact Hrange. apply Q.min_id.
  - intros Hlo Hhi.
    assert (E : startValue + (startY - startY) * ((5#1000) * (max - min))
                == startValue) by ring.
    rewrite E. rewrite Q.max_r by exact Hlo. now apply Q.min_r.
Qed.

Lemma knob_drag_witness :
  (1#100) <= (2#10) /\
  (1#100) <= Knob.handleMouseMove (1#100) (2#10) (5#100) 300 900 /\
  Knob.handleMouseMove (1#100) (2#10) (5#100) 300 900 <= (2#10) /\
  Knob.handleMouseMove (1#100) (2#10) (1#100) 300 (300 - 200) == (2#10).
Proof.
  assert (H : (1#100) <= (2#10)) by lra.
  destruct (knob_drag (1#100) (2#10) (5#100) 300 H) as (A1 & _ & _ & _).
  destruct (knob_drag (1#100) (2#10) (1#100) 300 H) as (_ & _ & A3 & _).
  split; [exact H|]. split; [exact (proj1 (A1 900))|].
  split; [exact (proj2 (A1 900)) | exact A3].
Defined.

(** X27: for a control with [min < max] and a value in range, the knob's
    pointer angle lies in [-135, 135] degrees, with the ends reached at [min]
    and [max], and the fader thumb sits between 0% and 80% of the track; in
    particular this holds for every value a drag reports. *)
Theorem knob_angle_range (min max value : Q) :
  min < max -> min <= value -> value <= max ->
  (-135 <= Knob.angle min max value /\ Knob.angle min max value <= 135) /\
  (0 <= Knob.thumbBottom min max value /\
   Knob.thumbBottom min max value <= 80) /\
  Knob.angle min max min == -135 /\ Knob.angle min max max == 135 /\
  (forall startValue startY clientY,
     -135 <= Knob.angle min max
               (Knob.handleMouseMove min max startValue startY clientY) /\
     Knob.angle min max
       (Knob.handleMouseMove min max startValue startY clientY) <= 135).
Proof.
  intros Hlt Hlo Hhi.
  assert (Hpos : 0 < max - min) by lra.
  assert (Hunit : forall v, min <= v -> v <= max ->
            0 <= (v - min) / (max - min) /\ (v - min) / (max - min) <= 1).
  { intros v Hv0 Hv1. split.
    - apply Qle_shift_div_l; lra.
    - apply Qle_shift_div_r; lra. }
  unfold Knob.angle, Knob.thumbBottom. cbv zeta.
  split; [|split; [|split; [|split]]].
  - destruct (Hunit value Hlo Hhi). split; lra.
  - destruct (Hunit value Hlo Hhi). split; lra.
  - field. lra.
  - field. lra.
  - intros startValue startY clientY.
    destruct (knob_drag_range_aux min max startValue startY clientY)
      as [Hd0 Hd1]; [lra|].
    destruct (Hunit _ Hd0 Hd1). split; lra.
Qed.

Lemma knob_angle_range_witness :
  (1#10) < 4 /\ (1#10) <= 1 /\ 1 <= 4 /\
  -135 <= Knob.angle (1#10) 4 1 /\ Knob.angle (1#10) 4 1 <= 135 /\
  0 <= Knob.thumbBottom (1#10) 4 1.
Proof.
  assert (H1 : (1#10) < 4) by lra.
  assert (H2 : (1#10) <= 1) by lra.
  assert (H3 : 1 <= 4) by lra.
  destruct (knob_angle_range (1#10) 4 1 H1 H2 H3) as ((A1 & A2) & (A3 & _) & _).
  split; [exact H1|]. split; [exact H2|]. split; [exact H3|].
  split; [exact A1|]. split; [exact A2 | exact A3].
Defined.

(** * The clip editor and the waveform display *)










(** X29: for a well-formed clip window and a buffer of at least 100 samples,
    the slice shown in the main view is not empty and lies inside the
    buffer: [0 <= startIdx < endIdx <= length]. *)
Theorem main_view_slice (r : Q * Q) (length : nat) :
  Waveform.clipInv r -> (100 <= length)%nat ->
  (0 <= fst (Waveform.sliceBounds r length))%Z /\
  (fst (Waveform.sliceBounds r length)
   < snd (Waveform.sliceBounds r length))%Z /\
  (snd (Waveform.sliceBounds r length) <= Z.of_nat length)%Z.
Proof.
  destruct r as [s e]. unfold Waveform.clipInv, Waveform.sliceBounds.
  cbn [fst snd]. intros (H0 & H1 & Hw) Hlen.
  set (L := inject_Z (Z.of_nat length)).
  assert (HL : 100 <= L).
  { unfold L. change 100 with (inject_Z 100). rewrite <- Zle_Qle. lia. }
  split; [|split].
  - change 0%Z with (Qfloor (inject_Z 0)). apply Qfloor_resp_le.
    change (inject_Z 0) with 0. nra.
  - pose proof (Qfloor_le (s * L)) as Hf.
    assert (Hstep : inject_Z (Qfloor (s * L) + 1) <= e * L).
    { rewrite inject_Z_plus. change (inject_Z 1) with 1. nra. }
    apply Qfloor_resp_le in Hstep. rewrite Qfloor_Z in Hstep. lia.
  - rewrite <- (Qfloor_Z (Z.of_nat length)). apply Qfloor_resp_le.
    fold L. nra.
Qed.

Lemma main_view_slice_witness :
  Waveform.clipInv (25#100, 26#100) /\ (100 <= 100)%nat /\
  (fst (Waveform.sliceBounds (25#100, 26#100) 100)
   < snd (Waveform.sliceBounds (25#100, 26#100) 100))%Z.
Proof.
  assert (H1 : Waveform.clipInv (25#100, 26#100))
    by (unfold Waveform.clipInv; cbn [fst snd]; split; [lra|split; lra]).
  assert (H2 : (100 <= 100)%nat) by lia.
  split; [exact H1|]. split; [exact H2|].
  exact (proj1 (proj2 (main_view_slice (25#100, 26#100) 100 H1 H2))).
Defined.

Lemma scanBucket_S (data : list Q) (base from count : nat) (m0 M0 : Q) :
  Waveform.scanBucket data base from (S count) (m0, M0)
  = Waveform.scanBucket data base (S from) count
      (match nth_error data (base + from) with
       | Some d => if JS.ltb d m0 then d else m0
       | None => m0
       end,
       match nth_error data (base + from) with
       | Some d => if JS.gtb d M0 then d else M0
       | None => M0
       end).
Proof. reflexivity. Qed.

Lemma scanBucket_spec (data : list Q) (base count : nat) :
  forall (from : nat) (m0 M0 : Q),
  fst (Waveform.scanBucket data base from count (m0, M0)) <= m0 /\
  M0 <= snd (Waveform.scanBucket data base from count (m0, M0)) /\
  (forall j d, (from <= j < from + count)%nat ->
     nth_error data (base + j) = Some d ->
     fst (Waveform.scanBucket data base from count (m0, M0)) <= d /\
     d <= snd (Waveform.scanBucket data base from count (m0, M0))) /\
  (forall lo hi, lo <= m0 -> M0 <= hi ->
     (forall d, In d data -> lo <= d /\ d <= hi) ->
     lo <= fst (Waveform.scanBucket data base from count (m0, M0)) /\
     snd (Waveform.scanBucket data base from count (m0, M0)) <= hi) /\
  ((length data <= base + from)%nat ->
   Waveform.scanBucket data base from count (m0, M0) = (m0, M0)).
Proof.
  induction count as [|count IH]; intros from m0 M0.
  - cbn [Waveform.scanBucket fst snd].
    split; [lra|]. split; [lra|]. split; [intros j d Hj; lia|].
    split; [intros lo hi H1 H2 _; split; assumption | reflexivity].
  - rewrite scanBucket_S.
    set (datum := nth_error data (base + from)).
    assert (Hdatum : nth_error data (base + from) = datum) by reflexivity.
    set (m1 := match datum with
               | Some d => if JS.ltb d m0 then d else m0
               | None => m0
               end).
    set (M1 := match datum with
               | Some d => if JS.gtb d M0 then d else M0
               | None => M0
               end).
    assert (Hm : m1 <= m0 /\ M0 <= M1 /\
                 (forall d, datum = Some d -> m1 <= d /\ d <= M1) /\
                 (forall lo hi, lo <= m0 -> M0 <= hi ->
                    (forall d, In d data -> lo <= d /\ d <= hi) ->
                    lo <= m1 /\ M1 <= hi) /\
                 (datum = None -> m1 = m0 /\ M1 = M0)).
    { subst m1 M1. destruct datum as [d|].
      - apply nth_error_In in Hdatum. unfold JS.gtb.
        destruct (JSFacts.ltb_cases d m0) as [[E1 L1]|[E1 L1]]; rewrite E1;
        destruct (JSFacts.ltb_cases M0 d) as [[E2 L2]|[E2 L2]]; rewrite E2;
        (split; [lra|]; split; [lra|]; split;
         [intros d' Hd'; injection Hd' as <-; split; lra|];
         split; [|discriminate];
         intros lo hi Hlo Hhi Hall; destruct (Hall d Hdatum); split; lra).
      - split; [lra|]. split; [lra|]. split; [discriminate|].
        split; [intros lo hi Hlo Hhi _; split; assumption|].
        intros _. split; reflexivity. }
    destruct Hm as (Hm1 & Hm2 & Hm3 & Hm4 & Hm5).
    destruct (IH (S from) m1 M1) as (I1 & I2 & I3 & I4 & I5).
    split; [lra|]. split; [lra|]. split; [|split].
    + intros j d Hj Hd.
      destruct (Nat.eq_dec j from) as [->|Hne].
      * rewrite Hdatum in Hd. destruct (Hm3 d Hd). split; lra.
      * apply (I3 j d); [lia | exact Hd].
    + intros lo hi Hlo Hhi Hall.
      destruct (Hm4 lo hi Hlo Hhi Hall) as [Ha Hb].
      exact (I4 lo hi Ha Hb Hall).
    + intros Hlen.
      assert (Hnone : datum = None).
      { rewrite <- Hdatum. apply nth_error_None. exact Hlen. }
      destruct (Hm5 Hnone) as [-> ->]. apply I5. lia.
Qed.

Lemma columnStep_covers (length width : nat) :
  (0 < width)%nat ->
  (length <= width * Waveform.columnStep length width)%nat.
Proof.
  intros Hw. unfold Waveform.columnStep.
  set (L := inject_Z (Z.of_nat length)).
  set (W := inject_Z (Z.of_nat width)).
  assert (HW : 0 < W).
  { unfold W. change 0 with (inject_Z 0). rewrite <- Zlt_Qlt. lia. }
  assert (HLnn : 0 <= L).
  { unfold L. change 0 with (inject_Z 0). rewrite <- Zle_Qle. lia. }
  pose proof (Qle_ceiling (L / W)) as Hc.
  set (c := Qceiling (L / W)) in *.
  assert (HLc : L <= inject_Z c * W).
  { assert (E : L == (L / W) * W) by (field; lra).
    rewrite E. apply Qmult_le_compat_r; lra. }
  unfold L, W in HLc. rewrite <- inject_Z_mult, <- Zle_Qle in HLc.
  assert (Hcnn : (0 <= c)%Z) by nia.
  apply Nat2Z.inj_le. rewrite Nat2Z.inj_mul, Z2Nat.id by exact Hcnn. lia.
Qed.

(** X30: the columns of [drawWaveform] cover the data: on a canvas at least
    one pixel wide every sample is read at some position [(i, j)] with [i]
    a drawn column and [j] below the step, and the [min] and [max] of that
    column bracket it.  When all samples are within [-1, 1] so is every column's
    extent, and a column whose bucket starts past the end of the data is
    drawn one pixel high. *)
Theorem drawWaveform_columns (data : list Q) (width : nat) :
  (0 < width)%nat ->
  let step := Waveform.columnStep (length data) width in
  (forall k d, nth_error data k = Some d ->
     exists i j, (i < width)%nat /\ (j < step)%nat /\
       k = (i * step + j)%nat /\
       fst (Waveform.columnExtent data step i) <= d /\
       d <= snd (Waveform.columnExtent data step i)) /\
  ((forall d, In d data -> -1 <= d /\ d <= 1) ->
   forall i, -1 <= fst (Waveform.columnExtent data step i) /\
             fst (Waveform.columnExtent data step i) <= 1 /\
             -1 <= snd (Waveform.columnExtent data step i) /\
             snd (Waveform.columnExtent data step i) <= 1) /\
  (forall i amp, 0 <= amp -> (length data <= i * step)%nat ->
     Waveform.columnHeight data step amp i == 1).
Proof.
  intros Hw step.
  pose proof (columnStep_covers (length data) width Hw) as Hcov.
  fold step in Hcov.
  split; [|split].
  - intros k d Hk.
    assert (Hlt : (k < length data)%nat)
      by (apply nth_error_Some; congruence).
    assert (Hstep : (0 < step)%nat) by nia.
    exists (k / step)%nat, (k mod step)%nat.
    assert (Hk' : k = (k / step * step + k mod step)%nat).
    { rewrite (Nat.div_mod_eq k step) at 1. lia. }
    split.
    { apply Nat.Div0.div_lt_upper_bound. lia. }
    split; [apply Nat.mod_upper_bound; lia|].
    split; [exact Hk'|].
    unfold Waveform.columnExtent.
    destruct (scanBucket_spec data (k / step * step) step 0%nat 1 (-1))
      as (_ & _ & H3 & _).
    apply (H3 (k mod step)%nat d).
    + split; [lia|]. simpl. apply Nat.mod_upper_bound. lia.
    + rewrite <- Hk'. exact Hk.
  - intros Hall i. unfold Waveform.columnExtent.
    destruct (scanBucket_spec data (i * step) step 0%nat 1 (-1))
      as (H1 & H2 & _ & H4 & _).
    destruct (H4 (-1) 1) as [Ha Hb]; [lra | lra | exact Hall |].
    split; [exact Ha|]. split; [exact H1|]. split; [exact H2 | exact Hb].
  - intros i amp Hamp Hlen. unfold Waveform.columnHeight, Waveform.columnExtent.
    destruct (scanBucket_spec data (i * step) step 0%nat 1 (-1))
      as (_ & _ & _ & _ & H5).
    rewrite H5 by lia. apply Q.max_l. lra.
Qed.

Lemma drawWaveform_columns_witness :
  (0 < 2)%nat /\
  (exists i j, (i < 2)%nat /\
     (j < Waveform.columnStep 3 2)%nat /\
     2%nat = (i * Waveform.columnStep 3 2 + j)%nat /\
     fst (Waveform.columnExtent [1#2; -(1#2); 1#4]
            (Waveform.columnStep 3 2) i) <= (1#4) /\
     (1#4) <= snd (Waveform.columnExtent [1#2; -(1#2); 1#4]
                     (Waveform.columnStep 3 2) i)).
Proof.
  assert (H : (0 < 2)%nat) by lia.
  split; [exact H|].
  exact (proj1 (drawWaveform_columns [1#2; -(1#2); 1#4] 2 H) 2%nat (1#4)
           eq_refl).
Defined.
